(** * Name validation and primary-entity/dimension pairing rules

    A shallow embedding of
    [dbt_semantic_interfaces/validations/unique_valid_name.py]:
    the reserved-keyword enumeration, [UniqueAndValidNameRule] and
    [PrimaryEntityDimensionPairs], and of the transform rule
    [SliceNamesRule] that the tests define, followed by the properties of
    these rules.

    Conventions.
    - A Python [str] is a Rocq [string] holding its UTF-8 bytes.  The
      characters the name pattern accepts are all ASCII, a byte above 127
      is accepted by none of its classes, and concatenation, equality and
      use as a dictionary key are the same on either reading.
    - A Python exception is a [Raise] in the [result] monad; a [for] loop
      over a sequence is [for_], with the variables the loop assigns as
      its state.
    - A [dict] is a [gmap]; the dictionary [known_pairings], which
      [validate_manifest] allocates and [_check_semantic_model] mutates, is
      passed in and handed back.
    - [validate_safely] (in [validator_helpers]) only intervenes when the
      decorated body raises; the bodies are modelled undecorated and shown
      not to raise. *)

From stdpp Require Import base option list gmap strings.
From Stdlib Require Import Ascii Lia.

(** ** Exceptions *)

Inductive exn := ValueError | KeyError | AssertionError | TypeError | NameError.

Inductive result (A : Type) :=
| Ok (a : A)
| Raise (e : exn).
Arguments Ok {A} a.
Arguments Raise {A} e.

#[global] Instance result_ret : MRet result := fun A a => Ok a.
#[global] Instance result_bind : MBind result := fun A B f m =>
  match m with
  | Ok a => f a
  | Raise e => Raise e
  end.

(** [for x in xs: body], the loop's assigned variables being the state. *)
Fixpoint for_ {A S : Type} (xs : list A) (body : S -> A -> result S) (s : S)
  : result S :=
  match xs with
  | [] => Ok s
  | x :: xs' => s' ← body s x; for_ xs' body s'
  end.

(** A loop whose body may [break]. *)
Inductive control (S : Type) :=
| Continue (s : S)
| Break (s : S).
Arguments Continue {S} s.
Arguments Break {S} s.

Fixpoint for_break {A S : Type} (xs : list A) (body : S -> A -> control S) (s : S)
  : S :=
  match xs with
  | [] => s
  | x :: xs' =>
      match body s x with
      | Continue s' => for_break xs' body s'
      | Break s' => s'
      end
  end.

(** ** Strings *)

Definition chars (s : string) : list ascii := String.list_ascii_of_string s.

Definition in_range (lo hi c : ascii) : bool :=
  (nat_of_ascii lo <=? nat_of_ascii c)%nat && (nat_of_ascii c <=? nat_of_ascii hi)%nat.

Definition is_ascii_char (c : ascii) : bool := (nat_of_ascii c <? 128)%nat.
Definition is_ascii (s : string) : bool := forallb is_ascii_char (chars s).

Definition ascii_upper_char (c : ascii) : ascii :=
  if in_range "a" "z" c then ascii_of_nat (nat_of_ascii c - 32) else c.
Definition ascii_lower_char (c : ascii) : ascii :=
  if in_range "A" "Z" c then ascii_of_nat (nat_of_ascii c + 32) else c.

Fixpoint ascii_upper (s : string) : string :=
  match s with
  | EmptyString => EmptyString
  | String c s' => String (ascii_upper_char c) (ascii_upper s')
  end.
Fixpoint ascii_lower (s : string) : string :=
  match s with
  | EmptyString => EmptyString
  | String c s' => String (ascii_lower_char c) (ascii_lower s')
  end.

(** Two names are equal up to the case of their letters. *)
Definition eq_nocase (s t : string) : Prop := ascii_lower s = ascii_lower t.

(** [str.upper] and [str.lower] are Python built-ins driven by the Unicode
    tables.  They are taken as an interface; what is known of them is their
    behaviour on ASCII text. *)
Class PyStr := {
  str_upper : string -> string;
  str_lower : string -> string;
  str_upper_ascii : forall s, is_ascii s = true -> str_upper s = ascii_upper s;
  str_lower_ascii : forall s, is_ascii s = true -> str_lower s = ascii_lower s;
}.

(** The interface restricted to ASCII text: bytes above 127 are kept. *)
Definition ascii_PyStr : PyStr :=
  {| str_upper := ascii_upper;
     str_lower := ascii_lower;
     str_upper_ascii := fun _ _ => eq_refl;
     str_lower_ascii := fun _ _ => eq_refl |}.

(** *** Characters

    A character of a Python [str] is a code point; in UTF-8 it is one byte
    that is no continuation byte, followed by the continuation bytes
    ([10xxxxxx]) that belong to it. *)
Definition is_continuation (c : ascii) : bool := in_range "128" "191" c.

(** [len(s)] *)
Fixpoint str_len (s : string) : nat :=
  match s with
  | EmptyString => 0
  | String c s' => (if is_continuation c then 0 else 1) + str_len s'
  end.

(** [s[:n]] for a literal [n] that is not negative. *)
Fixpoint str_slice_to (n : nat) (s : string) : string :=
  match s with
  | EmptyString => EmptyString
  | String c s' =>
      if is_continuation c then String c (str_slice_to n s')
      else
        match n with
        | 0 => EmptyString
        | S n' => String c (str_slice_to n' s')
        end
  end.

(** ** Regular expressions

    The fragment of Python's [re] that [NAME_REGEX] is written in, and the
    anchors [^] and [$] that the specification writes it with.  A cursor
    is a position in the subject: the characters before it (nearest first)
    and the characters after it.  [ends r c] lists the positions where a
    match of [r] that starts at [c] can end, in the order a backtracking
    matcher tries them. *)
Module Re.

Inductive item :=
| Range (lo hi : ascii)
| Single (c : ascii).

Inductive regex :=
| StartA                        (* \A *)
| EndZ                          (* \Z *)
| Caret                         (* ^ without MULTILINE *)
| Dollar                        (* $ without MULTILINE *)
| Lit (c : ascii)
| Class (items : list item)     (* [...] *)
| Seq (r1 r2 : regex)
| Star (r : regex)              (* r*, greedy *)
| NegLookahead (r : regex).     (* (?!r) *)

Definition cursor : Type := list ascii * list ascii.

Definition item_has (c : ascii) (i : item) : bool :=
  match i with
  | Range lo hi => in_range lo hi c
  | Single x => Ascii.eqb x c
  end.

Definition class_has (items : list item) (c : ascii) : bool :=
  existsb (item_has c) items.

Definition take_if (p : ascii -> bool) (c : cursor) : list cursor :=
  match c.2 with
  | x :: rest => if p x then [(x :: c.1, rest)] else []
  | [] => []
  end.

(** Zero or more rounds of [step]; a round that consumes nothing is not
    repeated.  More rounds are tried first. *)
Fixpoint star_ends (step : cursor -> list cursor) (fuel : nat) (c : cursor)
  : list cursor :=
  match fuel with
  | 0 => [c]
  | S fuel' =>
      flat_map
        (fun c' =>
           if (length c'.2 <? length c.2)%nat then star_ends step fuel' c' else [])
        (step c)
      ++ [c]
  end.

Fixpoint ends (r : regex) (c : cursor) : list cursor :=
  match r with
  | StartA => match c.1 with [] => [c] | _ => [] end
  | EndZ => match c.2 with [] => [c] | _ => [] end
  | Caret => match c.1 with [] => [c] | _ => [] end
  | Dollar =>
      (* the end of the subject, or just before a newline that ends it *)
      match c.2 with
      | [] => [c]
      | [x] => if Ascii.eqb x "010" then [c] else []
      | _ => []
      end
  | Lit x => take_if (Ascii.eqb x) c
  | Class items => take_if (class_has items) c
  | Seq r1 r2 => flat_map (ends r2) (ends r1 c)
  | Star r' => star_ends (ends r') (length c.2) c
  | NegLookahead r' => match ends r' c with [] => [c] | _ => [] end
  end.

(** [bool(pattern.match(s))]: is there a match starting at position 0. *)
Definition matches (r : regex) (s : string) : bool :=
  match ends r ([], chars s) with
  | [] => false
  | _ => true
  end.

End Re.

(** ** What the module imports

    [validator_helpers], [type_enums], [references] and [protocols] are other
    modules of the package.  The rules only build their values and read their
    attributes, so they enter as an interface: the metadata attached to a
    manifest object, the file context made from it, and the member names of
    the [TimeGranularity] enumeration, in definition order. *)
Class Imports := {
  Metadata : Type;
  FileContext : Type;
  FileContext_from_metadata : option Metadata -> FileContext;
  TimeGranularity_list_names : list string;
}.

(** Modelled from the spec: the [EntityType] enumeration of [type_enums].
    The pairing rule tests an entity's type against the member [PRIMARY]
    only; every other member is kept by its name. *)
Inductive EntityType :=
| PRIMARY
| OTHER_ENTITY_TYPE (member : string).

Definition EntityType_is (a b : EntityType) : bool :=
  match a, b with
  | PRIMARY, PRIMARY => true
  | OTHER_ENTITY_TYPE x, OTHER_ENTITY_TYPE y => String.eqb x y
  | _, _ => false
  end.

(** The references of [references], a module of the package outside the
    sources embedded here.  [measure.reference], [entity.reference] and
    [dimension.reference] return a [MeasureReference], an [EntityReference]
    and a [DimensionReference]: frozen dataclasses that extend
    [ElementReference] and have its one field, [element_name].  A dataclass
    instance equals an instance of the same class with equal fields, so two
    references are equal when they are of the same class and hold the same
    name.  The specification describes [ElementReference] as equal by name;
    that holds within one class only. *)
Inductive ElementReference :=
| MeasureReference (element_name : string)
| EntityReference (element_name : string)
| DimensionReference (element_name : string).

Definition element_name (r : ElementReference) : string :=
  match r with
  | MeasureReference n | EntityReference n | DimensionReference n => n
  end.

#[global] Instance ElementReference_eq_dec : EqDecision ElementReference.
Proof. solve_decision. Defined.
#[global] Instance ElementReference_countable : Countable ElementReference :=
  inj_countable'
    (fun r =>
       match r with
       | MeasureReference n => inl n
       | EntityReference n => inr (inl n)
       | DimensionReference n => inr (inr n)
       end)
    (fun v =>
       match v with
       | inl n => MeasureReference n
       | inr (inl n) => EntityReference n
       | inr (inr n) => DimensionReference n
       end)
    (fun r => match r with
              | MeasureReference _ | EntityReference _ | DimensionReference _ => eq_refl
              end).

Record SemanticModelReference := { semantic_model_name : string }.
Record SemanticModelElementReference :=
  { element_semantic_model_name : string; element_element_name : string }.
Record MetricModelReference := { metric_name : string }.

Inductive SemanticModelElementType := MEASURE | ENTITY | DIMENSION.

Section Protocols.
Context `{Imports}.

(** The attributes of the manifest objects that the rules read. *)
Record Measure := { measure_name : string }.
Record Entity := { entity_name : string; entity_type : EntityType }.
Record Dimension := { dimension_name : string }.

Record SemanticModel := {
  name : string;
  primary_entity : option string;
  measures : list Measure;
  entities : list Entity;
  dimensions : list Dimension;
  metadata : option Metadata;
}.

Record Metric := { metric_name_of : string; metric_metadata : option Metadata }.

Record SemanticManifest := {
  semantic_models : list SemanticModel;
  metrics : list Metric;
}.

(** The [reference] property that [protocols] gives a measure, an entity and
    a dimension: the reference of its own class to the name of the
    element. *)
Definition measure_reference (m : Measure) : ElementReference :=
  MeasureReference (measure_name m).
Definition entity_reference (e : Entity) : ElementReference :=
  EntityReference (entity_name e).
Definition dimension_reference (d : Dimension) : ElementReference :=
  DimensionReference (dimension_name d).

Inductive ValidationContext :=
| SemanticModelContext
    (file_context : FileContext) (semantic_model : SemanticModelReference)
| SemanticModelElementContext
    (file_context : FileContext)
    (semantic_model_element : SemanticModelElementReference)
    (element_type : SemanticModelElementType)
| MetricContext (file_context : FileContext) (metric : MetricModelReference).

(** Every issue the two rules build is a [ValidationError]. *)
Inductive ValidationIssue :=
| ValidationError (context : option ValidationContext) (message : string).

Definition issue_context (i : ValidationIssue) : option ValidationContext :=
  match i with ValidationError c _ => c end.
Definition issue_message (i : ValidationIssue) : string :=
  match i with ValidationError _ m => m end.

End Protocols.

(** [repr] of a list of enumeration member names, as an f-string prints it.
    Member names are identifiers, so each prints between single quotes with
    nothing escaped. *)
Fixpoint join (sep : string) (l : list string) : string :=
  match l with
  | [] => ""
  | [x] => x
  | x :: rest => x +:+ sep +:+ join sep rest
  end.
Definition repr_names (l : list string) : string :=
  "[" +:+ join ", " (map (fun x => "'" +:+ x +:+ "'") l) +:+ "]".

(** ** The reserved keywords *)
Module MetricFlowReservedKeywords.

Inductive t := METRIC_TIME | MF_INTERNAL_UUID.

Definition value (k : t) : string :=
  match k with
  | METRIC_TIME => "metric_time"
  | MF_INTERNAL_UUID => "mf_internal_uuid"
  end.

(** Iterating over the enumeration gives its members in definition order. *)
Definition members : list t := [METRIC_TIME; MF_INTERNAL_UUID].

Definition is_ (a b : t) : bool :=
  match a, b with
  | METRIC_TIME, METRIC_TIME | MF_INTERNAL_UUID, MF_INTERNAL_UUID => true
  | _, _ => false
  end.

(** [MetricFlowReservedKeywords(v)]: the member whose value is [v], a
    [ValueError] when there is none. *)
Definition of_value (v : string) : result t :=
  match find (fun k => String.eqb (value k) v) members with
  | Some k => Ok k
  | None => Raise ValueError
  end.

Definition METRIC_TIME_reason : string :=
  "Used as the query input for creating time series metrics from measures with "
  +:+ "different time dimension names.".
Definition MF_INTERNAL_UUID_reason : string :=
  "Used internally to reference a column that has a uuid generated by MetricFlow.".

(** [assert_values_exhausted] fails an assertion when it is reached. *)
Definition get_reserved_reason (keyword : t) : result string :=
  if is_ keyword METRIC_TIME then Ok METRIC_TIME_reason
  else if is_ keyword MF_INTERNAL_UUID then Ok MF_INTERNAL_UUID_reason
  else Raise AssertionError.

End MetricFlowReservedKeywords.

(** ** [UniqueAndValidNameRule] *)
Module UniqueAndValidNameRule.
Import Re.

(** [\A[a-z]((?!__)[a-z0-9_])*[a-z0-9]\Z] *)
Definition NAME_REGEX : regex :=
  Seq StartA
    (Seq (Class [Range "a" "z"])
       (Seq (Star (Seq (NegLookahead (Seq (Lit "_") (Lit "_")))
                     (Class [Range "a" "z"; Range "0" "9"; Single "_"])))
          (Seq (Class [Range "a" "z"; Range "0" "9"]) EndZ))).

Definition syntax_message (name : string) : string :=
  "Invalid name `" +:+ name
  +:+ "` - names may only contain lower case letters, numbers, "
  +:+ "and underscores. Additionally, names must start with a lower case letter, cannot end "
  +:+ "with an underscore, cannot contain dunders (double underscores, or __), and must be "
  +:+ "at least 2 characters long.".

Definition granularity_message (names : list string) (name : string) : string :=
  "Invalid name `" +:+ name
  +:+ "` - names cannot match reserved time granularity keywords "
  +:+ "(" +:+ repr_names names +:+ ")".

Definition reserved_message (name reason : string) : string :=
  "Invalid name `" +:+ name
  +:+ "` - this name is reserved by MetricFlow. Reason: " +:+ reason.

Section Rule.
Context `{Imports, PyStr}.

Definition check_valid_name (name : string) (context : option ValidationContext)
  : result (list ValidationIssue) :=
  let issues : list ValidationIssue := [] in
  let issues :=
    if negb (matches NAME_REGEX name)
    then issues ++ [ValidationError context (syntax_message name)]
    else issues in
  let issues :=
    if bool_decide (str_upper name ∈ TimeGranularity_list_names)
    then issues ++ [ValidationError context
                      (granularity_message TimeGranularity_list_names name)]
    else issues in
  if bool_decide
       (str_lower name ∈ map MetricFlowReservedKeywords.value
                           MetricFlowReservedKeywords.members)
  then
    keyword ← MetricFlowReservedKeywords.of_value (str_lower name);
    reason ← MetricFlowReservedKeywords.get_reserved_reason keyword;
    mret (issues ++ [ValidationError context (reserved_message name reason)])
  else mret issues.

(** An entry of [element_info_tuples] and of [object_info_tuples]. *)
Definition element_info : Type := ElementReference * string * ValidationContext.
Definition object_info : Type := string * string * ValidationContext.

Definition element_context (semantic_model : SemanticModel)
  (element : string) (element_type : SemanticModelElementType)
  : ValidationContext :=
  SemanticModelElementContext
    (FileContext_from_metadata (metadata semantic_model))
    {| element_semantic_model_name := name semantic_model;
       element_element_name := element |}
    element_type.

Definition element_duplicate_message
  (model_name element _type first_type : string) : string :=
  "In semantic model `" +:+ model_name +:+ "`, can't use name `" +:+ element
  +:+ "` for " +:+ "a " +:+ _type +:+ " when it was already used for a "
  +:+ first_type.

(** The three collecting loops of [_validate_semantic_model_elements]. *)
Definition collect_elements (semantic_model : SemanticModel) : list element_info :=
  let element_info_tuples : list element_info := [] in
  let element_info_tuples :=
    match measures semantic_model with
    | [] => element_info_tuples
    | _ =>
        foldl (fun tuples measure =>
                 tuples ++ [(measure_reference measure, "measure",
                             element_context semantic_model
                               (measure_name measure) MEASURE)])
          element_info_tuples (measures semantic_model)
    end in
  let element_info_tuples :=
    match entities semantic_model with
    | [] => element_info_tuples
    | _ =>
        foldl (fun tuples entity =>
                 tuples ++ [(entity_reference entity, "entity",
                             element_context semantic_model
                               (entity_name entity) ENTITY)])
          element_info_tuples (entities semantic_model)
    end in
  match dimensions semantic_model with
  | [] => element_info_tuples
  | _ =>
      foldl (fun tuples dimension =>
               tuples ++ [(dimension_reference dimension, "dimension",
                           element_context semantic_model
                             (dimension_name dimension) DIMENSION)])
        element_info_tuples (dimensions semantic_model)
  end.

Definition _validate_semantic_model_elements (semantic_model : SemanticModel)
  : result (list ValidationIssue) :=
  let issues : list ValidationIssue := [] in
  let element_info_tuples := collect_elements semantic_model in
  let name_to_type : gmap ElementReference string := ∅ in
  '(issues, name_to_type) ←
    for_ element_info_tuples
      (fun '(issues, name_to_type) '(name_, _type, context) =>
         match (name_to_type : gmap ElementReference string) !! name_ with
         | Some first_type =>
             mret (issues ++
                     [ValidationError (Some context)
                        (element_duplicate_message (name semantic_model)
                           (element_name name_) _type first_type)],
                   name_to_type)
         | None => mret (issues, <[name_ := _type]> name_to_type)
         end)
      (issues, name_to_type);
  for_ element_info_tuples
    (fun issues '(name_, _, context) =>
       found ← check_valid_name (element_name name_) (Some context);
       mret (issues ++ found))
    issues.

Definition object_duplicate_message (name_ type_ first_type : string) : string :=
  "Can't use name `" +:+ name_ +:+ "` for a " +:+ type_
  +:+ " when it was already used for a " +:+ first_type.

Definition metric_duplicate_message (name_ : string) : string :=
  "Can't use name `" +:+ name_ +:+ "` for a metric when it was already used for "
  +:+ "a metric".

Definition _validate_top_level_objects (semantic_manifest : SemanticManifest)
  : result (list ValidationIssue) :=
  let object_info_tuples : list object_info := [] in
  let issues : list ValidationIssue := [] in
  '(object_info_tuples, issues) ←
    match semantic_models semantic_manifest with
    | [] => mret (object_info_tuples, issues)
    | _ =>
        for_ (semantic_models semantic_manifest)
          (fun '(object_info_tuples, issues) semantic_model =>
             let context :=
               SemanticModelContext
                 (FileContext_from_metadata (metadata semantic_model))
                 {| semantic_model_name := name semantic_model |} in
             let object_info_tuples :=
               object_info_tuples
                 ++ [(name semantic_model, "semantic model", context)] in
             found ← check_valid_name (name semantic_model) (Some context);
             mret (object_info_tuples, issues ++ found))
          (object_info_tuples, issues)
    end;
  let name_to_type : gmap string string := ∅ in
  '(issues, name_to_type) ←
    for_ object_info_tuples
      (fun '(issues, name_to_type) '(name_, type_, context) =>
         match (name_to_type : gmap string string) !! name_ with
         | Some first_type =>
             mret (issues ++
                     [ValidationError (Some context)
                        (object_duplicate_message name_ type_ first_type)],
                   name_to_type)
         | None => mret (issues, <[name_ := type_]> name_to_type)
         end)
      (issues, name_to_type);
  match metrics semantic_manifest with
  | [] => mret issues
  | _ =>
      let metric_names : gset string := ∅ in
      '(issues, metric_names) ←
        for_ (metrics semantic_manifest)
          (fun '(issues, metric_names) metric =>
             let metric_context :=
               MetricContext
                 (FileContext_from_metadata (metric_metadata metric))
                 {| metric_name := metric_name_of metric |} in
             found ← check_valid_name (metric_name_of metric) (Some metric_context);
             let issues := issues ++ found in
             if bool_decide (metric_name_of metric ∈ (metric_names : gset string))
             then
               mret (issues ++
                       [ValidationError (Some metric_context)
                          (metric_duplicate_message (metric_name_of metric))],
                     metric_names)
             else mret (issues, {[metric_name_of metric]} ∪ metric_names))
          (issues, metric_names);
      mret issues
  end.

Definition validate_manifest (semantic_manifest : SemanticManifest)
  : result (list ValidationIssue) :=
  let issues : list ValidationIssue := [] in
  found ← _validate_top_level_objects semantic_manifest;
  let issues := issues ++ found in
  for_ (semantic_models semantic_manifest)
    (fun issues semantic_model =>
       found ← _validate_semantic_model_elements semantic_model;
       mret (issues ++ found))
    issues.

End Rule.
End UniqueAndValidNameRule.

(** ** [PrimaryEntityDimensionPairs] *)
Module PrimaryEntityDimensionPairs.

(** [d[k]], a [KeyError] when [k] is not a key of [d]. *)
Definition getitem {K V : Type} `{Countable K} (d : gmap K V) (k : K) : result V :=
  match d !! k with
  | Some v => Ok v
  | None => Raise KeyError
  end.

Definition pairing_message (model_name primary_entity dimension owner : string)
  : string :=
  "Duplicate dimension + primary entity pairing detected, dimension + primary entity "
  +:+ "pairings must be unique. Semantic model `" +:+ model_name
  +:+ "` has a primary entity of "
  +:+ "`" +:+ primary_entity +:+ "` and dimension `" +:+ dimension
  +:+ "`, but this pairing is already in use on "
  +:+ "semantic model `" +:+ owner +:+ "`.".

Section Rule.
Context `{Imports}.

(** Lines 243-248 of [_check_semantic_model]: the declared primary entity,
    else the scan of the entities that stops at the first [PRIMARY] one. *)
Definition resolve_primary_entity (semantic_model : SemanticModel)
  : option string :=
  let primary_entity := primary_entity semantic_model in
  match primary_entity with
  | None =>
      for_break (entities semantic_model)
        (fun primary_entity entity =>
           if EntityType_is (entity_type entity) PRIMARY
           then Break (Some (entity_name entity))
           else Continue primary_entity)
        primary_entity
  | Some _ => primary_entity
  end.

Definition pairing_error (semantic_model : SemanticModel)
  (primary_entity : string) (dimension : Dimension) (owner : string)
  : ValidationIssue :=
  ValidationError
    (Some (SemanticModelElementContext
             (FileContext_from_metadata (metadata semantic_model))
             {| element_semantic_model_name := name semantic_model;
                element_element_name := dimension_name dimension |}
             DIMENSION))
    (pairing_message (name semantic_model) primary_entity
       (dimension_name dimension) owner).

(** Lines 261-279: the loop over the dimensions.  [safe] short-circuits
    the lookup of the dimension under the primary entity. *)
Definition check_dimensions (safe : bool) (semantic_model : SemanticModel)
  (primary_entity : string)
  (issues : list ValidationIssue)
  (known_pairings : gmap string (gmap string string))
  : result (list ValidationIssue * gmap string (gmap string string)) :=
  for_ (dimensions semantic_model)
    (fun '(issues, known_pairings) dimension =>
       unregistered ←
         (if safe then mret true
          else
            pairings ← getitem known_pairings primary_entity;
            mret (match (pairings : gmap string string) !! dimension_name dimension with
                  | None => true
                  | Some _ => false
                  end));
       if (unregistered : bool) then
         pairings ← getitem known_pairings primary_entity;
         mret (issues,
               <[primary_entity :=
                   <[dimension_name dimension := name semantic_model]> pairings]>
                 known_pairings)
       else
         pairings ← getitem known_pairings primary_entity;
         owner ← getitem pairings (dimension_name dimension);
         mret (issues ++ [pairing_error semantic_model primary_entity dimension owner],
               known_pairings))
    (issues, known_pairings).

Definition _check_semantic_model (semantic_model : SemanticModel)
  (known_pairings : gmap string (gmap string string))
  : result (list ValidationIssue * gmap string (gmap string string)) :=
  let issues : list ValidationIssue := [] in
  match resolve_primary_entity semantic_model with
  | None => mret (issues, known_pairings)
  | Some primary_entity =>
      let safe := false in
      let '(known_pairings, safe) :=
        match known_pairings !! primary_entity with
        | None => (<[primary_entity := ∅]> known_pairings, true)
        | Some _ => (known_pairings, safe)
        end in
      check_dimensions safe semantic_model primary_entity issues known_pairings
  end.

(** The loop of [validate_manifest] over the semantic models, for a given
    per-model check. *)
Definition check_models
  (check : SemanticModel -> gmap string (gmap string string) ->
           result (list ValidationIssue * gmap string (gmap string string)))
  (models : list SemanticModel)
  (issues : list ValidationIssue)
  (known_pairings : gmap string (gmap string string))
  : result (list ValidationIssue * gmap string (gmap string string)) :=
  for_ models
    (fun '(issues, known_pairings) semantic_model =>
       '(found, known_pairings) ← check semantic_model known_pairings;
       mret (issues ++ found, known_pairings))
    (issues, known_pairings).

Definition validate_manifest (semantic_manifest : SemanticManifest)
  : result (list ValidationIssue) :=
  let issues : list ValidationIssue := [] in
  let known_pairings : gmap string (gmap string string) := ∅ in
  '(issues, _) ←
    check_models _check_semantic_model (semantic_models semantic_manifest)
      issues known_pairings;
  mret issues.

(** *** The rule without the short-circuit

    The rewrite the specification considers: the map of the primary
    entity is still created when it is missing, but every dimension is
    looked up in it, whether the map is new or not. *)
Definition _check_semantic_model_unconditional_lookup
  (semantic_model : SemanticModel)
  (known_pairings : gmap string (gmap string string))
  : result (list ValidationIssue * gmap string (gmap string string)) :=
  let issues : list ValidationIssue := [] in
  match resolve_primary_entity semantic_model with
  | None => mret (issues, known_pairings)
  | Some primary_entity =>
      let known_pairings :=
        match known_pairings !! primary_entity with
        | None => <[primary_entity := ∅]> known_pairings
        | Some _ => known_pairings
        end in
      check_dimensions false semantic_model primary_entity issues known_pairings
  end.

Definition validate_manifest_unconditional_lookup
  (semantic_manifest : SemanticManifest) : result (list ValidationIssue) :=
  let issues : list ValidationIssue := [] in
  let known_pairings : gmap string (gmap string string) := ∅ in
  '(issues, _) ←
    check_models _check_semantic_model_unconditional_lookup
      (semantic_models semantic_manifest) issues known_pairings;
  mret issues.

End Rule.
End PrimaryEntityDimensionPairs.

(** * Specification vocabulary *)

(** ** The shape of a valid name

    Starts with a lower-case letter, ends with a lower-case letter or a
    digit, holds lower-case letters, digits and underscores only, and has no
    two underscores in a row; so it has two characters at least. *)
Definition is_lower (c : ascii) : bool := in_range "a" "z" c.
Definition is_digit (c : ascii) : bool := in_range "0" "9" c.
Definition is_name_char (c : ascii) : bool :=
  is_lower c || is_digit c || Ascii.eqb "_" c.
Definition is_name_end (c : ascii) : bool := is_lower c || is_digit c.

Definition starts_dunder (l : list ascii) : bool :=
  match l with
  | c1 :: c2 :: _ => Ascii.eqb "_" c1 && Ascii.eqb "_" c2
  | _ => false
  end.

Fixpoint no_dunder (l : list ascii) : bool :=
  match l with
  | [] => true
  | _ :: rest => negb (starts_dunder l) && no_dunder rest
  end.

Definition valid_name_shape (l : list ascii) : bool :=
  match l with
  | [] => false
  | c :: rest =>
      is_lower c
      && forallb is_name_char rest
      && match last rest with Some z => is_name_end z | None => false end
      && no_dunder l
  end.

(** The characters after the first, read from left to right. *)
Fixpoint body_then_end (l : list ascii) : bool :=
  match l with
  | [] => false
  | c :: rest =>
      (is_name_end c && match rest with [] => true | _ => false end)
      || (is_name_char c && negb (starts_dunder l) && body_then_end rest)
  end.


Definition nonempty {A : Type} (l : list A) : bool :=
  match l with [] => false | _ => true end.

(** The two parts of [NAME_REGEX] after its first class. *)
Definition body_step : Re.regex :=
  Re.Seq (Re.NegLookahead (Re.Seq (Re.Lit "_") (Re.Lit "_")))
    (Re.Class [Re.Range "a" "z"; Re.Range "0" "9"; Re.Single "_"]).
Definition end_step : Re.regex := Re.Seq (Re.Class [Re.Range "a" "z"; Re.Range "0" "9"]) Re.EndZ.


(** The pattern as the specification writes it:
    [^[a-z]((?!__)[a-z0-9_])*[a-z0-9]$]. *)
Definition NAME_REGEX_as_specified : Re.regex :=
  Re.Seq Re.Caret
    (Re.Seq (Re.Class [Re.Range "a" "z"])
       (Re.Seq (Re.Star body_step)
          (Re.Seq (Re.Class [Re.Range "a" "z"; Re.Range "0" "9"]) Re.Dollar))).

(** A name of the valid shape followed by a newline. *)
Definition ab_newline : string := String "a" (String "b" (String "010" EmptyString)).

(** The characters after the first, for the pattern as the specification
    writes it: a newline may follow the last one. *)
Fixpoint body_then_end_or_newline (l : list ascii) : bool :=
  match l with
  | [] => false
  | c :: rest =>
      (is_name_end c
       && match rest with
          | [] => true
          | [x] => Ascii.eqb x "010"
          | _ => false
          end)
      || (is_name_char c && negb (starts_dunder l) && body_then_end_or_newline rest)
  end.

(** ** The issues of [check_valid_name], as a total function *)
Definition reserved_reason (k : MetricFlowReservedKeywords.t) : string :=
  match k with
  | MetricFlowReservedKeywords.METRIC_TIME =>
      MetricFlowReservedKeywords.METRIC_TIME_reason
  | MetricFlowReservedKeywords.MF_INTERNAL_UUID =>
      MetricFlowReservedKeywords.MF_INTERNAL_UUID_reason
  end.

Definition reserved_keyword_named (v : string) : option MetricFlowReservedKeywords.t :=
  find (fun k => String.eqb (MetricFlowReservedKeywords.value k) v)
    MetricFlowReservedKeywords.members.

Definition valid_name_issues `{Imports, PyStr}
  (name : string) (context : option ValidationContext) : list ValidationIssue :=
  (if Re.matches UniqueAndValidNameRule.NAME_REGEX name then []
   else [ValidationError context (UniqueAndValidNameRule.syntax_message name)])
  ++ (if bool_decide (str_upper name ∈ TimeGranularity_list_names)
      then [ValidationError context
              (UniqueAndValidNameRule.granularity_message TimeGranularity_list_names name)]
      else [])
  ++ match reserved_keyword_named (str_lower name) with
     | Some k => [ValidationError context (UniqueAndValidNameRule.reserved_message name (reserved_reason k))]
     | None => []
     end.

(** An issue that reports [name] as reserved by MetricFlow, whatever the
    reason given. *)
Definition is_reserved_issue `{Imports} (name : string) (i : ValidationIssue) : bool :=
  String.prefix
    ("Invalid name `" +:+ name +:+ "` - this name is reserved by MetricFlow. Reason: ")
    (issue_message i).

Definition contains (s sub : string) : Prop :=
  exists before after, s = before +:+ sub +:+ after.

(** ** An environment to run the rules in

    The metadata of an object is the name of its file, the file context is
    that name, and the time granularities are the five calendar ones. *)
Definition calendar_Imports : Imports :=
  {| Metadata := string;
     FileContext := option string;
     FileContext_from_metadata := fun metadata => metadata;
     TimeGranularity_list_names := ["DAY"; "WEEK"; "MONTH"; "QUARTER"; "YEAR"] |}.

(** ** Duplicate names within a semantic model *)

(** The elements of a semantic model in the order they are collected:
    the measures, then the entities, then the dimensions. *)
Definition model_elements `{Imports} (semantic_model : SemanticModel)
  : list UniqueAndValidNameRule.element_info :=
  map (fun measure =>
         (measure_reference measure, "measure",
          UniqueAndValidNameRule.element_context semantic_model
            (measure_name measure) MEASURE))
    (measures semantic_model)
  ++ map (fun entity =>
            (entity_reference entity, "entity",
             UniqueAndValidNameRule.element_context semantic_model
               (entity_name entity) ENTITY))
       (entities semantic_model)
  ++ map (fun dimension =>
            (dimension_reference dimension, "dimension",
             UniqueAndValidNameRule.element_context semantic_model
               (dimension_name dimension) DIMENSION))
       (dimensions semantic_model).

(** The kind of the first element of [seen] that has the reference [r]. *)
Definition first_kind `{Imports} (seen : list UniqueAndValidNameRule.element_info)
  (r : ElementReference) : option string :=
  match find (fun e => bool_decide (e.1.1 = r)) seen with
  | Some e => Some e.1.2
  | None => None
  end.

(** One error for each element of [rest] whose reference an earlier element
    has, in [seen] or in [rest]; the error cites the kind of the first
    element with that reference. *)
Fixpoint duplicate_errors `{Imports} (model_name : string)
  (seen rest : list UniqueAndValidNameRule.element_info) : list ValidationIssue :=
  match rest with
  | [] => []
  | e :: rest' =>
      match first_kind seen e.1.1 with
      | Some first =>
          [ValidationError (Some e.2)
             (UniqueAndValidNameRule.element_duplicate_message model_name
                (element_name e.1.1) e.1.2 first)]
      | None => []
      end
      ++ duplicate_errors model_name (seen ++ [e]) rest'
  end.

(** What [name_to_type] holds once the elements [seen] have gone through the
    duplicate loop. *)
Definition records_first_kinds `{Imports}
  (name_to_type : gmap ElementReference string)
  (seen : list UniqueAndValidNameRule.element_info) : Prop :=
  forall r, name_to_type !! r = first_kind seen r.

Definition is_element_duplicate_issue `{Imports} (i : ValidationIssue) : bool :=
  String.prefix "In semantic model `" (issue_message i).

(** A semantic model with a measure and a dimension of the same name. *)
Definition measure_and_dimension_x : @SemanticModel calendar_Imports :=
  @Build_SemanticModel calendar_Imports "bookings" None
    [{| measure_name := "x" |}] [] [{| dimension_name := "x" |}]
    (Some "bookings.yaml").

(** Two semantic models of the same name and nothing else. *)
Definition two_orders : @SemanticManifest calendar_Imports :=
  @Build_SemanticManifest calendar_Imports
    [@Build_SemanticModel calendar_Imports "orders" None [] [] []
       (Some "orders.yaml");
     @Build_SemanticModel calendar_Imports "orders" None [] [] []
       (Some "orders_again.yaml")]
    [].

(** ** The pairing registry *)

Definition dimension_names `{Imports} (semantic_model : SemanticModel) : list string :=
  map dimension_name (dimensions semantic_model).

(** The loop over the dimensions, seen from the map of the primary entity:
    the issues it adds and the map it leaves. *)
Fixpoint pair_dimensions `{Imports} (safe : bool) (semantic_model : SemanticModel)
  (primary_entity : string) (dims : list Dimension) (pairings : gmap string string)
  : list ValidationIssue * gmap string string :=
  match dims with
  | [] => ([], pairings)
  | dimension :: rest =>
      match (if safe then None else pairings !! dimension_name dimension) with
      | None =>
          pair_dimensions safe semantic_model primary_entity rest
            (<[dimension_name dimension := name semantic_model]> pairings)
      | Some owner =>
          (PrimaryEntityDimensionPairs.pairing_error semantic_model primary_entity
             dimension owner
           :: (pair_dimensions safe semantic_model primary_entity rest pairings).1,
           (pair_dimensions safe semantic_model primary_entity rest pairings).2)
      end
  end.

(** The primary entity as the specification words it: the declared one, else
    the name of the first entity of type [PRIMARY]. *)
Definition declared_or_first_primary `{Imports} (semantic_model : SemanticModel)
  : option string :=
  match primary_entity semantic_model with
  | Some declared => Some declared
  | None =>
      entity_name
        <$> find (fun entity => EntityType_is (entity_type entity) PRIMARY)
              (entities semantic_model)
  end.

(** [known_pairings] once the rule has gone through the models [before]:
    its keys are the primary entities these models resolve to, and under
    each it holds the dimension names they declare. *)
Definition registry_of `{Imports} (known_pairings : gmap string (gmap string string))
  (before : list SemanticModel) : Prop :=
  (forall pe,
     known_pairings !! pe = None <->
     Forall (fun sm => PrimaryEntityDimensionPairs.resolve_primary_entity sm <> Some pe)
       before)
  /\ (forall pe pairings d,
        known_pairings !! pe = Some pairings ->
        is_Some (pairings !! d) <->
        Exists (fun sm =>
                  PrimaryEntityDimensionPairs.resolve_primary_entity sm = Some pe
                  /\ d ∈ dimension_names sm)
          before).

(** The model is the first, after the models [before], to resolve to its
    primary entity. *)
Definition claims_first `{Imports} (before : list SemanticModel)
  (semantic_model : SemanticModel) : Prop :=
  exists pe,
    PrimaryEntityDimensionPairs.resolve_primary_entity semantic_model = Some pe
    /\ Forall (fun sm => PrimaryEntityDimensionPairs.resolve_primary_entity sm <> Some pe)
         before.

(** Every model that is the first to resolve to its primary entity declares
    dimensions of pairwise different names. *)
Definition first_claims_distinct `{Imports} (models : list SemanticModel) : Prop :=
  forall before semantic_model after,
    models = before ++ semantic_model :: after ->
    claims_first before semantic_model ->
    NoDup (dimension_names semantic_model).

(** The dimension name [d] is declared by [semantic_model] and by one of the
    models [before], which resolves to the same primary entity. *)
Definition pairing_taken `{Imports} (before : list SemanticModel)
  (semantic_model : SemanticModel) : Prop :=
  exists pe d,
    PrimaryEntityDimensionPairs.resolve_primary_entity semantic_model = Some pe
    /\ d ∈ dimension_names semantic_model
    /\ Exists (fun sm =>
                 PrimaryEntityDimensionPairs.resolve_primary_entity sm = Some pe
                 /\ d ∈ dimension_names sm)
         before.

(** Two semantic models, at different places of the manifest, use the same
    pair of a primary entity and a dimension name. *)
Definition shared_pairing `{Imports} (models : list SemanticModel) : Prop :=
  exists (i j : nat) sm sm' pe d,
    i < j /\ models !! i = Some sm /\ models !! j = Some sm'
    /\ PrimaryEntityDimensionPairs.resolve_primary_entity sm = Some pe
    /\ PrimaryEntityDimensionPairs.resolve_primary_entity sm' = Some pe
    /\ d ∈ dimension_names sm /\ d ∈ dimension_names sm'.

(** The model is not the first, after the models [before], to resolve to
    its primary entity, and it declares two dimensions of the same name. *)
Definition repeats_after_claim `{Imports} (before : list SemanticModel)
  (semantic_model : SemanticModel) : Prop :=
  exists pe,
    PrimaryEntityDimensionPairs.resolve_primary_entity semantic_model = Some pe
    /\ Exists (fun sm => PrimaryEntityDimensionPairs.resolve_primary_entity sm = Some pe)
         before
    /\ ~ NoDup (dimension_names semantic_model).

(** Some model of the manifest is in that case. *)
Definition later_model_repeats_dimension `{Imports} (models : list SemanticModel)
  : Prop :=
  exists before semantic_model after,
    models = before ++ semantic_model :: after
    /\ repeats_after_claim before semantic_model.

(** ** Manifests to run the pairing rule on *)

Definition model_of (name_ primary_entity_ : string) (dimension_names_ : list string)
  : @SemanticModel calendar_Imports :=
  @Build_SemanticModel calendar_Imports name_ (Some primary_entity_) [] []
    (map Build_Dimension dimension_names_) (Some (name_ +:+ ".yaml")).

(** One model that declares the same dimension twice. *)
Definition repeated_dimension : @SemanticManifest calendar_Imports :=
  @Build_SemanticManifest calendar_Imports
    [model_of "listings" "host" ["created_at"; "created_at"]] [].

(** A model that repeats a dimension after another model has claimed its
    primary entity. *)
Definition repeated_dimension_after_claim : @SemanticManifest calendar_Imports :=
  @Build_SemanticManifest calendar_Imports
    [model_of "hosts" "host" ["country"];
     model_of "listings" "host" ["created_at"; "created_at"]] [].

(** Two models that share a primary entity and a dimension name, and two
    that share the dimension name only. *)
Definition same_host : @SemanticManifest calendar_Imports :=
  @Build_SemanticManifest calendar_Imports
    [model_of "a" "host" ["created_at"]; model_of "b" "host" ["created_at"]] [].
Definition host_and_guest : @SemanticManifest calendar_Imports :=
  @Build_SemanticManifest calendar_Imports
    [model_of "a" "host" ["created_at"]; model_of "b" "guest" ["created_at"]] [].

(** ** A name that passes the three checks of [check_valid_name] *)
Definition passes_checks `{Imports, PyStr} (name_ : string) : Prop :=
  Re.matches UniqueAndValidNameRule.NAME_REGEX name_ = true
  /\ (str_upper name_ ∉ TimeGranularity_list_names)
  /\ (str_lower name_ ∉ map MetricFlowReservedKeywords.value
                           MetricFlowReservedKeywords.members).

(** A name that differs from the keyword [metric_time] by the case of two
    letters. *)
Definition Metric_Time : string := "Metric_Time".

(** ** The names a manifest declares *)

(** The names of the elements of a semantic model, in the order they are
    collected. *)
Definition element_names `{Imports} (semantic_model : SemanticModel) : list string :=
  map measure_name (measures semantic_model)
  ++ map entity_name (entities semantic_model)
  ++ map dimension_name (dimensions semantic_model).

(** The measures of a semantic model have names that differ from one
    another, its entities too, and its dimensions too. *)
Definition names_differ_by_kind `{Imports} (semantic_model : SemanticModel) : Prop :=
  NoDup (map measure_name (measures semantic_model))
  /\ NoDup (map entity_name (entities semantic_model))
  /\ NoDup (map dimension_name (dimensions semantic_model)).

Definition model_context `{Imports} (semantic_model : SemanticModel)
  : ValidationContext :=
  SemanticModelContext (FileContext_from_metadata (metadata semantic_model))
    {| semantic_model_name := name semantic_model |}.

Definition metric_context `{Imports} (metric : Metric) : ValidationContext :=
  MetricContext (FileContext_from_metadata (metric_metadata metric))
    {| metric_name := metric_name_of metric |}.

(** One error for each semantic model whose name an earlier one has, among
    [seen] or among [models]. *)
Fixpoint model_duplicate_errors `{Imports} (seen : list string)
  (models : list SemanticModel) : list ValidationIssue :=
  match models with
  | [] => []
  | semantic_model :: rest =>
      (if bool_decide (name semantic_model ∈ seen)
       then [ValidationError (Some (model_context semantic_model))
               (UniqueAndValidNameRule.object_duplicate_message
                  (name semantic_model) "semantic model" "semantic model")]
       else [])
      ++ model_duplicate_errors (seen ++ [name semantic_model]) rest
  end.

(** For each metric the issues of its name, then an error when an earlier
    metric has that name. *)
Fixpoint metric_issues `{Imports, PyStr} (seen : list string) (metrics_ : list Metric)
  : list ValidationIssue :=
  match metrics_ with
  | [] => []
  | metric :: rest =>
      valid_name_issues (metric_name_of metric) (Some (metric_context metric))
      ++ (if bool_decide (metric_name_of metric ∈ seen)
          then [ValidationError (Some (metric_context metric))
                  (UniqueAndValidNameRule.metric_duplicate_message
                     (metric_name_of metric))]
          else [])
      ++ metric_issues (seen ++ [metric_name_of metric]) rest
  end.

(** ** The first model to use a pairing *)

(** [first], at place [i] of [models], is the first of them to resolve to
    the primary entity [pe] and to declare a dimension named [d]. *)
Definition first_to_pair `{Imports} (models : list SemanticModel) (pe d : string)
  (i : nat) (first : SemanticModel) : Prop :=
  models !! i = Some first
  /\ PrimaryEntityDimensionPairs.resolve_primary_entity first = Some pe
  /\ d ∈ dimension_names first
  /\ forall i' sm',
       i' < i -> models !! i' = Some sm' ->
       ~ (PrimaryEntityDimensionPairs.resolve_primary_entity sm' = Some pe
          /\ d ∈ dimension_names sm').

(** Every pairing that [known_pairings] holds is owned by the first of the
    models [before] to use it. *)
Definition registry_owners `{Imports} (known_pairings : gmap string (gmap string string))
  (before : list SemanticModel) : Prop :=
  forall pe pairings d owner,
    known_pairings !! pe = Some pairings -> pairings !! d = Some owner ->
    exists i first, first_to_pair before pe d i first /\ owner = name first.

(** A model declares [d] and no model of [before] with the primary entity
    [pe] does. *)
Definition unpaired_before `{Imports} (before : list SemanticModel) (pe : string)
  (semantic_model : SemanticModel) : Prop :=
  forall sm' d,
    sm' ∈ before ->
    PrimaryEntityDimensionPairs.resolve_primary_entity sm' = Some pe ->
    d ∈ dimension_names semantic_model -> d ∉ dimension_names sm'.

(** Two models with well-formed names that share a primary entity and a
    dimension name. *)
Definition hosts_and_listings : @SemanticManifest calendar_Imports :=
  @Build_SemanticManifest calendar_Imports
    [model_of "hosts" "host" ["created_at"];
     model_of "listings" "host" ["created_at"; "country"]] [].

(** * The rules on a store of objects

    The same two rules with the objects where Python has them: the manifest
    the caller passes in is a cell of the store, and every list, dictionary
    and set that the rules build and change in place is one too.  A read of
    an attribute of the manifest or of one of its semantic models is a load
    of the manifest cell; the semantic model is named by its place in the
    manifest.  Names, flags and contexts are immutable values and stay
    outside the store. *)
Module Store.
Section Store.
Context `{Imports, PyStr}.

Definition loc : Type := positive.

Inductive object :=
| Manifest (m : SemanticManifest)
| Issues (l : list ValidationIssue)
| Elements (l : list UniqueAndValidNameRule.element_info)
| Objects (l : list UniqueAndValidNameRule.object_info)
| TypesByReference (d : gmap ElementReference string)
| Strings (d : gmap string string)
| Names (s : gset string)
| Registry (d : gmap string loc).

Definition M (A : Type) : Type := gmap loc object -> result (A * gmap loc object).

#[global] Instance M_ret : MRet M := fun A a h => Ok (a, h).
#[global] Instance M_bind : MBind M := fun A B f m h =>
  match m h with
  | Ok (a, h') => f a h'
  | Raise e => Raise e
  end.

(** A new object, at a place the store does not use yet. *)
Definition alloc (o : object) : M loc :=
  fun h => let l := fresh (dom h) in Ok (l, <[l := o]> h).
Definition load (l : loc) : M object :=
  fun h => match h !! l with Some o => Ok (o, h) | None => Raise NameError end.
Definition store (l : loc) (o : object) : M unit :=
  fun h => Ok (tt, <[l := o]> h).
Definition raise {A : Type} (e : exn) : M A := fun _ => Raise e.
Definition lift {A : Type} (r : result A) : M A :=
  fun h => match r with Ok a => Ok (a, h) | Raise e => Raise e end.

Fixpoint each {A : Type} (xs : list A) (body : A -> M unit) : M unit :=
  match xs with
  | [] => mret tt
  | x :: xs' => _ ← body x; each xs' body
  end.

(** *** The objects by kind *)
Definition manifest_of (l : loc) : M SemanticManifest :=
  o ← load l; match o with Manifest m => mret m | _ => raise TypeError end.
Definition issues_of (l : loc) : M (list ValidationIssue) :=
  o ← load l; match o with Issues i => mret i | _ => raise TypeError end.
Definition elements_of (l : loc) : M (list UniqueAndValidNameRule.element_info) :=
  o ← load l; match o with Elements e => mret e | _ => raise TypeError end.
Definition objects_of (l : loc) : M (list UniqueAndValidNameRule.object_info) :=
  o ← load l; match o with Objects e => mret e | _ => raise TypeError end.
Definition types_by_reference_of (l : loc) : M (gmap ElementReference string) :=
  o ← load l; match o with TypesByReference d => mret d | _ => raise TypeError end.
Definition strings_of (l : loc) : M (gmap string string) :=
  o ← load l; match o with Strings d => mret d | _ => raise TypeError end.
Definition names_of (l : loc) : M (gset string) :=
  o ← load l; match o with Names s => mret s | _ => raise TypeError end.
Definition registry_of_object (l : loc) : M (gmap string loc) :=
  o ← load l; match o with Registry d => mret d | _ => raise TypeError end.

(** [semantic_manifest.attribute] and [semantic_model.attribute], the model
    being the one at place [i] of the manifest. *)
Definition read {A : Type} (manifest : loc) (attribute : SemanticManifest -> A) : M A :=
  m ← manifest_of manifest; mret (attribute m).
Definition read_model {A : Type} (manifest : loc) (i : nat)
  (attribute : SemanticModel -> A) : M A :=
  m ← manifest_of manifest;
  match semantic_models m !! i with
  | Some semantic_model => mret (attribute semantic_model)
  | None => raise NameError
  end.

(** [issues.append(issue)] and [issues += found]. *)
Definition append_issue (issues : loc) (issue : ValidationIssue) : M unit :=
  l ← issues_of issues; store issues (Issues (l ++ [issue])).
Definition extend_issues (issues found : loc) : M unit :=
  l ← issues_of issues; l' ← issues_of found; store issues (Issues (l ++ l')).
Definition append_element (tuples : loc) (e : UniqueAndValidNameRule.element_info)
  : M unit :=
  l ← elements_of tuples; store tuples (Elements (l ++ [e])).
Definition append_object (tuples : loc) (e : UniqueAndValidNameRule.object_info)
  : M unit :=
  l ← objects_of tuples; store tuples (Objects (l ++ [e])).

End Store.
End Store.

Module UniqueAndValidNameRule_store.
Import Store UniqueAndValidNameRule.
Section Rule.
Context `{Imports, PyStr}.

Definition check_valid_name (name_ : string) (context : option ValidationContext)
  : M loc :=
  issues ← alloc (Issues []);
  _ ← (if negb (Re.matches NAME_REGEX name_)
       then append_issue issues (ValidationError context (syntax_message name_))
       else mret tt);
  _ ← (if bool_decide (str_upper name_ ∈ TimeGranularity_list_names)
       then append_issue issues
              (ValidationError context
                 (granularity_message TimeGranularity_list_names name_))
       else mret tt);
  _ ← (if bool_decide
            (str_lower name_ ∈ map MetricFlowReservedKeywords.value
                                 MetricFlowReservedKeywords.members)
       then
         keyword ← lift (MetricFlowReservedKeywords.of_value (str_lower name_));
         reason ← lift (MetricFlowReservedKeywords.get_reserved_reason keyword);
         append_issue issues (ValidationError context (reserved_message name_ reason))
       else mret tt);
  mret issues.

(** The context of an element of the model at place [i], its file context
    and model name read when the context is built. *)
Definition element_context_at (manifest : loc) (i : nat) (element : string)
  (element_type : SemanticModelElementType) : M ValidationContext :=
  metadata_ ← read_model manifest i metadata;
  model_name ← read_model manifest i name;
  mret (SemanticModelElementContext (FileContext_from_metadata metadata_)
          {| element_semantic_model_name := model_name;
             element_element_name := element |}
          element_type).

Definition _validate_semantic_model_elements (manifest : loc) (i : nat) : M loc :=
  issues ← alloc (Issues []);
  element_info_tuples ← alloc (Elements []);
  model_measures ← read_model manifest i measures;
  _ ← match model_measures with
      | [] => mret tt
      | _ =>
          model_measures ← read_model manifest i measures;
          each model_measures
            (fun measure =>
               context ← element_context_at manifest i (measure_name measure) MEASURE;
               append_element element_info_tuples
                 (measure_reference measure, "measure", context))
      end;
  model_entities ← read_model manifest i entities;
  _ ← match model_entities with
      | [] => mret tt
      | _ =>
          model_entities ← read_model manifest i entities;
          each model_entities
            (fun entity =>
               context ← element_context_at manifest i (entity_name entity) ENTITY;
               append_element element_info_tuples
                 (entity_reference entity, "entity", context))
      end;
  model_dimensions ← read_model manifest i dimensions;
  _ ← match model_dimensions with
      | [] => mret tt
      | _ =>
          model_dimensions ← read_model manifest i dimensions;
          each model_dimensions
            (fun dimension =>
               context ← element_context_at manifest i (dimension_name dimension)
                           DIMENSION;
               append_element element_info_tuples
                 (dimension_reference dimension, "dimension", context))
      end;
  name_to_type ← alloc (TypesByReference ∅);
  tuples ← elements_of element_info_tuples;
  _ ← each tuples
        (fun '(name_, _type, context) =>
           types ← types_by_reference_of name_to_type;
           match types !! name_ with
           | Some first_type =>
               model_name ← read_model manifest i name;
               append_issue issues
                 (ValidationError (Some context)
                    (element_duplicate_message model_name (element_name name_)
                       _type first_type))
           | None => store name_to_type (TypesByReference (<[name_ := _type]> types))
           end);
  tuples ← elements_of element_info_tuples;
  _ ← each tuples
        (fun '(name_, _, context) =>
           found ← check_valid_name (element_name name_) (Some context);
           extend_issues issues found);
  mret issues.

Definition _validate_top_level_objects (manifest : loc) : M loc :=
  object_info_tuples ← alloc (Objects []);
  issues ← alloc (Issues []);
  models ← read manifest semantic_models;
  _ ← match models with
      | [] => mret tt
      | _ =>
          models ← read manifest semantic_models;
          each (seq 0 (length models))
            (fun i =>
               metadata_ ← read_model manifest i metadata;
               model_name ← read_model manifest i name;
               let context :=
                 SemanticModelContext (FileContext_from_metadata metadata_)
                   {| semantic_model_name := model_name |} in
               model_name ← read_model manifest i name;
               _ ← append_object object_info_tuples
                     (model_name, "semantic model", context);
               model_name ← read_model manifest i name;
               found ← check_valid_name model_name (Some context);
               extend_issues issues found)
      end;
  name_to_type ← alloc (Strings ∅);
  tuples ← objects_of object_info_tuples;
  _ ← each tuples
        (fun '(name_, type_, context) =>
           types ← strings_of name_to_type;
           match types !! name_ with
           | Some first_type =>
               append_issue issues
                 (ValidationError (Some context)
                    (object_duplicate_message name_ type_ first_type))
           | None => store name_to_type (Strings (<[name_ := type_]> types))
           end);
  manifest_metrics ← read manifest metrics;
  _ ← match manifest_metrics with
      | [] => mret tt
      | _ =>
          metric_names ← alloc (Names ∅);
          manifest_metrics ← read manifest metrics;
          each manifest_metrics
            (fun metric =>
               let metric_context :=
                 MetricContext (FileContext_from_metadata (metric_metadata metric))
                   {| metric_name := metric_name_of metric |} in
               found ← check_valid_name (metric_name_of metric) (Some metric_context);
               _ ← extend_issues issues found;
               seen ← names_of metric_names;
               if bool_decide (metric_name_of metric ∈ seen)
               then append_issue issues
                      (ValidationError (Some metric_context)
                         (metric_duplicate_message (metric_name_of metric)))
               else store metric_names (Names ({[metric_name_of metric]} ∪ seen)))
      end;
  mret issues.

Definition validate_manifest (manifest : loc) : M loc :=
  issues ← alloc (Issues []);
  found ← _validate_top_level_objects manifest;
  _ ← extend_issues issues found;
  models ← read manifest semantic_models;
  _ ← each (seq 0 (length models))
        (fun i =>
           found ← _validate_semantic_model_elements manifest i;
           extend_issues issues found);
  mret issues.

End Rule.
End UniqueAndValidNameRule_store.

Module PrimaryEntityDimensionPairs_store.
Import Store PrimaryEntityDimensionPairs.
Section Rule.
Context `{Imports}.

Definition _check_semantic_model (manifest : loc) (i : nat) (known_pairings : loc)
  : M loc :=
  issues ← alloc (Issues []);
  primary_entity_ ← read_model manifest i primary_entity;
  primary_entity_ ←
    match primary_entity_ with
    | None =>
        model_entities ← read_model manifest i entities;
        mret (for_break model_entities
                (fun primary_entity_ entity =>
                   if EntityType_is (entity_type entity) PRIMARY
                   then Break (Some (entity_name entity))
                   else Continue primary_entity_)
                primary_entity_)
    | Some _ => mret primary_entity_
    end;
  match primary_entity_ with
  | None => mret issues
  | Some primary_entity_ =>
      registry ← registry_of_object known_pairings;
      safe ←
        match registry !! primary_entity_ with
        | None =>
            pairings ← alloc (Strings ∅);
            registry ← registry_of_object known_pairings;
            _ ← store known_pairings
                  (Registry (<[primary_entity_ := pairings]> registry));
            mret true
        | Some _ => mret false
        end;
      model_dimensions ← read_model manifest i dimensions;
      _ ← each model_dimensions
            (fun dimension =>
               unregistered ←
                 (if (safe : bool) then mret true
                  else
                    registry ← registry_of_object known_pairings;
                    pairings ← lift (getitem registry primary_entity_);
                    entries ← strings_of pairings;
                    mret (match entries !! dimension_name dimension with
                          | None => true
                          | Some _ => false
                          end));
               if (unregistered : bool) then
                 registry ← registry_of_object known_pairings;
                 pairings ← lift (getitem registry primary_entity_);
                 entries ← strings_of pairings;
                 model_name ← read_model manifest i name;
                 store pairings
                   (Strings (<[dimension_name dimension := model_name]> entries))
               else
                 metadata_ ← read_model manifest i metadata;
                 model_name ← read_model manifest i name;
                 model_name' ← read_model manifest i name;
                 registry ← registry_of_object known_pairings;
                 pairings ← lift (getitem registry primary_entity_);
                 entries ← strings_of pairings;
                 owner ← lift (getitem entries (dimension_name dimension));
                 append_issue issues
                   (ValidationError
                      (Some (SemanticModelElementContext
                               (FileContext_from_metadata metadata_)
                               {| element_semantic_model_name := model_name;
                                  element_element_name := dimension_name dimension |}
                               DIMENSION))
                      (pairing_message model_name' primary_entity_
                         (dimension_name dimension) owner)));
      mret issues
  end.

Definition validate_manifest (manifest : loc) : M loc :=
  issues ← alloc (Issues []);
  known_pairings ← alloc (Registry ∅);
  models ← read manifest semantic_models;
  _ ← each (seq 0 (length models))
        (fun i =>
           found ← _check_semantic_model manifest i known_pairings;
           extend_issues issues found);
  mret issues.

End Rule.
End PrimaryEntityDimensionPairs_store.

(** The computation [c] returns from the store [h], with a result and a
    final store that satisfy [Q]. *)
Definition returns `{Imports} {A : Type} (c : Store.M A) (h : gmap Store.loc Store.object)
  (Q : A -> gmap Store.loc Store.object -> Prop) : Prop :=
  exists a h', c h = Ok (a, h') /\ Q a h'.

(** The list that a call on the store [h] returns at [l] is new and holds
    [issues], and nothing the store held has changed. *)
Definition fresh_issues `{Imports} (h : gmap Store.loc Store.object)
  (issues : list ValidationIssue) (l : Store.loc) (h' : gmap Store.loc Store.object)
  : Prop :=
  h ⊆ h' /\ h !! l = None /\ h' !! l = Some (Store.Issues issues).

(** The rule [p] returns a result, and its counterpart [c] on the store
    returns from [h], the two results and the final store satisfying [Q]. *)
Definition simulates `{Imports} {A B : Type} (p : result A) (c : Store.M B)
  (h : gmap Store.loc Store.object)
  (Q : A -> B -> gmap Store.loc Store.object -> Prop) : Prop :=
  exists a, p = Ok a /\ returns c h (Q a).

(** The dictionary [known_pairings] in the store [hc]: the object at
    [known_pairings] maps each primary entity to the place of its own
    dictionary, [places], and these dictionaries hold [registry].  None of
    these objects was in the store [h0], and no two primary entities share a
    dictionary. *)
Definition registry_at `{Imports} (h0 : gmap Store.loc Store.object)
  (known_pairings : Store.loc) (places : gmap string Store.loc)
  (registry : gmap string (gmap string string))
  (hc : gmap Store.loc Store.object) : Prop :=
  h0 !! known_pairings = None
  /\ hc !! known_pairings = Some (Store.Registry places)
  /\ (forall pe, places !! pe = None -> registry !! pe = None)
  /\ (forall pe l,
        places !! pe = Some l ->
        h0 !! l = None
        /\ exists entries,
             hc !! l = Some (Store.Strings entries) /\ registry !! pe = Some entries)
  /\ (forall pe pe' l, places !! pe = Some l -> places !! pe' = Some l -> pe = pe').

(** Every list of issues that the store [hc] holds is the same in [hc']. *)
Definition issues_kept `{Imports} (hc hc' : gmap Store.loc Store.object) : Prop :=
  forall l issues,
    hc !! l = Some (Store.Issues issues) -> hc' !! l = Some (Store.Issues issues).

(** A store that holds the manifest [same_host] and nothing else. *)
Definition same_host_store : gmap Store.loc (@Store.object calendar_Imports) :=
  {[ 1%positive := Store.Manifest same_host ]}.

(** * [SliceNamesRule] of [tests/transformations/test_configurable_transform_rules.py]

    The rule cuts the name of every semantic model of a manifest down to its
    first three characters.  It assigns to the [name] attribute of the
    models it is given and returns the manifest it was given, so it is
    modelled on the store. *)

Module SliceNamesRule.
Import Store.
Section Rule.
Context `{Imports}.

(** The semantic model after [semantic_model.name = value]. *)
Definition with_name (semantic_model : SemanticModel) (value : string)
  : SemanticModel :=
  {| name := value;
     primary_entity := primary_entity semantic_model;
     measures := measures semantic_model;
     entities := entities semantic_model;
     dimensions := dimensions semantic_model;
     metadata := metadata semantic_model |}.

(** [semantic_model.name = value], the model being the one at place [i] of
    the manifest. *)
Definition write_model_name (manifest : loc) (i : nat) (value : string) : M unit :=
  m ← manifest_of manifest;
  match semantic_models m !! i with
  | Some semantic_model =>
      store manifest
        (Manifest {| semantic_models :=
                       <[i := with_name semantic_model value]> (semantic_models m);
                     metrics := metrics m |})
  | None => raise NameError
  end.

Definition transform_model (semantic_manifest : loc) : M loc :=
  models ← read semantic_manifest semantic_models;
  _ ← each (seq 0 (length models))
        (fun i =>
           name_ ← read_model semantic_manifest i name;
           write_model_name semantic_manifest i (str_slice_to 3 name_));
  mret semantic_manifest.

End Rule.
End SliceNamesRule.

(** The manifest with the name of every semantic model cut to three
    characters. *)
Definition with_sliced_names `{Imports} (semantic_manifest : SemanticManifest)
  : SemanticManifest :=
  {| semantic_models :=
       map (fun sm => SliceNamesRule.with_name sm (str_slice_to 3 (name sm)))
         (semantic_models semantic_manifest);
     metrics := metrics semantic_manifest |}.

(** A store that holds a manifest of two models, [bookings] and [id]. *)
Definition bookings_and_id : @SemanticManifest calendar_Imports :=
  @Build_SemanticManifest calendar_Imports
    [model_of "bookings" "guest" ["created_at"]; model_of "id" "host" []] [].
Definition bookings_and_id_store : gmap Store.loc (@Store.object calendar_Imports) :=
  {[ 1%positive := Store.Manifest bookings_and_id ]}.

(** A manifest of one semantic model, [bookings] with the measure and the
    dimension [x], and one metric. *)
Definition bookings_manifest : @SemanticManifest calendar_Imports :=
  @Build_SemanticManifest calendar_Imports [measure_and_dimension_x]
    [@Build_Metric calendar_Imports "revenue" (Some "metrics.yaml")].
Definition bookings_manifest_store : gmap Store.loc (@Store.object calendar_Imports) :=
  {[ 1%positive := Store.Manifest bookings_manifest ]}.

(** * Properties *)

(** ** The name pattern *)
Section NamePattern.
Import Re UniqueAndValidNameRule.

Lemma nonempty_app {A} (l1 l2 : list A) : nonempty (l1 ++ l2) = nonempty l1 || nonempty l2.
Proof. by destruct l1, l2. Qed.

Lemma nonempty_flat_map {A B} (f : A -> list B) l :
  nonempty (flat_map f l) = existsb (fun x => nonempty (f x)) l.
Proof.
  induction l as [|x l IH]; [done|]. simpl. by rewrite nonempty_app, IH.
Qed.

Lemma class_body c : class_has [Range "a" "z"; Range "0" "9"; Single "_"] c = is_name_char c.
Proof.
  unfold class_has, is_name_char, is_lower, is_digit. cbn [existsb item_has].
  by rewrite orb_false_r, orb_assoc.
Qed.

Lemma class_end c : class_has [Range "a" "z"; Range "0" "9"] c = is_name_end c.
Proof.
  unfold class_has, is_name_end, is_lower, is_digit. cbn [existsb item_has].
  by rewrite orb_false_r.
Qed.

Lemma ends_neg_lookahead r c :
  ends (NegLookahead r) c = if nonempty (ends r c) then [] else [c].
Proof. simpl. by destruct (ends r c). Qed.

Lemma ends_seq r1 r2 c : ends (Seq r1 r2) c = flat_map (ends r2) (ends r1 c).
Proof. reflexivity. Qed.

Lemma ends_lit x pre l :
  ends (Lit x) (pre, l) =
    match l with
    | c :: rest => if Ascii.eqb x c then [(c :: pre, rest)] else []
    | [] => []
    end.
Proof. reflexivity. Qed.

Lemma ends_class items pre l :
  ends (Class items) (pre, l) =
    match l with
    | c :: rest => if class_has items c then [(c :: pre, rest)] else []
    | [] => []
    end.
Proof. reflexivity. Qed.

Lemma ends_dunder pre l :
  nonempty (ends (Seq (Lit "_") (Lit "_")) (pre, l)) = starts_dunder l.
Proof.
  rewrite ends_seq, ends_lit. destruct l as [|c1 l]; [done|].
  destruct (Ascii.eqb "_" c1) eqn:E1.
  - cbn [flat_map]. rewrite app_nil_r, ends_lit.
    destruct l as [|c2 l]; cbn [starts_dunder]; [done|].
    rewrite E1. by destruct (Ascii.eqb "_" c2).
  - destruct l; cbn [starts_dunder flat_map]; [done|]. by rewrite E1.
Qed.

Lemma ends_body_step pre l :
  ends body_step (pre, l) =
    match l with
    | c :: rest =>
        if negb (starts_dunder l) && is_name_char c then [(c :: pre, rest)] else []
    | [] => []
    end.
Proof.
  unfold body_step. rewrite ends_seq, ends_neg_lookahead, ends_dunder.
  destruct (starts_dunder l) eqn:Hd.
  - by destruct l.
  - cbn [flat_map]. rewrite app_nil_r, ends_class.
    destruct l as [|c rest]; [done|]. by rewrite class_body.
Qed.

Lemma ends_end_step pre l :
  nonempty (ends end_step (pre, l)) =
    match l with
    | c :: rest => is_name_end c && match rest with [] => true | _ => false end
    | [] => false
    end.
Proof.
  unfold end_step. rewrite ends_seq, ends_class.
  destruct l as [|c rest]; [done|]. rewrite class_end.
  destruct (is_name_end c); [|done]. cbn [flat_map]. rewrite app_nil_r.
  by destruct rest.
Qed.

Lemma star_body_then_end fuel pre l :
  length l <= fuel ->
  existsb (fun c => nonempty (ends end_step c)) (star_ends (ends body_step) fuel (pre, l))
  = body_then_end l.
Proof.
  revert pre l. induction fuel as [|fuel IH]; intros pre l Hlen.
  - destruct l; [|simpl in Hlen; lia]. cbn [star_ends existsb].
    by rewrite ends_end_step.
  - cbn [star_ends]. rewrite existsb_app. cbn [existsb]. rewrite orb_false_r.
    rewrite ends_end_step, ends_body_step.
    destruct l as [|c rest]; [done|].
    cbn [body_then_end]. rewrite orb_comm. f_equal.
    rewrite (andb_comm (is_name_char c)).
    destruct (negb (starts_dunder (c :: rest)) && is_name_char c); [|done].
    cbn [flat_map snd length]. rewrite app_nil_r.
    assert ((length rest <? S (length rest))%nat = true) as -> by (apply Nat.ltb_lt; lia).
    rewrite IH; [done|]. simpl in Hlen. lia.
Qed.

Lemma NAME_REGEX_body_then_end s :
  matches NAME_REGEX s =
    match chars s with
    | c :: rest => is_lower c && body_then_end rest
    | [] => false
    end.
Proof.
  unfold matches. change (match ?l with [] => false | _ => true end) with (nonempty l).
  unfold NAME_REGEX. fold body_step end_step.
  rewrite ends_seq.
  change (ends StartA ([], chars s)) with [(@nil ascii, chars s)].
  cbn [flat_map]. rewrite app_nil_r, ends_seq, ends_class.
  destruct (chars s) as [|c rest]; [done|].
  assert (class_has [Range "a" "z"] c = is_lower c) as ->.
  { unfold class_has. cbn [existsb item_has]. by rewrite orb_false_r. }
  destruct (is_lower c); [|done]. cbn [flat_map andb]. rewrite app_nil_r.
  rewrite ends_seq, nonempty_flat_map.
  change (ends (Star body_step) ([c], rest))
    with (star_ends (ends body_step) (length rest) ([c], rest)).
  by apply star_body_then_end.
Qed.

End NamePattern.

(** ** The pattern as the specification writes it *)
Section SpecifiedPattern.
Import Re UniqueAndValidNameRule.

Lemma ends_specified_end pre l :
  nonempty (ends (Seq (Class [Range "a" "z"; Range "0" "9"]) Dollar) (pre, l)) =
    match l with
    | c :: rest =>
        is_name_end c
        && match rest with
           | [] => true
           | [x] => Ascii.eqb x "010"
           | _ => false
           end
    | [] => false
    end.
Proof.
  rewrite ends_seq, ends_class.
  destruct l as [|c rest]; [done|]. rewrite class_end.
  destruct (is_name_end c); [|done]. cbn [flat_map]. rewrite app_nil_r.
  destruct rest as [|x [|y rest]]; [done| |done].
  cbn [ends snd andb]. by destruct (Ascii.eqb x "010").
Qed.

Lemma star_body_then_end_or_newline fuel pre l :
  length l <= fuel ->
  existsb (fun c => nonempty (ends (Seq (Class [Range "a" "z"; Range "0" "9"]) Dollar) c))
    (star_ends (ends body_step) fuel (pre, l))
  = body_then_end_or_newline l.
Proof.
  revert pre l. induction fuel as [|fuel IH]; intros pre l Hlen.
  - destruct l; [|simpl in Hlen; lia]. cbn [star_ends existsb].
    by rewrite ends_specified_end.
  - cbn [star_ends]. rewrite existsb_app. cbn [existsb]. rewrite orb_false_r.
    rewrite ends_specified_end, ends_body_step.
    destruct l as [|c rest]; [done|].
    cbn [body_then_end_or_newline]. rewrite orb_comm. f_equal.
    rewrite (andb_comm (is_name_char c)).
    destruct (negb (starts_dunder (c :: rest)) && is_name_char c); [|done].
    cbn [flat_map snd length]. rewrite app_nil_r.
    assert ((length rest <? S (length rest))%nat = true) as -> by (apply Nat.ltb_lt; lia).
    rewrite IH; [done|]. simpl in Hlen. lia.
Qed.

Lemma NAME_REGEX_as_specified_body_then_end s :
  matches NAME_REGEX_as_specified s =
    match chars s with
    | c :: rest => is_lower c && body_then_end_or_newline rest
    | [] => false
    end.
Proof.
  unfold matches. change (match ?l with [] => false | _ => true end) with (nonempty l).
  unfold NAME_REGEX_as_specified. rewrite ends_seq.
  change (ends Caret ([], chars s)) with [(@nil ascii, chars s)].
  cbn [flat_map]. rewrite app_nil_r, ends_seq, ends_class.
  destruct (chars s) as [|c rest]; [done|].
  assert (class_has [Range "a" "z"] c = is_lower c) as ->.
  { unfold class_has. cbn [existsb item_has]. by rewrite orb_false_r. }
  destruct (is_lower c); [|done]. cbn [flat_map andb]. rewrite app_nil_r.
  rewrite ends_seq, nonempty_flat_map.
  change (ends (Star body_step) ([c], rest))
    with (star_ends (ends body_step) (length rest) ([c], rest)).
  by apply star_body_then_end_or_newline.
Qed.

Lemma body_then_end_or_newline_cases l :
  body_then_end_or_newline l = true <->
  body_then_end l = true
  \/ exists l', l = l' ++ ["010"%char] /\ body_then_end l' = true.
Proof.
  induction l as [|c rest IH].
  - split; [done|]. intros [|(l' & Heq & _)]; [done|]. by destruct l'.
  - cbn [body_then_end_or_newline body_then_end].
    rewrite !orb_true_iff, !andb_true_iff, IH. clear IH. split.
    + intros [[Hc Hrest]|[Hc [Hrest|(l' & -> & Hl')]]].
      * destruct rest as [|x [|y rest]]; [left; left; by rewrite Hc|..|done].
        apply Ascii.eqb_eq in Hrest as ->. right. exists [c]. split; [done|].
        cbn [body_then_end]. by rewrite Hc.
      * left. right. done.
      * right. exists (c :: l'). split; [done|]. cbn [body_then_end].
        destruct Hc as [Hc Hd]. rewrite Hc, Hl'. cbn [andb].
        assert (starts_dunder (c :: l') = false) as ->; [|by rewrite orb_true_r].
        destruct l' as [|c2 l']; [done|]. apply negb_true_iff in Hd. exact Hd.
    + intros [[[Hc Hrest]|[Hc Hrest]]|(l' & Heq & Hl')].
      * left. split; [done|]. by destruct rest.
      * right. split; [done|]. by left.
      * destruct l' as [|c' l']; [done|]. simplify_eq/=.
        apply orb_true_iff in Hl' as [Hl'|Hl'].
        -- apply andb_true_iff in Hl' as [Hc Hnil]. destruct l'; [|done].
           left. by split.
        -- apply andb_true_iff in Hl' as [Hl' Hrest].
           apply andb_true_iff in Hl' as [Hc Hd]. right. split.
           ++ split; [done|]. destruct l' as [|c2 l']; [done|]. exact Hd.
           ++ right. by exists l'.
Qed.

(** The two patterns: the one of the specification accepts the names that
    [NAME_REGEX] accepts, and these names followed by one newline. *)
Lemma NAME_REGEX_as_specified_matches s :
  matches NAME_REGEX_as_specified s = true <->
  matches NAME_REGEX s = true
  \/ exists s', s = s' +:+ String "010" EmptyString /\ matches NAME_REGEX s' = true.
Proof.
  rewrite NAME_REGEX_as_specified_body_then_end, NAME_REGEX_body_then_end.
  destruct s as [|c s]; cbn [chars String.list_ascii_of_string].
  { split; [done|]. intros [|(s' & Heq & _)]; [done|]. by destruct s'. }
  rewrite !andb_true_iff, body_then_end_or_newline_cases. split.
  - intros [Hc [Hrest|(l' & Heq & Hl')]]; [by left|]. right.
    exists (String c (String.string_of_list_ascii l')). split.
    + change (String c s = String c (String.string_of_list_ascii l'
                                       +:+ String "010" EmptyString)).
      f_equal. rewrite <-(String.string_of_list_ascii_of_string s), Heq.
      clear. induction l' as [|x l' IH]; [done|].
      cbn [app String.string_of_list_ascii]. rewrite IH. done.
    + rewrite NAME_REGEX_body_then_end. cbn [chars String.list_ascii_of_string].
      rewrite String.list_ascii_of_string_of_list_ascii. by rewrite Hc, Hl'.
  - intros [[Hc Hrest]|(s' & Heq & Hs')]; [by split; [|left]|].
    rewrite NAME_REGEX_body_then_end in Hs'.
    destruct s' as [|c' s']; [done|]. cbn [chars String.list_ascii_of_string] in Hs'.
    apply andb_true_iff in Hs' as [Hc Hs'].
    change (String c s = String c' (s' +:+ String "010" EmptyString)) in Heq.
    injection Heq as -> ->. split; [done|]. right.
    exists (String.list_ascii_of_string s'). split; [|done].
    clear. induction s' as [|x s' IH]; [done|].
    change (x :: String.list_ascii_of_string (s' +:+ String "010" EmptyString)
            = x :: (String.list_ascii_of_string s' ++ ["010"%char])).
    by rewrite IH.
Qed.

End SpecifiedPattern.

(** ** [check_valid_name] *)
Section Names.
Import Re UniqueAndValidNameRule.
Context `{Imports, PyStr}.

Lemma is_name_end_char c : is_name_end c = true -> is_name_char c = true.
Proof. unfold is_name_char, is_name_end. by intros ->. Qed.

Lemma body_then_end_shape l :
  body_then_end l =
    forallb is_name_char l
    && match last l with Some z => is_name_end z | None => false end
    && no_dunder l.
Proof.
  induction l as [|c rest IH]; [done|].
  cbn [body_then_end forallb no_dunder]. rewrite IH. clear IH.
  destruct rest as [|c2 rest].
  - cbn. destruct (is_name_end c) eqn:E; [by rewrite (is_name_end_char _ E)|].
    by rewrite andb_false_r.
  - change (last (c :: c2 :: rest)) with (last (c2 :: rest)).
    destruct (is_name_char c), (negb (starts_dunder (c :: c2 :: rest))),
      (forallb is_name_char (c2 :: rest)),
      (match last (c2 :: rest) with Some z => is_name_end z | None => false end),
      (no_dunder (c2 :: rest)), (is_name_end c); done.
Qed.

Lemma is_lower_not_underscore c : is_lower c = true -> Ascii.eqb "_" c = false.
Proof. destruct c as [[] [] [] [] [] [] [] []]; by vm_compute. Qed.

(** [NAME_REGEX] accepts exactly the names of the valid shape. *)
Lemma NAME_REGEX_valid_name_shape s :
  matches NAME_REGEX s = valid_name_shape (chars s).
Proof.
  rewrite NAME_REGEX_body_then_end. unfold valid_name_shape.
  destruct (chars s) as [|c rest]; [done|].
  rewrite body_then_end_shape. cbn [no_dunder].
  destruct (is_lower c) eqn:Hc; [|done].
  assert (starts_dunder (c :: rest) = false) as ->.
  { destruct rest; [done|]. cbn [starts_dunder].
    by rewrite (is_lower_not_underscore _ Hc). }
  cbn [negb andb]. by rewrite <-!andb_assoc.
Qed.

Lemma is_name_char_ascii c : is_name_char c = true -> is_ascii_char c = true.
Proof. destruct c as [[] [] [] [] [] [] [] []]; by vm_compute. Qed.

Lemma is_lower_ascii c : is_lower c = true -> is_ascii_char c = true.
Proof. destruct c as [[] [] [] [] [] [] [] []]; by vm_compute. Qed.

Lemma valid_name_shape_ascii s :
  valid_name_shape (chars s) = true -> is_ascii s = true.
Proof.
  unfold is_ascii, valid_name_shape. destruct (chars s) as [|c rest]; [done|].
  intros (((Hc & Hrest)%andb_prop & _)%andb_prop & _)%andb_prop.
  cbn [forallb]. rewrite (is_lower_ascii _ Hc). cbn [andb].
  apply forallb_forall. intros x Hx. apply is_name_char_ascii.
  by eapply forallb_forall in Hrest.
Qed.

Lemma lower_upper_char c : ascii_lower_char (ascii_upper_char c) = ascii_lower_char c.
Proof. destruct c as [[] [] [] [] [] [] [] []]; by vm_compute. Qed.
Lemma upper_lower_char c : ascii_upper_char (ascii_lower_char c) = ascii_upper_char c.
Proof. destruct c as [[] [] [] [] [] [] [] []]; by vm_compute. Qed.
Lemma lower_char_ascii c : is_ascii_char (ascii_lower_char c) = is_ascii_char c.
Proof. destruct c as [[] [] [] [] [] [] [] []]; by vm_compute. Qed.

Lemma ascii_lower_upper s : ascii_lower (ascii_upper s) = ascii_lower s.
Proof. induction s as [|c s IH]; [done|]. cbn. by rewrite lower_upper_char, IH. Qed.
Lemma ascii_upper_lower s : ascii_upper (ascii_lower s) = ascii_upper s.
Proof. induction s as [|c s IH]; [done|]. cbn. by rewrite upper_lower_char, IH. Qed.
Lemma is_ascii_lower s : is_ascii (ascii_lower s) = is_ascii s.
Proof.
  unfold is_ascii. induction s as [|c s IH]; [done|].
  cbn [ascii_lower chars String.list_ascii_of_string forallb].
  unfold chars in IH. by rewrite lower_char_ascii, IH.
Qed.

(** A name equal to ASCII text up to case is ASCII text. *)
Lemma eq_nocase_ascii s t : eq_nocase s t -> is_ascii t = true -> is_ascii s = true.
Proof.
  unfold eq_nocase. intros Heq Ht.
  rewrite <-is_ascii_lower, Heq, is_ascii_lower. done.
Qed.

Lemma eq_nocase_upper s t :
  eq_nocase s t -> is_ascii t = true -> str_upper s = ascii_upper t.
Proof.
  intros Heq Ht. rewrite str_upper_ascii by eauto using eq_nocase_ascii.
  by rewrite <-ascii_upper_lower, Heq, ascii_upper_lower.
Qed.

Lemma eq_nocase_lower s t :
  eq_nocase s t -> is_ascii t = true -> str_lower s = ascii_lower t.
Proof.
  intros Heq Ht. by rewrite str_lower_ascii by eauto using eq_nocase_ascii.
Qed.

Lemma of_value_named v :
  MetricFlowReservedKeywords.of_value v =
    match reserved_keyword_named v with
    | Some k => Ok k
    | None => Raise ValueError
    end.
Proof. reflexivity. Qed.

Lemma get_reserved_reason_total k :
  MetricFlowReservedKeywords.get_reserved_reason k = Ok (reserved_reason k).
Proof. by destruct k. Qed.

Lemma reserved_keyword_named_member v :
  v ∈ map MetricFlowReservedKeywords.value MetricFlowReservedKeywords.members ->
  exists k, reserved_keyword_named v = Some k.
Proof.
  unfold reserved_keyword_named. cbn [map MetricFlowReservedKeywords.members find].
  intros Hv. apply list_elem_of_In in Hv. cbn in Hv.
  destruct Hv as [<-|[<-|[]]]; cbn; eauto.
Qed.

Lemma reserved_keyword_named_value v k :
  reserved_keyword_named v = Some k -> MetricFlowReservedKeywords.value k = v.
Proof.
  unfold reserved_keyword_named. intros Hf. apply find_some in Hf as [_ Hf].
  by apply String.eqb_eq in Hf.
Qed.

Lemma reserved_keyword_named_not_member v :
  v ∉ map MetricFlowReservedKeywords.value MetricFlowReservedKeywords.members ->
  reserved_keyword_named v = None.
Proof.
  intros Hv. destruct (reserved_keyword_named v) as [k|] eqn:Hk; [|done].
  apply reserved_keyword_named_value in Hk as <-. exfalso. apply Hv.
  apply list_elem_of_In, in_map. destruct k; cbn; auto.
Qed.

(** [check_valid_name] returns, and what it returns. *)
Lemma check_valid_name_issues name context :
  check_valid_name name context = Ok (valid_name_issues name context).
Proof.
  unfold check_valid_name, valid_name_issues.
  destruct (matches NAME_REGEX name); cbn [negb app];
    destruct (bool_decide (str_upper name ∈ TimeGranularity_list_names));
    cbn [app]; case_bool_decide as Hr.
  all: try (apply reserved_keyword_named_member in Hr as [k Hk];
            rewrite of_value_named, Hk; cbn;
            by rewrite get_reserved_reason_total).
  all: by rewrite (reserved_keyword_named_not_member _ Hr).
Qed.

End Names.

Section NameClaims.
Import Re UniqueAndValidNameRule.
Context `{Imports, PyStr}.

Lemma append_assoc (a b c : string) : (a +:+ b) +:+ c = a +:+ b +:+ c.
Proof.
  induction a as [|x a IH]; [done|].
  change (String x ((a +:+ b) +:+ c) = String x (a +:+ b +:+ c)). by rewrite IH.
Qed.

Lemma prefix_append (a b c : string) :
  String.prefix (a +:+ b) (a +:+ c) = String.prefix b c.
Proof.
  induction a as [|x a IH]; [done|].
  change (String.prefix (String x (a +:+ b)) (String x (a +:+ c)) = String.prefix b c).
  cbn [String.prefix]. by destruct (ascii_dec x x).
Qed.

Lemma prefix_of_append (a b : string) : String.prefix a (a +:+ b) = true.
Proof.
  induction a as [|x a IH]; [by destruct b|].
  change (String.prefix (String x a) (String x (a +:+ b)) = true).
  cbn [String.prefix]. by destruct (ascii_dec x x).
Qed.

Lemma syntax_issue_not_reserved name context :
  is_reserved_issue name (ValidationError context (syntax_message name)) = false.
Proof.
  unfold is_reserved_issue, syntax_message. cbn [issue_message].
  by rewrite !prefix_append.
Qed.

Lemma granularity_issue_not_reserved name names context :
  is_reserved_issue name (ValidationError context (granularity_message names name))
  = false.
Proof.
  unfold is_reserved_issue, granularity_message. cbn [issue_message].
  rewrite !prefix_append. reflexivity.
Qed.

Lemma reserved_issue_reserved name reason context :
  is_reserved_issue name (ValidationError context (reserved_message name reason))
  = true.
Proof.
  unfold is_reserved_issue, reserved_message. cbn [issue_message].
  rewrite !prefix_append. apply prefix_of_append.
Qed.

Lemma reserved_message_contains name reason :
  contains (reserved_message name reason) reason.
Proof.
  exists ("Invalid name `" +:+ name
          +:+ "` - this name is reserved by MetricFlow. Reason: "), "".
  unfold reserved_message. rewrite !append_assoc. do 3 f_equal.
  induction reason as [|x r IH]; [done|].
  change (String x r = String x (r +:+ "")). by rewrite <-IH.
Qed.

Lemma value_is_ascii k : is_ascii (MetricFlowReservedKeywords.value k) = true.
Proof. by destruct k. Qed.

Lemma value_lower k :
  ascii_lower (MetricFlowReservedKeywords.value k) = MetricFlowReservedKeywords.value k.
Proof. by destruct k. Qed.

Lemma reserved_keyword_named_of_value k :
  reserved_keyword_named (MetricFlowReservedKeywords.value k) = Some k.
Proof. by destruct k. Qed.

(** C9: [check_valid_name] returns a list of issues for every name and
    never raises.  When the lower-cased name is the value of a reserved
    keyword, constructing the keyword from it succeeds, and
    [get_reserved_reason] returns a reason for each keyword, so
    [assert_values_exhausted] is not reached. *)
Theorem check_valid_name_never_raises (name : string)
  (context : option ValidationContext) :
  (exists issues, check_valid_name name context = Ok issues)
  /\ (str_lower name ∈ map MetricFlowReservedKeywords.value
                          MetricFlowReservedKeywords.members ->
      exists k, MetricFlowReservedKeywords.of_value (str_lower name) = Ok k
                /\ MetricFlowReservedKeywords.value k = str_lower name)
  /\ (forall k, exists reason,
        MetricFlowReservedKeywords.get_reserved_reason k = Ok reason).
Proof.
  split; [|split].
  - eexists. apply check_valid_name_issues.
  - intros [k Hk]%reserved_keyword_named_member. exists k.
    rewrite of_value_named, Hk. eauto using reserved_keyword_named_value.
  - intros k. eexists. apply get_reserved_reason_total.
Qed.

Lemma valid_name_issues_accepts (name : string)
  (context : option ValidationContext) :
  matches NAME_REGEX name = true ->
  (forall g, g ∈ TimeGranularity_list_names -> ~ eq_nocase name g) ->
  (forall k, ~ eq_nocase name (MetricFlowReservedKeywords.value k)) ->
  valid_name_issues name context = [].
Proof.
  intros Hre Hgran Hres. unfold valid_name_issues. rewrite Hre. cbn [app].
  assert (is_ascii name = true) as Hascii.
  { apply valid_name_shape_ascii. by rewrite <-NAME_REGEX_valid_name_shape. }
  rewrite bool_decide_eq_false_2.
  - destruct (reserved_keyword_named (str_lower name)) as [k|] eqn:Hk; [|done].
    apply reserved_keyword_named_value in Hk. destruct (Hres k).
    unfold eq_nocase. by rewrite value_lower, Hk, str_lower_ascii.
  - intros Hin. apply (Hgran _ Hin). unfold eq_nocase.
    by rewrite str_upper_ascii, ascii_lower_upper.
Qed.

(** C4, as amended: a name that [NAME_REGEX] matches, the pattern being
    anchored by [\A] and [\Z], and that is neither a time granularity name
    nor the value of a reserved keyword up to case, has no issue. *)
Theorem check_valid_name_accepts (name : string)
  (context : option ValidationContext) :
  matches NAME_REGEX name = true ->
  (forall g, g ∈ TimeGranularity_list_names -> ~ eq_nocase name g) ->
  (forall k, ~ eq_nocase name (MetricFlowReservedKeywords.value k)) ->
  check_valid_name name context = Ok [].
Proof.
  intros Hre Hgran Hres.
  by rewrite check_valid_name_issues, valid_name_issues_accepts.
Qed.

(** C5: reserved names are flagged whatever the case of their letters.  A
    name equal to [day] up to case gets the time-granularity issue, given
    that [DAY] is a member name of [TimeGranularity].  A name equal up to
    case to a reserved keyword gets exactly one reserved-keyword issue, and
    its message contains the reason of that keyword; the two keywords have
    different reasons. *)
Theorem check_valid_name_flags_reserved (name : string)
  (context : option ValidationContext) :
  (eq_nocase name "day" ->
   "DAY" ∈ TimeGranularity_list_names ->
   exists issues,
     check_valid_name name context = Ok issues
     /\ ValidationError context
          (granularity_message TimeGranularity_list_names name) ∈ issues)
  /\ (forall k, eq_nocase name (MetricFlowReservedKeywords.value k) ->
      exists issues reason,
        check_valid_name name context = Ok issues
        /\ MetricFlowReservedKeywords.get_reserved_reason k = Ok reason
        /\ List.filter (is_reserved_issue name) issues
           = [ValidationError context (reserved_message name reason)]
        /\ contains (reserved_message name reason) reason)
  /\ MetricFlowReservedKeywords.get_reserved_reason
       MetricFlowReservedKeywords.METRIC_TIME
     = Ok MetricFlowReservedKeywords.METRIC_TIME_reason
  /\ MetricFlowReservedKeywords.get_reserved_reason
       MetricFlowReservedKeywords.MF_INTERNAL_UUID
     = Ok MetricFlowReservedKeywords.MF_INTERNAL_UUID_reason
  /\ MetricFlowReservedKeywords.METRIC_TIME_reason
     <> MetricFlowReservedKeywords.MF_INTERNAL_UUID_reason.
Proof.
  split; [|split; [|done]].
  - intros Hday Hin. eexists. split; [apply check_valid_name_issues|].
    unfold valid_name_issues.
    rewrite (eq_nocase_upper _ _ Hday eq_refl). cbn [ascii_upper].
    change (ascii_upper "day") with "DAY". rewrite bool_decide_eq_true_2 by done.
    apply elem_of_app. right. apply elem_of_app. left. apply list_elem_of_singleton.
    done.
  - intros k Hk. exists (valid_name_issues name context), (reserved_reason k).
    split; [apply check_valid_name_issues|].
    split; [apply get_reserved_reason_total|].
    split; [|apply reserved_message_contains].
    unfold valid_name_issues.
    rewrite (eq_nocase_lower _ _ Hk (value_is_ascii k)), value_lower,
      reserved_keyword_named_of_value.
    rewrite !List.filter_app.
    destruct (matches NAME_REGEX name),
      (bool_decide (str_upper name ∈ TimeGranularity_list_names));
      cbn [List.filter app];
      by rewrite ?syntax_issue_not_reserved, ?granularity_issue_not_reserved,
           reserved_issue_reserved.
Qed.

(** A name whose upper-cased and lower-cased forms are known has the issues
    these forms decide. *)
Lemma check_valid_name_syntax_only name context :
  is_ascii name = true ->
  matches NAME_REGEX name = false ->
  ascii_upper name ∉ TimeGranularity_list_names ->
  reserved_keyword_named (ascii_lower name) = None ->
  check_valid_name name context = Ok [ValidationError context (syntax_message name)].
Proof.
  intros Hascii Hre Hgran Hres. rewrite check_valid_name_issues. f_equal.
  unfold valid_name_issues.
  rewrite Hre, str_upper_ascii, str_lower_ascii, Hres by done.
  by rewrite bool_decide_eq_false_2.
Qed.

(** C6: [A_bad], [bad_], [ba__d] and [b] each get the syntax issue and no
    other, given that none of their upper-cased forms is a member name of
    [TimeGranularity]. *)
Theorem check_valid_name_syntax_examples (context : option ValidationContext) :
  Forall (fun upper => upper ∉ TimeGranularity_list_names)
    ["A_BAD"; "BAD_"; "BA__D"; "B"] ->
  Forall
    (fun name =>
       check_valid_name name context
       = Ok [ValidationError context (syntax_message name)])
    ["A_bad"; "bad_"; "ba__d"; "b"].
Proof.
  intros Hnames.
  apply Forall_cons in Hnames as [H1 Hnames].
  apply Forall_cons in Hnames as [H2 Hnames].
  apply Forall_cons in Hnames as [H3 Hnames].
  apply Forall_cons in Hnames as [H4 _].
  repeat apply Forall_cons_2; [..|apply Forall_nil_2];
    by apply check_valid_name_syntax_only.
Qed.

End NameClaims.

(** ** Loops *)
Section Loops.
Context {A S : Type}.

Lemma for_app (xs ys : list A) (body : S -> A -> result S) (s : S) :
  for_ (xs ++ ys) body s = (s' ← for_ xs body s; for_ ys body s').
Proof.
  revert s. induction xs as [|x xs IH]; intros s; [done|].
  cbn [for_ app]. destruct (body s x) as [s'|e]; [apply IH|done].
Qed.

Lemma for_pure (xs : list A) (f : S -> A -> S) (s : S) :
  for_ xs (fun s x => Ok (f s x)) s = Ok (foldl f s xs).
Proof. revert s. induction xs as [|x xs IH]; intros s; [done|]. apply IH. Qed.

Lemma for_ext (xs : list A) (body body' : S -> A -> result S) (s : S) :
  (forall s x, body s x = body' s x) -> for_ xs body s = for_ xs body' s.
Proof.
  intros Hext. revert s. induction xs as [|x xs IH]; intros s; [done|].
  cbn [for_]. rewrite Hext. destruct (body' s x); [apply IH|done].
Qed.

End Loops.

Lemma foldl_snoc_map {A B : Type} (f : A -> B) (l : list A) (acc : list B) :
  foldl (fun acc x => acc ++ [f x]) acc l = acc ++ map f l.
Proof.
  revert acc. induction l as [|x l IH]; intros acc; cbn [foldl map].
  - by rewrite app_nil_r.
  - by rewrite IH, <-app_assoc.
Qed.

(** ** [_validate_semantic_model_elements] *)
Section Elements.
Import UniqueAndValidNameRule.
Context `{Imports, PyStr}.

Lemma collect_elements_model_elements semantic_model :
  collect_elements semantic_model = model_elements semantic_model.
Proof.
  unfold collect_elements, model_elements.
  destruct (measures semantic_model) as [|m ms] eqn:Hm,
    (entities semantic_model) as [|e es] eqn:He,
    (dimensions semantic_model) as [|d ds] eqn:Hd;
    by rewrite ?foldl_snoc_map, ?app_nil_r, ?app_nil_l, ?app_assoc.
Qed.

Lemma first_kind_snoc seen e r :
  first_kind (seen ++ [e]) r =
    match first_kind seen r with
    | Some k => Some k
    | None => if bool_decide (e.1.1 = r) then Some e.1.2 else None
    end.
Proof.
  unfold first_kind. induction seen as [|e' seen IH]; cbn [find app].
  - by destruct (bool_decide (e.1.1 = r)).
  - destruct (bool_decide (e'.1.1 = r)); [done|apply IH].
Qed.

Lemma first_kind_first seen r k :
  first_kind seen r = Some k <->
  exists before e after,
    seen = before ++ e :: after /\ e.1.1 = r /\ e.1.2 = k
    /\ Forall (fun e' => e'.1.1 <> r) before.
Proof.
  unfold first_kind. induction seen as [|e seen IH]; cbn [find].
  - split; [done|]. intros (before & e & after & Heq & _). by destruct before.
  - case_bool_decide as He.
    + split.
      * intros [= <-]. exists [], e, seen. by repeat split.
      * intros (before & e' & after & Heq & Hr & Hk & Hbefore).
        destruct before as [|b before]; simplify_eq/=; [done|].
        by apply Forall_cons in Hbefore as [? _].
    + rewrite IH. split.
      * intros (before & e' & after & -> & Hr & Hk & Hbefore).
        exists (e :: before), e', after. repeat split; [done..|].
        by apply Forall_cons.
      * intros (before & e' & after & Heq & Hr & Hk & Hbefore).
        destruct before as [|b before]; simplify_eq/=.
        apply Forall_cons in Hbefore as [_ Hbefore]. eauto 8.
Qed.

Lemma duplicate_loop model_name rest seen issues name_to_type :
  records_first_kinds name_to_type seen ->
  exists name_to_type',
    for_ rest
      (fun '(issues, name_to_type) '(name_, _type, context) =>
         match (name_to_type : gmap ElementReference string) !! name_ with
         | Some first_type =>
             mret (issues ++
                     [ValidationError (Some context)
                        (element_duplicate_message model_name
                           (element_name name_) _type first_type)],
                   name_to_type)
         | None => mret (issues, <[name_ := _type]> name_to_type)
         end)
      (issues, name_to_type)
    = Ok (issues ++ duplicate_errors model_name seen rest, name_to_type')
    /\ records_first_kinds name_to_type' (seen ++ rest).
Proof.
  revert seen issues name_to_type.
  induction rest as [|[[name_ _type] context] rest IH];
    intros seen issues name_to_type Hinv.
  - exists name_to_type. by rewrite !app_nil_r.
  - cbn [for_ duplicate_errors fst snd].
    rewrite <-(Hinv name_).
    destruct (name_to_type !! name_) as [first|] eqn:Hlook;
      cbn [mbind result_bind mret result_ret].
    + destruct (IH (seen ++ [(name_, _type, context)])
                  (issues ++ [ValidationError (Some context)
                                (element_duplicate_message model_name
                                   (element_name name_) _type first)])
                  name_to_type) as (n2t & Hrun & Hinv').
      { intros r. rewrite first_kind_snoc, <-Hinv. cbn [fst snd].
        destruct (name_to_type !! r) eqn:Hr; [done|].
        case_bool_decide; [congruence|done]. }
      exists n2t. rewrite Hrun, <-!app_assoc. by rewrite <-app_assoc in Hinv'.
    + destruct (IH (seen ++ [(name_, _type, context)]) issues
                  (<[name_ := _type]> name_to_type)) as (n2t & Hrun & Hinv').
      { intros r. rewrite first_kind_snoc, <-Hinv. cbn [fst snd].
        destruct (decide (name_ = r)) as [->|Hne].
        - by rewrite lookup_insert_eq, Hlook, bool_decide_eq_true_2.
        - rewrite lookup_insert_ne by done.
          destruct (name_to_type !! r); [done|]. by rewrite bool_decide_eq_false_2. }
      exists n2t. rewrite Hrun. by rewrite <-app_assoc in Hinv'.
Qed.

Lemma validity_loop (tuples : list element_info) issues :
  for_ tuples
    (fun issues '(name_, _, context) =>
       found ← check_valid_name (element_name name_) (Some context);
       mret (issues ++ found))
    issues
  = Ok (issues
          ++ flat_map (fun e => valid_name_issues (element_name e.1.1) (Some e.2))
               tuples).
Proof.
  revert issues. induction tuples as [|[[name_ _type] context] tuples IH];
    intros issues; cbn [for_ flat_map].
  - by rewrite app_nil_r.
  - rewrite check_valid_name_issues. cbn [mbind result_bind mret result_ret].
    by rewrite IH, <-app_assoc.
Qed.

Lemma validate_semantic_model_elements_issues semantic_model :
  _validate_semantic_model_elements semantic_model
  = Ok (duplicate_errors (name semantic_model) [] (model_elements semantic_model)
          ++ flat_map
               (fun e => valid_name_issues (element_name e.1.1) (Some e.2))
               (model_elements semantic_model)).
Proof.
  unfold _validate_semantic_model_elements. cbv zeta.
  rewrite collect_elements_model_elements. unfold element_info.
  destruct (duplicate_loop (name semantic_model) (model_elements semantic_model)
              [] [] ∅) as (n2t & Hrun & _).
  { intros r. by rewrite lookup_empty. }
  rewrite Hrun. cbn [mbind result_bind app]. apply validity_loop.
Qed.

Lemma valid_name_issues_not_duplicates name_ context :
  List.filter is_element_duplicate_issue (valid_name_issues name_ context) = [].
Proof.
  unfold valid_name_issues. rewrite !List.filter_app.
  destruct (Re.matches NAME_REGEX name_),
    (bool_decide (str_upper name_ ∈ TimeGranularity_list_names)),
    (reserved_keyword_named (str_lower name_)); reflexivity.
Qed.

(** C3: the elements of a semantic model are collected as its measures,
    then its entities, then its dimensions.  The issues are one duplicate
    error for each element whose reference an earlier element has, citing
    the kind of the later element and the kind of the first element with
    that reference, followed by the issues of every collected name.  The
    references are of the class of the element, so the first element that
    counts is one of the same kind: a model with one measure and one
    dimension, both named [x], has no duplicate error, where the
    specification expects one; a model with two dimensions named [x] has one, of the
    second dimension against the first. *)
Theorem validate_semantic_model_elements_first_seen_wins
  (semantic_model : SemanticModel) :
  collect_elements semantic_model = model_elements semantic_model
  /\ _validate_semantic_model_elements semantic_model
     = Ok (duplicate_errors (name semantic_model) []
             (collect_elements semantic_model)
           ++ flat_map
                (fun e => valid_name_issues (element_name e.1.1) (Some e.2))
                (collect_elements semantic_model))
  /\ (forall measure dimension,
        measures semantic_model = [measure] ->
        entities semantic_model = [] ->
        dimensions semantic_model = [dimension] ->
        measure_name measure = "x" ->
        dimension_name dimension = "x" ->
        exists issues,
          _validate_semantic_model_elements semantic_model = Ok issues
          /\ List.filter is_element_duplicate_issue issues = [])
  /\ (forall first second,
        measures semantic_model = [] ->
        entities semantic_model = [] ->
        dimensions semantic_model = [first; second] ->
        dimension_name first = "x" ->
        dimension_name second = "x" ->
        exists issues,
          _validate_semantic_model_elements semantic_model = Ok issues
          /\ List.filter is_element_duplicate_issue issues
             = [ValidationError
                  (Some (element_context semantic_model "x" DIMENSION))
                  (element_duplicate_message (name semantic_model) "x"
                     "dimension" "dimension")]).
Proof.
  split; [apply collect_elements_model_elements|]. split; [|split].
  - rewrite collect_elements_model_elements.
    apply validate_semantic_model_elements_issues.
  - intros measure dimension Hm He Hd Hmx Hdx. eexists.
    split; [apply validate_semantic_model_elements_issues|].
    unfold model_elements. rewrite Hm, He, Hd. cbn [map app].
    unfold measure_reference, dimension_reference. rewrite Hmx, Hdx.
    cbn [duplicate_errors flat_map fst snd app]. unfold first_kind.
    cbn [find fst snd app]. rewrite bool_decide_eq_false_2 by done.
    by rewrite !List.filter_app, !valid_name_issues_not_duplicates.
  - intros first second Hm He Hd Hx1 Hx2. eexists.
    split; [apply validate_semantic_model_elements_issues|].
    unfold model_elements. rewrite Hm, He, Hd. cbn [map app].
    unfold dimension_reference. rewrite Hx1, Hx2.
    cbn [duplicate_errors flat_map fst snd app]. unfold first_kind.
    cbn [find fst snd app]. rewrite bool_decide_eq_true_2 by done.
    rewrite !List.filter_app, !valid_name_issues_not_duplicates.
    cbn [List.filter app element_name]. unfold is_element_duplicate_issue.
    cbn [issue_message]. unfold element_duplicate_message.
    by rewrite prefix_of_append.
Qed.

End Elements.

(** ** [_validate_top_level_objects] and [validate_manifest] *)
Section TopLevel.
Import UniqueAndValidNameRule.
Context `{Imports, PyStr}.

Lemma for_total {A S : Type} (xs : list A) (body : S -> A -> result S) (s : S) :
  (forall s x, exists s', body s x = Ok s') -> exists s', for_ xs body s = Ok s'.
Proof.
  intros Hbody. revert s. induction xs as [|x xs IH]; intros s; [by eexists|].
  cbn [for_]. destruct (Hbody s x) as [s' ->]. apply IH.
Qed.

Lemma bind_total {A B : Type} (m : result A) (f : A -> result B) :
  (exists a, m = Ok a) -> (forall a, exists b, f a = Ok b) ->
  exists b, m ≫= f = Ok b.
Proof. intros [a ->] Hf. apply Hf. Qed.

Lemma valid_name_issues_none (name_ : string) (context : option ValidationContext) :
  is_ascii name_ = true ->
  Re.matches NAME_REGEX name_ = true ->
  ascii_upper name_ ∉ TimeGranularity_list_names ->
  reserved_keyword_named (ascii_lower name_) = None ->
  valid_name_issues name_ context = [].
Proof.
  intros Hascii Hre Hgran Hres. unfold valid_name_issues.
  rewrite Hre, str_upper_ascii, str_lower_ascii, Hres by done.
  by rewrite bool_decide_eq_false_2.
Qed.

(** The rule returns a list of issues for every manifest. *)
Lemma validate_semantic_model_elements_total semantic_model :
  exists issues, _validate_semantic_model_elements semantic_model = Ok issues.
Proof. eexists. apply validate_semantic_model_elements_issues. Qed.

Lemma validate_top_level_objects_total semantic_manifest :
  exists issues, _validate_top_level_objects semantic_manifest = Ok issues.
Proof.
  unfold _validate_top_level_objects. cbv zeta. apply bind_total.
  { destruct (semantic_models semantic_manifest); [by eexists|].
    apply for_total. intros [tuples issues] sm.
    rewrite check_valid_name_issues. by eexists. }
  intros [tuples issues]. apply bind_total.
  { apply for_total. intros [i n2t] [[name_ type_] context].
    destruct (n2t !! name_); by eexists. }
  intros [i n2t]. destruct (metrics semantic_manifest); [by eexists|].
  apply bind_total; [|intros [? ?]; by eexists].
  apply for_total. intros [i' names] metric. rewrite check_valid_name_issues.
  cbn [mbind result_bind]. case_bool_decide; by eexists.
Qed.

Lemma validate_manifest_total semantic_manifest :
  exists issues, validate_manifest semantic_manifest = Ok issues.
Proof.
  unfold validate_manifest. cbv zeta.
  destruct (validate_top_level_objects_total semantic_manifest) as [top ->].
  cbn [mbind result_bind]. apply for_total. intros issues sm.
  rewrite validate_semantic_model_elements_issues. by eexists.
Qed.

(** C7: a manifest of exactly two semantic models, both named [orders],
    with no measure, entity, dimension or metric, has exactly one issue: the
    duplicate-name error, with the context of the second model.  [ORDERS]
    is taken not to be a member name of [TimeGranularity]. *)
Theorem validate_manifest_two_models_named_orders
  (semantic_manifest : SemanticManifest) (first second : SemanticModel) :
  semantic_models semantic_manifest = [first; second] ->
  metrics semantic_manifest = [] ->
  name first = "orders" -> name second = "orders" ->
  measures first = [] -> entities first = [] -> dimensions first = [] ->
  measures second = [] -> entities second = [] -> dimensions second = [] ->
  "ORDERS" ∉ TimeGranularity_list_names ->
  validate_manifest semantic_manifest
  = Ok [ValidationError
          (Some (SemanticModelContext
                   (FileContext_from_metadata (metadata second))
                   {| semantic_model_name := "orders" |}))
          "Can't use name `orders` for a semantic model when it was already used for a semantic model"].
Proof.
  intros Hmodels Hmetrics Hn1 Hn2 Hm1 He1 Hd1 Hm2 He2 Hd2 Hgran.
  assert (forall context, check_valid_name "orders" context = Ok []) as Hvalid.
  { intros context. rewrite check_valid_name_issues. f_equal.
    by apply valid_name_issues_none. }
  unfold validate_manifest, _validate_top_level_objects. cbv zeta.
  rewrite Hmodels, Hmetrics.
  cbn [for_]. rewrite Hn1, Hvalid.
  cbn [mbind result_bind mret result_ret app for_]. rewrite Hn2, Hvalid.
  cbn [mbind result_bind mret result_ret app for_]. rewrite lookup_empty.
  cbn [mbind result_bind mret result_ret app for_]. rewrite lookup_insert_eq.
  cbn [mbind result_bind mret result_ret app for_].
  rewrite !validate_semantic_model_elements_issues.
  unfold model_elements. rewrite Hm1, He1, Hd1, Hm2, He2, Hd2.
  reflexivity.
Qed.

End TopLevel.

(** ** [_check_semantic_model] *)
Section Pairing.
Import PrimaryEntityDimensionPairs.
Context `{Imports}.

Lemma resolve_primary_entity_declared_or_first_primary semantic_model :
  resolve_primary_entity semantic_model = declared_or_first_primary semantic_model.
Proof.
  unfold resolve_primary_entity, declared_or_first_primary.
  destruct (primary_entity semantic_model) as [declared|]; [done|].
  induction (entities semantic_model) as [|entity rest IH]; [done|].
  cbn [for_break find]. by destruct (EntityType_is (entity_type entity) PRIMARY).
Qed.

Lemma getitem_Some {K V : Type} `{Countable K} (d : gmap K V) (k : K) (v : V) :
  d !! k = Some v -> getitem d k = Ok v.
Proof. unfold getitem. by intros ->. Qed.

Lemma check_dimensions_pair_dimensions safe semantic_model primary_entity
  issues (known_pairings : gmap string (gmap string string)) pairings :
  known_pairings !! primary_entity = Some pairings ->
  check_dimensions safe semantic_model primary_entity issues known_pairings
  = Ok (issues
          ++ (pair_dimensions safe semantic_model primary_entity
                (dimensions semantic_model) pairings).1,
        <[primary_entity :=
            (pair_dimensions safe semantic_model primary_entity
               (dimensions semantic_model) pairings).2]> known_pairings).
Proof.
  unfold check_dimensions. generalize (dimensions semantic_model) as dims.
  intros dims. revert issues known_pairings pairings.
  induction dims as [|dimension rest IH]; intros issues known_pairings pairings Hkey.
  - cbn [for_ pair_dimensions fst snd]. by rewrite app_nil_r, insert_id.
  - cbn [for_ pair_dimensions]. rewrite !(getitem_Some _ _ _ Hkey).
    destruct safe; cbn [mbind result_bind mret result_ret].
    + erewrite IH by apply lookup_insert_eq. by rewrite insert_insert_eq.
    + destruct (pairings !! dimension_name dimension) as [owner|] eqn:Hd;
        cbn [mbind result_bind mret result_ret fst snd].
      * rewrite (getitem_Some _ _ _ Hd). cbn [mbind result_bind mret result_ret].
        erewrite IH by done. by rewrite <-app_assoc.
      * erewrite IH by apply lookup_insert_eq. by rewrite insert_insert_eq.
Qed.

(** What a call of [_check_semantic_model] returns. *)
Lemma check_semantic_model_unresolved semantic_model known_pairings :
  resolve_primary_entity semantic_model = None ->
  _check_semantic_model semantic_model known_pairings = Ok ([], known_pairings).
Proof. unfold _check_semantic_model. by intros ->. Qed.

Lemma check_semantic_model_new semantic_model
  (known_pairings : gmap string (gmap string string)) primary_entity :
  resolve_primary_entity semantic_model = Some primary_entity ->
  known_pairings !! primary_entity = None ->
  _check_semantic_model semantic_model known_pairings
  = Ok ((pair_dimensions true semantic_model primary_entity
           (dimensions semantic_model) ∅).1,
        <[primary_entity :=
            (pair_dimensions true semantic_model primary_entity
               (dimensions semantic_model) ∅).2]> known_pairings).
Proof.
  unfold _check_semantic_model. intros -> ->.
  erewrite check_dimensions_pair_dimensions by apply lookup_insert_eq.
  by rewrite insert_insert_eq.
Qed.

Lemma check_semantic_model_known semantic_model
  (known_pairings : gmap string (gmap string string)) primary_entity pairings :
  resolve_primary_entity semantic_model = Some primary_entity ->
  known_pairings !! primary_entity = Some pairings ->
  _check_semantic_model semantic_model known_pairings
  = Ok ((pair_dimensions false semantic_model primary_entity
           (dimensions semantic_model) pairings).1,
        <[primary_entity :=
            (pair_dimensions false semantic_model primary_entity
               (dimensions semantic_model) pairings).2]> known_pairings).
Proof.
  unfold _check_semantic_model. intros -> Hkey. rewrite Hkey.
  by erewrite check_dimensions_pair_dimensions.
Qed.

Lemma pair_dimensions_safe_issues semantic_model primary_entity dims pairings :
  (pair_dimensions true semantic_model primary_entity dims pairings).1 = [].
Proof.
  revert pairings. induction dims as [|dimension rest IH]; intros pairings; [done|].
  apply IH.
Qed.

Lemma pair_dimensions_lookup safe semantic_model primary_entity dims pairings d :
  is_Some ((pair_dimensions safe semantic_model primary_entity dims pairings).2 !! d)
  <-> is_Some (pairings !! d) \/ d ∈ map dimension_name dims.
Proof.
  revert pairings. induction dims as [|dimension rest IH]; intros pairings.
  - cbn. rewrite elem_of_nil. tauto.
  - cbn [pair_dimensions map]. rewrite elem_of_cons.
    destruct (if safe then None else pairings !! dimension_name dimension)
      as [owner|] eqn:Hd.
    + cbn [snd]. rewrite IH. destruct safe; [done|].
      split; [tauto|]. intros [?|[->|?]]; [tauto| |tauto]. left. by rewrite Hd.
    + rewrite IH. rewrite lookup_insert_is_Some. 
      destruct (decide (dimension_name dimension = d)) as [->|Hne]; [tauto|].
      split; [intros [[?|[_ ?]]|?]; tauto|]. intros [?|[?|?]]; [|congruence|tauto].
      left. right. done.
Qed.

Lemma check_semantic_model_unconditional_lookup_unresolved semantic_model
  known_pairings :
  resolve_primary_entity semantic_model = None ->
  _check_semantic_model_unconditional_lookup semantic_model known_pairings
  = Ok ([], known_pairings).
Proof. unfold _check_semantic_model_unconditional_lookup. by intros ->. Qed.

Lemma check_semantic_model_unconditional_lookup_new semantic_model
  (known_pairings : gmap string (gmap string string)) primary_entity :
  resolve_primary_entity semantic_model = Some primary_entity ->
  known_pairings !! primary_entity = None ->
  _check_semantic_model_unconditional_lookup semantic_model known_pairings
  = Ok ((pair_dimensions false semantic_model primary_entity
           (dimensions semantic_model) ∅).1,
        <[primary_entity :=
            (pair_dimensions false semantic_model primary_entity
               (dimensions semantic_model) ∅).2]> known_pairings).
Proof.
  unfold _check_semantic_model_unconditional_lookup. intros -> ->.
  erewrite check_dimensions_pair_dimensions by apply lookup_insert_eq.
  by rewrite insert_insert_eq.
Qed.

Lemma check_semantic_model_unconditional_lookup_known semantic_model
  (known_pairings : gmap string (gmap string string)) primary_entity pairings :
  resolve_primary_entity semantic_model = Some primary_entity ->
  known_pairings !! primary_entity = Some pairings ->
  _check_semantic_model_unconditional_lookup semantic_model known_pairings
  = _check_semantic_model semantic_model known_pairings.
Proof.
  unfold _check_semantic_model_unconditional_lookup, _check_semantic_model.
  intros -> Hkey. by rewrite Hkey.
Qed.

(** On a map that holds nothing but pairings of the model itself, the loop
    leaves the same map with and without the short-circuit. *)
Lemma pair_dimensions_own semantic_model primary_entity dims
  (pairings : gmap string string) :
  (forall d owner, pairings !! d = Some owner -> owner = name semantic_model) ->
  (pair_dimensions true semantic_model primary_entity dims pairings).2
  = (pair_dimensions false semantic_model primary_entity dims pairings).2.
Proof.
  revert pairings. induction dims as [|dimension rest IH]; intros pairings Hown; [done|].
  cbn [pair_dimensions].
  destruct (pairings !! dimension_name dimension) as [owner|] eqn:Hd; cbn [snd].
  - rewrite <-(IH pairings Hown). do 2 f_equal. apply insert_id.
    by rewrite Hd, (Hown _ _ Hd).
  - apply IH. intros d owner. rewrite lookup_insert.
    case_decide; [by intros [= <-]|apply Hown].
Qed.

(** Without the short-circuit the loop adds no issue exactly when the names
    of the dimensions differ from one another and from the names in the map. *)
Lemma pair_dimensions_lookup_no_issue semantic_model primary_entity dims
  (pairings : gmap string string) :
  (pair_dimensions false semantic_model primary_entity dims pairings).1 = []
  <-> NoDup (map dimension_name dims)
      /\ (forall d, d ∈ map dimension_name dims -> pairings !! d = None).
Proof.
  revert pairings. induction dims as [|dimension rest IH]; intros pairings.
  - cbn. split; [|done]. intros _. split; [constructor|]. by intros d ?%elem_of_nil.
  - cbn [pair_dimensions map]. rewrite NoDup_cons.
    destruct (pairings !! dimension_name dimension) as [owner|] eqn:Hd; cbn [fst].
    + split; [done|]. intros [_ Hnone].
      specialize (Hnone (dimension_name dimension)). rewrite Hd in Hnone.
      discriminate Hnone. by left.
    + rewrite IH. split.
      * intros [Hnd Hnone]. repeat split; [|done|].
        -- intros Hin. specialize (Hnone _ Hin). by rewrite lookup_insert_eq in Hnone.
        -- intros d [Heq|Hin]%elem_of_cons; [by subst d|].
           specialize (Hnone _ Hin). rewrite lookup_insert in Hnone.
           by case_decide.
      * intros [[Hnotin Hnd] Hnone]. split; [done|]. intros d Hin.
        rewrite lookup_insert_ne; [apply Hnone; by right|]. by intros <-.
Qed.

End Pairing.

(** ** The registry along the manifest *)
Section Registry.
Import PrimaryEntityDimensionPairs.
Context `{Imports}.

Lemma registry_of_empty : registry_of ∅ [].
Proof.
  split.
  - intros pe. by rewrite lookup_empty.
  - intros pe pairings d. by rewrite lookup_empty.
Qed.

(** A call on the next model keeps the registry in step. *)
Lemma registry_of_step check semantic_model known_pairings before found known_pairings' :
  (check = _check_semantic_model \/ check = _check_semantic_model_unconditional_lookup) ->
  registry_of known_pairings before ->
  check semantic_model known_pairings = Ok (found, known_pairings') ->
  registry_of known_pairings' (before ++ [semantic_model]).
Proof.
  intros Hcheck [Hkeys Hdims] Hrun.
  assert (resolve_primary_entity semantic_model = None /\ known_pairings' = known_pairings
          \/ exists pe safe,
               resolve_primary_entity semantic_model = Some pe
               /\ known_pairings'
                  = <[pe := (pair_dimensions safe semantic_model pe
                               (dimensions semantic_model)
                               (default ∅ (known_pairings !! pe))).2]> known_pairings)
    as Hshape.
  { destruct (resolve_primary_entity semantic_model) as [pe|] eqn:Hpe.
    - right. exists pe.
      destruct (known_pairings !! pe) as [pairings|] eqn:Hkey.
      + exists false. split; [done|].
        destruct Hcheck as [-> | ->].
        * rewrite (check_semantic_model_known _ _ _ _ Hpe Hkey) in Hrun.
          by simplify_eq.
        * rewrite (check_semantic_model_unconditional_lookup_known _ _ _ _ Hpe Hkey),
            (check_semantic_model_known _ _ _ _ Hpe Hkey) in Hrun.
          by simplify_eq.
      + destruct Hcheck as [-> | ->].
        * exists true. rewrite (check_semantic_model_new _ _ _ Hpe Hkey) in Hrun.
          by simplify_eq.
        * exists false.
          rewrite (check_semantic_model_unconditional_lookup_new _ _ _ Hpe Hkey)
            in Hrun.
          by simplify_eq.
    - left. destruct Hcheck as [-> | ->].
      + rewrite (check_semantic_model_unresolved _ _ Hpe) in Hrun. by simplify_eq.
      + rewrite (check_semantic_model_unconditional_lookup_unresolved _ _ Hpe)
          in Hrun.
        by simplify_eq. }
  destruct Hshape as [[Hnone ->]|(pe & safe & Hpe & ->)].
  - split.
    + intros pe'. rewrite Hkeys, Forall_app, Forall_singleton, Hnone.
      intuition congruence.
    + intros pe' pairings d Hkey. rewrite (Hdims _ _ _ Hkey), Exists_app.
      rewrite Exists_cons, Exists_nil, Hnone. intuition congruence.
  - split.
    + intros pe'. rewrite Forall_app, Forall_singleton, <-Hkeys, Hpe.
      rewrite lookup_insert_None. intuition congruence.
    + intros pe' pairings d. rewrite Exists_app, Exists_cons, Exists_nil, Hpe.
      rewrite lookup_insert. case_decide as Hee.
      * subst pe'. intros [= <-]. rewrite pair_dimensions_lookup.
        fold (dimension_names semantic_model).
        destruct (known_pairings !! pe) as [pairings|] eqn:Hkey; cbn [default].
        -- rewrite (Hdims _ _ _ Hkey). intuition congruence.
        -- rewrite lookup_empty. apply Hkeys in Hkey.
           split; [intros [[? [=]]|?]; intuition congruence|].
           intros [Hex|?]; [|intuition congruence]. exfalso.
           apply Exists_exists in Hex as (sm & Hin & Hsm & _).
           by eapply Forall_forall in Hkey; [|done].
      * intros Hkey. rewrite (Hdims _ _ _ Hkey).
        split; [tauto|]. intros [?|[[[= ?] _]|[]]]; [done|congruence].
Qed.

Lemma check_models_cons check semantic_model rest issues
  (known_pairings : gmap string (gmap string string)) :
  check_models check (semantic_model :: rest) issues known_pairings
  = (r ← check semantic_model known_pairings;
     check_models check rest (issues ++ r.1) r.2).
Proof.
  unfold check_models. cbn [for_].
  by destruct (check semantic_model known_pairings) as [[found known_pairings']|].
Qed.

Lemma check_models_app check models models' issues
  (known_pairings : gmap string (gmap string string)) :
  check_models check (models ++ models') issues known_pairings
  = (r ← check_models check models issues known_pairings;
     check_models check models' r.1 r.2).
Proof.
  unfold check_models. rewrite for_app.
  by destruct (for_ models _ _) as [[found known_pairings']|].
Qed.

(** The two versions of the check on one model: they leave the same
    registry, and they find the same issues unless the model is the first to
    resolve to its primary entity and repeats a dimension name. *)
Lemma check_semantic_model_compare semantic_model before known_pairings :
  registry_of known_pairings before ->
  exists found found' known_pairings',
    _check_semantic_model semantic_model known_pairings
    = Ok (found, known_pairings')
    /\ _check_semantic_model_unconditional_lookup semantic_model known_pairings
       = Ok (found', known_pairings')
    /\ length found <= length found'
    /\ (found = found' <->
        (claims_first before semantic_model ->
         NoDup (dimension_names semantic_model))).
Proof.
  intros [Hkeys _].
  destruct (resolve_primary_entity semantic_model) as [pe|] eqn:Hpe.
  - destruct (known_pairings !! pe) as [pairings|] eqn:Hkey.
    + rewrite (check_semantic_model_unconditional_lookup_known _ _ _ _ Hpe Hkey),
        (check_semantic_model_known _ _ _ _ Hpe Hkey).
      eexists _, _, _. repeat split; [done|].
      intros _ (pe' & Hpe' & Hfirst). rewrite Hpe in Hpe'. simplify_eq.
      apply Hkeys in Hfirst. congruence.
    + rewrite (check_semantic_model_unconditional_lookup_new _ _ _ Hpe Hkey),
        (check_semantic_model_new _ _ _ Hpe Hkey).
      rewrite pair_dimensions_safe_issues, pair_dimensions_own
        by (intros d owner; by rewrite lookup_empty).
      eexists _, _, _. repeat split; [cbn; lia|..].
      * intros Hnil _. symmetry in Hnil.
        by apply pair_dimensions_lookup_no_issue in Hnil as [? _].
      * intros Hdistinct. symmetry. apply pair_dimensions_lookup_no_issue.
        split; [|intros; apply lookup_empty].
        apply Hdistinct. exists pe. split; [done|]. by apply Hkeys.
  - rewrite (check_semantic_model_unconditional_lookup_unresolved _ _ Hpe),
      (check_semantic_model_unresolved _ _ Hpe).
    eexists _, _, _. repeat split; [done|]. intros _ (pe & Hpe' & _). congruence.
Qed.

Lemma check_models_compare models before issues issues' known_pairings :
  registry_of known_pairings before ->
  exists found found' known_pairings',
    check_models _check_semantic_model models issues known_pairings
    = Ok (issues ++ found, known_pairings')
    /\ check_models _check_semantic_model_unconditional_lookup models issues'
         known_pairings
       = Ok (issues' ++ found', known_pairings')
    /\ length found <= length found'
    /\ (found = found' <->
        forall b semantic_model a,
          models = b ++ semantic_model :: a ->
          claims_first (before ++ b) semantic_model ->
          NoDup (dimension_names semantic_model)).
Proof.
  revert before issues issues' known_pairings.
  induction models as [|sm rest IH]; intros before issues issues' known_pairings Hreg.
  - exists [], [], known_pairings. rewrite !app_nil_r. repeat split; [done|].
    intros _ b sm a Heq. by destruct b.
  - destruct (check_semantic_model_compare sm before known_pairings Hreg)
      as (f1 & f1' & kp1 & Hrun & Hrun' & Hlen1 & Hiff1).
    assert (registry_of kp1 (before ++ [sm])) as Hreg1.
    { eapply registry_of_step; [by left|done..]. }
    destruct (IH (before ++ [sm]) (issues ++ f1) (issues' ++ f1') kp1 Hreg1)
      as (f2 & f2' & kp2 & Hrest & Hrest' & Hlen2 & Hiff2).
    exists (f1 ++ f2), (f1' ++ f2'), kp2.
    rewrite !check_models_cons, Hrun, Hrun'. cbn [mbind result_bind fst snd].
    rewrite Hrest, Hrest', !app_assoc. repeat split.
    + rewrite !length_app. lia.
    + intros Heq b sm' a Hsplit Hfirst.
      assert (f1 = f1' /\ f2 = f2') as [Heq1 Heq2].
      { apply app_inj_1; [|done].
        apply (f_equal length) in Heq. rewrite !length_app in Heq. lia. }
      destruct b as [|sm0 b]; simplify_eq/=.
      * rewrite app_nil_r in Hfirst. by apply Hiff1.
      * apply (proj1 Hiff2 eq_refl b sm' a eq_refl). by rewrite <-app_assoc.
    + intros Hall. f_equal.
      * apply Hiff1. intros Hfirst. apply (Hall [] sm rest eq_refl).
        by rewrite app_nil_r.
      * apply Hiff2. intros b sm' a -> Hfirst.
        apply (Hall (sm :: b) sm' a eq_refl). by rewrite <-app_assoc in Hfirst.
Qed.

(** C1, as amended: both versions return a list of issues, and the lists are
    the same exactly when every semantic model that is the first to resolve
    to its primary entity declares dimensions of pairwise different names. *)
Theorem validate_manifest_unconditional_lookup_same_issues
  (semantic_manifest : SemanticManifest) :
  (exists issues, validate_manifest semantic_manifest = Ok issues)
  /\ (exists issues,
        validate_manifest_unconditional_lookup semantic_manifest = Ok issues)
  /\ (validate_manifest semantic_manifest
      = validate_manifest_unconditional_lookup semantic_manifest
      <-> first_claims_distinct (semantic_models semantic_manifest)).
Proof.
  unfold validate_manifest, validate_manifest_unconditional_lookup. cbv zeta.
  destruct (check_models_compare (semantic_models semantic_manifest) [] [] [] ∅
              registry_of_empty)
    as (found & found' & kp & -> & -> & _ & Hiff).
  cbn [mbind result_bind mret result_ret app].
  split; [by eexists|]. split; [by eexists|].
  unfold first_claims_distinct. rewrite <-Hiff. split; [by intros [= ->]|by intros ->].
Qed.

(** The issues of one model, when its dimension names differ from one
    another. *)
Lemma check_semantic_model_issue semantic_model before known_pairings found
  known_pairings' :
  registry_of known_pairings before ->
  NoDup (dimension_names semantic_model) ->
  _check_semantic_model semantic_model known_pairings = Ok (found, known_pairings') ->
  found <> [] <-> pairing_taken before semantic_model.
Proof.
  intros [Hkeys Hdims] Hnd Hrun. unfold pairing_taken.
  destruct (resolve_primary_entity semantic_model) as [pe|] eqn:Hpe.
  - destruct (known_pairings !! pe) as [pairings|] eqn:Hkey.
    + rewrite (check_semantic_model_known _ _ _ _ Hpe Hkey) in Hrun.
      injection Hrun as <- _.
      rewrite pair_dimensions_lookup_no_issue. fold (dimension_names semantic_model).
      split.
      * intros Hsome.
        destruct (decide (Forall (fun d => pairings !! d = None)
                            (dimension_names semantic_model))) as [Hall|Hex].
        { destruct Hsome. split; [done|]. by apply Forall_forall. }
        apply not_Forall_Exists in Hex; [|apply _].
        apply Exists_exists in Hex as (d & Hin & Hd). exists pe, d.
        repeat split; [done|]. apply (Hdims _ _ _ Hkey).
        by apply not_eq_None_Some.
      * intros (pe' & d & [= <-] & Hin & Hex) [_ Hnone].
        apply (Hdims _ _ _ Hkey) in Hex as [owner Hex]. rewrite Hnone in Hex; done.
    + rewrite (check_semantic_model_new _ _ _ Hpe Hkey) in Hrun.
      injection Hrun as <- _. rewrite pair_dimensions_safe_issues.
      split; [done|]. intros (pe' & d & [= <-] & _ & Hex).
      apply Hkeys in Hkey. apply Exists_exists in Hex as (sm & Hin & Hsm & _).
      by eapply Forall_forall in Hkey.
  - rewrite (check_semantic_model_unresolved _ _ Hpe) in Hrun.
    injection Hrun as <- _. split; [done|]. by intros (pe & d & [=] & _).
Qed.

Lemma check_semantic_model_total semantic_model known_pairings :
  exists found known_pairings',
    _check_semantic_model semantic_model known_pairings = Ok (found, known_pairings').
Proof.
  destruct (resolve_primary_entity semantic_model) as [pe|] eqn:Hpe.
  - destruct (known_pairings !! pe) as [pairings|] eqn:Hkey.
    + rewrite (check_semantic_model_known _ _ _ _ Hpe Hkey). by eexists _, _.
    + rewrite (check_semantic_model_new _ _ _ Hpe Hkey). by eexists _, _.
  - rewrite (check_semantic_model_unresolved _ _ Hpe). by eexists _, _.
Qed.

Lemma check_models_issues models before issues known_pairings :
  registry_of known_pairings before ->
  Forall (fun sm => NoDup (dimension_names sm)) models ->
  exists found known_pairings',
    check_models _check_semantic_model models issues known_pairings
    = Ok (issues ++ found, known_pairings')
    /\ (found <> [] <->
        exists b semantic_model a,
          models = b ++ semantic_model :: a
          /\ pairing_taken (before ++ b) semantic_model).
Proof.
  revert before issues known_pairings.
  induction models as [|sm rest IH]; intros before issues known_pairings Hreg Hnd.
  - exists [], known_pairings. rewrite app_nil_r. split; [done|].
    split; [done|]. intros (b & sm & a & Heq & _). by destruct b.
  - apply Forall_cons in Hnd as [Hnd1 Hnd].
    destruct (check_semantic_model_total sm known_pairings) as (f1 & kp1 & Hrun).
    pose proof (check_semantic_model_issue _ _ _ _ _ Hreg Hnd1 Hrun) as Hiff1.
    assert (registry_of kp1 (before ++ [sm])) as Hreg1.
    { eapply registry_of_step; [by left|done..]. }
    destruct (IH (before ++ [sm]) (issues ++ f1) kp1 Hreg1 Hnd)
      as (f2 & kp2 & Hrest & Hiff2).
    exists (f1 ++ f2), kp2.
    rewrite check_models_cons, Hrun. cbn [mbind result_bind fst snd].
    rewrite Hrest, app_assoc. split; [done|]. split.
    + intros Hsome. destruct f1 as [|i f1].
      * destruct (proj1 Hiff2 Hsome) as (b & sm' & a & -> & Htaken).
        exists (sm :: b), sm', a. split; [done|]. by rewrite <-app_assoc in Htaken.
      * exists [], sm, rest. split; [done|]. rewrite app_nil_r. by apply Hiff1.
    + intros (b & sm' & a & Heq & Htaken). destruct b as [|sm0 b]; simplify_eq/=.
      * rewrite app_nil_r in Htaken. apply Hiff1 in Htaken. by destruct f1.
      * assert (f2 <> []) as Hf2.
        { apply Hiff2. exists b, sm', a. split; [done|]. by rewrite <-app_assoc. }
        by destruct f1, f2.
Qed.

Lemma pairing_taken_shared_pairing (models : list SemanticModel) :
  (exists b semantic_model a,
     models = b ++ semantic_model :: a /\ pairing_taken b semantic_model)
  <-> shared_pairing models.
Proof.
  unfold shared_pairing, pairing_taken. split.
  - intros (b & sm' & a & -> & pe & d & Hpe & Hd & Hex).
    apply Exists_exists in Hex as (sm & Hin & Hsm & Hdsm).
    apply list_elem_of_lookup in Hin as [i Hi].
    exists i, (length b), sm, sm', pe, d. repeat split; try done.
    + by eapply lookup_lt_Some.
    + rewrite lookup_app_l; [done|]. by eapply lookup_lt_Some.
    + by rewrite list_lookup_middle.
  - intros (i & j & sm & sm' & pe & d & Hlt & Hi & Hj & Hpe & Hpe' & Hd & Hd').
    exists (take j models), sm', (drop (S j) models).
    split; [by rewrite take_drop_middle|].
    exists pe, d. repeat split; [done..|].
    apply Exists_exists. exists sm. repeat split; [|done..].
    apply list_elem_of_lookup. exists i. by rewrite lookup_take_lt.
Qed.

Lemma contains_append (a s sub : string) : contains s sub -> contains (a +:+ s) sub.
Proof.
  intros (before & after & ->). exists (a +:+ before), after.
  by rewrite append_assoc.
Qed.

Lemma contains_head (sub after : string) : contains (sub +:+ after) sub.
Proof. by exists "", after. Qed.

Lemma pairing_message_names_both model_name primary_entity dimension owner :
  contains (pairing_message model_name primary_entity dimension owner) model_name
  /\ contains (pairing_message model_name primary_entity dimension owner) owner.
Proof.
  unfold pairing_message. split.
  - do 2 apply contains_append. apply contains_head.
  - do 10 apply contains_append. apply contains_head.
Qed.

(** The issues of one model, whatever its dimensions are named. *)
Lemma check_semantic_model_issue_cause semantic_model before known_pairings found
  known_pairings' :
  registry_of known_pairings before ->
  _check_semantic_model semantic_model known_pairings = Ok (found, known_pairings') ->
  found <> [] <->
  pairing_taken before semantic_model \/ repeats_after_claim before semantic_model.
Proof.
  intros Hreg Hrun. pose proof Hreg as [Hkeys Hdims].
  destruct (decide (NoDup (dimension_names semantic_model))) as [Hnd|Hnd].
  { rewrite (check_semantic_model_issue _ _ _ _ _ Hreg Hnd Hrun).
    split; [by left|]. by intros [?|(pe & _ & _ & ?)]. }
  destruct (resolve_primary_entity semantic_model) as [pe|] eqn:Hpe.
  - destruct (known_pairings !! pe) as [pairings|] eqn:Hkey.
    + rewrite (check_semantic_model_known _ _ _ _ Hpe Hkey) in Hrun.
      injection Hrun as <- _. split.
      * intros _. right. exists pe. split; [done|]. split; [|done].
        destruct (decide (Forall (fun sm => resolve_primary_entity sm <> Some pe)
                            before)) as [Hall|Hnot].
        -- apply Hkeys in Hall. congruence.
        -- apply not_Forall_Exists in Hnot; [|apply _].
           eapply Exists_impl; [done|]. cbn beta. intros sm Hsm.
           by destruct (decide (resolve_primary_entity sm = Some pe)).
      * intros _ Hnil. by apply pair_dimensions_lookup_no_issue in Hnil as [? _].
    + rewrite (check_semantic_model_new _ _ _ Hpe Hkey) in Hrun.
      injection Hrun as <- _. rewrite pair_dimensions_safe_issues.
      apply Hkeys in Hkey. split; [done|].
      intros [(pe' & d & Hpe' & _ & Hex)|(pe' & Hpe' & Hex & _)];
        rewrite Hpe in Hpe'; injection Hpe' as <-;
        apply Exists_exists in Hex as (sm & Hin & Hsm);
        pose proof (proj1 (Forall_forall _ _) Hkey sm Hin) as Hne; cbn beta in Hne;
        tauto.
  - rewrite (check_semantic_model_unresolved _ _ Hpe) in Hrun.
    injection Hrun as <- _. split; [done|].
    intros [(pe & d & Hpe' & _)|(pe & Hpe' & _)]; congruence.
Qed.

Lemma check_models_issue_cause models before issues known_pairings :
  registry_of known_pairings before ->
  exists found known_pairings',
    check_models _check_semantic_model models issues known_pairings
    = Ok (issues ++ found, known_pairings')
    /\ (found <> [] <->
        exists b semantic_model a,
          models = b ++ semantic_model :: a
          /\ (pairing_taken (before ++ b) semantic_model
              \/ repeats_after_claim (before ++ b) semantic_model)).
Proof.
  revert before issues known_pairings.
  induction models as [|sm rest IH]; intros before issues known_pairings Hreg.
  - exists [], known_pairings. rewrite app_nil_r. split; [done|].
    split; [done|]. intros (b & sm & a & Heq & _). by destruct b.
  - destruct (check_semantic_model_total sm known_pairings) as (f1 & kp1 & Hrun).
    pose proof (check_semantic_model_issue_cause _ _ _ _ _ Hreg Hrun) as Hiff1.
    assert (registry_of kp1 (before ++ [sm])) as Hreg1.
    { eapply registry_of_step; [by left|done..]. }
    destruct (IH (before ++ [sm]) (issues ++ f1) kp1 Hreg1)
      as (f2 & kp2 & Hrest & Hiff2).
    exists (f1 ++ f2), kp2.
    rewrite check_models_cons, Hrun. cbn [mbind result_bind fst snd].
    rewrite Hrest, app_assoc. split; [done|]. split.
    + intros Hsome. destruct f1 as [|i f1].
      * destruct (proj1 Hiff2 Hsome) as (b & sm' & a & -> & Hcause).
        exists (sm :: b), sm', a. split; [done|]. by rewrite <-app_assoc in Hcause.
      * exists [], sm, rest. split; [done|]. rewrite app_nil_r. by apply Hiff1.
    + intros (b & sm' & a & Heq & Hcause). destruct b as [|sm0 b]; simplify_eq/=.
      * rewrite app_nil_r in Hcause. apply Hiff1 in Hcause. by destruct f1.
      * assert (f2 <> []) as Hf2.
        { apply Hiff2. exists b, sm', a. split; [done|]. by rewrite <-app_assoc. }
        by destruct f1, f2.
Qed.

(** C2: the rule reports an error whenever two semantic models use the same
    pair of a primary entity and a dimension name.  Two models that resolve
    to [host] and each declare the one dimension [created_at] get exactly
    one error, on the second model, whose message names both models; two
    models that resolve to different primary entities and both declare
    [created_at] get no error.  The rule reports an error without such a
    pair in one case only: a model that is not the first to resolve to its
    primary entity and declares two dimensions of the same name is reported
    against itself, which the first model of a primary entity never is; so
    does the second of two models that share nothing but the primary
    entity, when it declares a dimension twice. *)
Theorem validate_manifest_errors_for_shared_pairings
  (semantic_manifest : SemanticManifest) :
  (exists issues,
     validate_manifest semantic_manifest = Ok issues
     /\ (shared_pairing (semantic_models semantic_manifest) -> issues <> [])
     /\ (issues <> [] <->
         shared_pairing (semantic_models semantic_manifest)
         \/ later_model_repeats_dimension (semantic_models semantic_manifest)))
  /\ (forall A B dimension_A dimension_B,
        semantic_models semantic_manifest = [A; B] ->
        resolve_primary_entity A = Some "host" ->
        resolve_primary_entity B = Some "host" ->
        dimensions A = [dimension_A] -> dimensions B = [dimension_B] ->
        dimension_name dimension_A = "created_at" ->
        dimension_name dimension_B = "created_at" ->
        exists issue,
          validate_manifest semantic_manifest = Ok [issue]
          /\ issue = pairing_error B "host" dimension_B (name A)
          /\ contains (issue_message issue) (name A)
          /\ contains (issue_message issue) (name B))
  /\ (forall A B primary_entity_A primary_entity_B,
        semantic_models semantic_manifest = [A; B] ->
        resolve_primary_entity A = Some primary_entity_A ->
        resolve_primary_entity B = Some primary_entity_B ->
        primary_entity_A <> primary_entity_B ->
        "created_at" ∈ dimension_names A -> "created_at" ∈ dimension_names B ->
        validate_manifest semantic_manifest = Ok [])
  /\ (forall first later dimension_1 dimension_2 pe,
        semantic_models semantic_manifest = [first; later] ->
        resolve_primary_entity first = Some pe ->
        resolve_primary_entity later = Some pe ->
        dimensions later = [dimension_1; dimension_2] ->
        dimension_name dimension_2 = dimension_name dimension_1 ->
        dimension_name dimension_1 ∉ dimension_names first ->
        validate_manifest semantic_manifest
        = Ok [pairing_error later pe dimension_2 (name later)]
        /\ ~ shared_pairing (semantic_models semantic_manifest)).
Proof.
  split; [|split; [|split]].
  - unfold validate_manifest. cbv zeta.
    destruct (check_models_issue_cause (semantic_models semantic_manifest) [] [] ∅
                registry_of_empty) as (found & kp & -> & Hiff).
    cbn [mbind result_bind mret result_ret app]. exists found. split; [done|].
    assert (found <> [] <->
            shared_pairing (semantic_models semantic_manifest)
            \/ later_model_repeats_dimension (semantic_models semantic_manifest))
      as Hcause.
    { rewrite Hiff, <-pairing_taken_shared_pairing.
      unfold later_model_repeats_dimension. cbn [app]. split.
      - intros (b & sm & a & Heq & [?|?]); [left|right]; by exists b, sm, a.
      - intros [(b & sm & a & Heq & ?)|(b & sm & a & Heq & ?)];
          exists b, sm, a; (split; [done|]); [by left|by right]. }
    split; [|done]. intros Hshared. apply Hcause. by left.
  - intros A B dA dB Hmodels HA HB HdA HdB HnA HnB. eexists.
    split; [|split; [reflexivity|split; apply pairing_message_names_both]].
    unfold validate_manifest. cbv zeta. rewrite Hmodels, check_models_cons.
    rewrite (check_semantic_model_new _ _ _ HA (lookup_empty _)).
    cbn [mbind result_bind fst snd]. rewrite check_models_cons.
    erewrite check_semantic_model_known; [|done|apply lookup_insert_eq].
    rewrite HdA, HdB. cbn [pair_dimensions fst snd].
    rewrite HnA, HnB, lookup_insert_eq. reflexivity.
  - intros A B peA peB Hmodels HA HB Hne _ _.
    unfold validate_manifest. cbv zeta. rewrite Hmodels, check_models_cons.
    rewrite (check_semantic_model_new _ _ _ HA (lookup_empty _)).
    cbn [mbind result_bind fst snd]. rewrite check_models_cons.
    rewrite (check_semantic_model_new _ _ _ HB)
      by (rewrite lookup_insert_ne by done; apply lookup_empty).
    cbn [mbind result_bind fst snd]. by rewrite !pair_dimensions_safe_issues.
  - intros first later d1 d2 pe Hmodels Hfirst Hlater Hdims Hsame Hnotin. split.
    + unfold validate_manifest. cbv zeta. rewrite Hmodels, check_models_cons.
      rewrite (check_semantic_model_new _ _ _ Hfirst (lookup_empty _)).
      cbn [mbind result_bind fst snd]. rewrite check_models_cons.
      erewrite check_semantic_model_known; [|done|apply lookup_insert_eq].
      rewrite Hdims, pair_dimensions_safe_issues. cbn [pair_dimensions].
      assert ((pair_dimensions true first pe (dimensions first) ∅).2
                !! dimension_name d1 = None) as Hnone.
      { apply eq_None_not_Some. rewrite pair_dimensions_lookup.
        intros [[? Hempty]|?]; [by rewrite lookup_empty in Hempty|done]. }
      rewrite Hnone, Hsame, lookup_insert_eq. reflexivity.
    + intros (i & j & sm & sm' & pe' & d & Hlt & Hi & Hj & _ & _ & Hd & Hd').
      rewrite Hmodels in Hi, Hj.
      destruct i as [|[|i]], j as [|[|j]]; simplify_eq/=; try lia.
      unfold dimension_names in Hd'. rewrite Hdims in Hd'. cbn [map] in Hd'.
      rewrite Hsame in Hd'.
      apply elem_of_cons in Hd' as [->|Hd']; [done|].
      apply elem_of_cons in Hd' as [->|Hd']; [done|]. by apply elem_of_nil in Hd'.
Qed.

(** C8: the primary entity of a semantic model is the declared one, else the
    name of its first entity of type [PRIMARY].  A model with neither is
    skipped: the call returns no issue and the registry as it was, and the
    manifest is validated as if the model were not in it.  Otherwise the
    call registers the dimensions of the model under that primary entity
    and leaves the maps of the other primary entities alone. *)
Theorem check_semantic_model_primary_entity (semantic_model : SemanticModel)
  (known_pairings : gmap string (gmap string string)) :
  resolve_primary_entity semantic_model = declared_or_first_primary semantic_model
  /\ (resolve_primary_entity semantic_model = None ->
      _check_semantic_model semantic_model known_pairings = Ok ([], known_pairings)
      /\ forall before after metrics_,
          validate_manifest
            {| semantic_models := before ++ semantic_model :: after;
               metrics := metrics_ |}
          = validate_manifest
              {| semantic_models := before ++ after; metrics := metrics_ |})
  /\ (forall pe,
        resolve_primary_entity semantic_model = Some pe ->
        exists found known_pairings' pairings,
          _check_semantic_model semantic_model known_pairings
          = Ok (found, known_pairings')
          /\ known_pairings' !! pe = Some pairings
          /\ (forall d, d ∈ dimension_names semantic_model -> is_Some (pairings !! d))
          /\ (forall pe', pe' <> pe -> known_pairings' !! pe' = known_pairings !! pe')).
Proof.
  split; [apply resolve_primary_entity_declared_or_first_primary|]. split.
  - intros Hnone. split; [by apply check_semantic_model_unresolved|].
    intros before after metrics_. unfold validate_manifest. cbv zeta.
    cbn [semantic_models]. rewrite !check_models_app.
    destruct (check_models _ before [] ∅) as [[issues kp]|]; [|done].
    cbn [mbind result_bind fst snd].
    rewrite check_models_cons, (check_semantic_model_unresolved _ _ Hnone).
    cbn [mbind result_bind fst snd]. by rewrite app_nil_r.
  - intros pe Hpe. destruct (known_pairings !! pe) as [pairings|] eqn:Hkey.
    + rewrite (check_semantic_model_known _ _ _ _ Hpe Hkey).
      eexists _, _, _. split; [done|]. split; [apply lookup_insert_eq|]. split.
      * intros d Hd. apply pair_dimensions_lookup. by right.
      * intros pe' Hne. by rewrite lookup_insert_ne.
    + rewrite (check_semantic_model_new _ _ _ Hpe Hkey).
      eexists _, _, _. split; [done|]. split; [apply lookup_insert_eq|]. split.
      * intros d Hd. apply pair_dimensions_lookup. by right.
      * intros pe' Hne. by rewrite lookup_insert_ne.
Qed.

End Registry.

(** ** The rules on a store *)
Section StoreRules.
Import Store.
Context `{Imports}.
Implicit Types h : gmap loc object.

Lemma returns_ret {A : Type} (a : A) h (Q : A -> gmap loc object -> Prop) :
  Q a h -> returns (mret a) h Q.
Proof. intros HQ. by exists a, h. Qed.

Lemma returns_bind {A B : Type} (c : M A) (f : A -> M B) h
  (Q : B -> gmap loc object -> Prop) :
  returns c h (fun a h' => returns (f a) h' Q) -> returns (c ≫= f) h Q.
Proof.
  intros (a & h' & Hc & b & h'' & Hf & HQ). exists b, h''. split; [|done].
  unfold mbind, M_bind. by rewrite Hc.
Qed.

Lemma returns_mono {A : Type} (c : M A) h (Q Q' : A -> gmap loc object -> Prop) :
  returns c h Q -> (forall a h', Q a h' -> Q' a h') -> returns c h Q'.
Proof. intros (a & h' & Hc & HQ) Himp. exists a, h'. eauto. Qed.

Lemma returns_alloc (o : object) h (Q : loc -> gmap loc object -> Prop) :
  (forall l, h !! l = None -> Q l (<[l := o]> h)) -> returns (alloc o) h Q.
Proof.
  intros HQ. eexists _, _. split; [done|]. apply HQ.
  apply not_elem_of_dom, is_fresh.
Qed.

Lemma returns_store (l : loc) (o : object) h (Q : unit -> gmap loc object -> Prop) :
  Q tt (<[l := o]> h) -> returns (store l o) h Q.
Proof. intros HQ. by eexists _, _. Qed.

Lemma returns_lift {A : Type} (r : result A) (a : A) h
  (Q : A -> gmap loc object -> Prop) :
  r = Ok a -> Q a h -> returns (lift r) h Q.
Proof. intros -> HQ. by eexists _, _. Qed.

Lemma returns_load (l : loc) (o : object) h (Q : object -> gmap loc object -> Prop) :
  h !! l = Some o -> Q o h -> returns (load l) h Q.
Proof. intros Hl HQ. exists o, h. split; [|done]. unfold load. by rewrite Hl. Qed.

Lemma returns_manifest_of l m h (Q : SemanticManifest -> gmap loc object -> Prop) :
  h !! l = Some (Manifest m) -> Q m h -> returns (manifest_of l) h Q.
Proof.
  intros Hl HQ. apply returns_bind. eapply returns_load; [done|]. by apply returns_ret.
Qed.

Lemma returns_issues_of l i h (Q : list ValidationIssue -> gmap loc object -> Prop) :
  h !! l = Some (Issues i) -> Q i h -> returns (issues_of l) h Q.
Proof.
  intros Hl HQ. apply returns_bind. eapply returns_load; [done|]. by apply returns_ret.
Qed.

Lemma returns_elements_of l e h
  (Q : list UniqueAndValidNameRule.element_info -> gmap loc object -> Prop) :
  h !! l = Some (Elements e) -> Q e h -> returns (elements_of l) h Q.
Proof.
  intros Hl HQ. apply returns_bind. eapply returns_load; [done|]. by apply returns_ret.
Qed.

Lemma returns_objects_of l e h
  (Q : list UniqueAndValidNameRule.object_info -> gmap loc object -> Prop) :
  h !! l = Some (Objects e) -> Q e h -> returns (objects_of l) h Q.
Proof.
  intros Hl HQ. apply returns_bind. eapply returns_load; [done|]. by apply returns_ret.
Qed.

Lemma returns_types_by_reference_of l d h
  (Q : gmap ElementReference string -> gmap loc object -> Prop) :
  h !! l = Some (TypesByReference d) -> Q d h -> returns (types_by_reference_of l) h Q.
Proof.
  intros Hl HQ. apply returns_bind. eapply returns_load; [done|]. by apply returns_ret.
Qed.

Lemma returns_strings_of l d h (Q : gmap string string -> gmap loc object -> Prop) :
  h !! l = Some (Strings d) -> Q d h -> returns (strings_of l) h Q.
Proof.
  intros Hl HQ. apply returns_bind. eapply returns_load; [done|]. by apply returns_ret.
Qed.

Lemma returns_names_of l s h (Q : gset string -> gmap loc object -> Prop) :
  h !! l = Some (Names s) -> Q s h -> returns (names_of l) h Q.
Proof.
  intros Hl HQ. apply returns_bind. eapply returns_load; [done|]. by apply returns_ret.
Qed.

Lemma returns_registry_of_object l d h (Q : gmap string loc -> gmap loc object -> Prop) :
  h !! l = Some (Registry d) -> Q d h -> returns (registry_of_object l) h Q.
Proof.
  intros Hl HQ. apply returns_bind. eapply returns_load; [done|]. by apply returns_ret.
Qed.

Lemma returns_read {A : Type} manifest m (attribute : SemanticManifest -> A) h
  (Q : A -> gmap loc object -> Prop) :
  h !! manifest = Some (Manifest m) -> Q (attribute m) h ->
  returns (read manifest attribute) h Q.
Proof.
  intros Hl HQ. apply returns_bind. eapply returns_manifest_of; [done|].
  by apply returns_ret.
Qed.

Lemma returns_read_model {A : Type} manifest m i semantic_model
  (attribute : SemanticModel -> A) h (Q : A -> gmap loc object -> Prop) :
  h !! manifest = Some (Manifest m) ->
  semantic_models m !! i = Some semantic_model ->
  Q (attribute semantic_model) h ->
  returns (read_model manifest i attribute) h Q.
Proof.
  intros Hl Hi HQ. apply returns_bind. eapply returns_manifest_of; [done|].
  rewrite Hi. by apply returns_ret.
Qed.

Lemma returns_append_issue l i issue h (Q : unit -> gmap loc object -> Prop) :
  h !! l = Some (Issues i) -> Q tt (<[l := Issues (i ++ [issue])]> h) ->
  returns (append_issue l issue) h Q.
Proof.
  intros Hl HQ. apply returns_bind. eapply returns_issues_of; [done|].
  by apply returns_store.
Qed.

Lemma returns_extend_issues l i found i' h (Q : unit -> gmap loc object -> Prop) :
  h !! l = Some (Issues i) -> h !! found = Some (Issues i') ->
  Q tt (<[l := Issues (i ++ i')]> h) ->
  returns (extend_issues l found) h Q.
Proof.
  intros Hl Hf HQ. apply returns_bind. eapply returns_issues_of; [done|].
  apply returns_bind. eapply returns_issues_of; [done|]. by apply returns_store.
Qed.

Lemma returns_append_element l e x h (Q : unit -> gmap loc object -> Prop) :
  h !! l = Some (Elements e) -> Q tt (<[l := Elements (e ++ [x])]> h) ->
  returns (append_element l x) h Q.
Proof.
  intros Hl HQ. apply returns_bind. eapply returns_elements_of; [done|].
  by apply returns_store.
Qed.

Lemma returns_append_object l e x h (Q : unit -> gmap loc object -> Prop) :
  h !! l = Some (Objects e) -> Q tt (<[l := Objects (e ++ [x])]> h) ->
  returns (append_object l x) h Q.
Proof.
  intros Hl HQ. apply returns_bind. eapply returns_objects_of; [done|].
  by apply returns_store.
Qed.

(** A loop, with an invariant of the number of rounds made. *)
Lemma returns_each {A : Type} (xs : list A) (body : A -> M unit)
  (I : nat -> gmap loc object -> Prop) h (Q : unit -> gmap loc object -> Prop) :
  I 0 h ->
  (forall k x hc, xs !! k = Some x -> I k hc ->
                  returns (body x) hc (fun _ hc' => I (S k) hc')) ->
  (forall hc, I (length xs) hc -> Q tt hc) ->
  returns (each xs body) h Q.
Proof.
  revert I h. induction xs as [|x xs IH]; intros I h Hstart Hstep Hend.
  - apply returns_ret. by apply Hend.
  - cbn [each]. apply returns_bind.
    eapply returns_mono; [by apply (Hstep 0 x h)|].
    intros [] hc Hone. apply (IH (fun k => I (S k))); [done| |done].
    intros k y hc' Hk. by apply (Hstep (S k)).
Qed.

(** Writing to a place the store [h] did not use keeps [h] within. *)
Lemma subseteq_insert_new h hc (l : loc) (o : object) :
  h ⊆ hc -> h !! l = None -> h ⊆ <[l := o]> hc.
Proof. intros Hsub Hl. by apply insert_subseteq_r. Qed.

End StoreRules.

(** ** A rule and its counterpart on a store, side by side *)
Section Simulation.
Import Store.
Context `{Imports}.
Implicit Types h : gmap loc object.

Lemma simulates_ret {A B : Type} (a : A) (b : B) h
  (Q : A -> B -> gmap loc object -> Prop) :
  Q a b h -> simulates (mret a) (mret b) h Q.
Proof. intros HQ. exists a. split; [done|]. by apply returns_ret. Qed.

Lemma simulates_bind {A A' B B' : Type} (p : result A) (fp : A -> result A')
  (c : M B) (fc : B -> M B') h (Q : A' -> B' -> gmap loc object -> Prop) :
  simulates p c h (fun a b h' => simulates (fp a) (fc b) h' Q) ->
  simulates (p ≫= fp) (c ≫= fc) h Q.
Proof.
  intros (a & -> & b & h' & Hc & a' & Hfp & Hfc). exists a'. split; [done|].
  apply returns_bind. by exists b, h'.
Qed.

(** A step of the store that the rule without a store does not have. *)
Lemma simulates_step {A B B' : Type} (p : result A) (c : M B) (fc : B -> M B') h
  (Q : A -> B' -> gmap loc object -> Prop) :
  returns c h (fun b h' => simulates p (fc b) h' Q) -> simulates p (c ≫= fc) h Q.
Proof.
  intros (b & h' & Hc & a & Hp & Hfc). exists a. split; [done|].
  apply returns_bind. by exists b, h'.
Qed.

Lemma simulates_mono {A B : Type} (p : result A) (c : M B) h
  (Q Q' : A -> B -> gmap loc object -> Prop) :
  simulates p c h Q -> (forall a b h', Q a b h' -> Q' a b h') -> simulates p c h Q'.
Proof.
  intros (a & Hp & Hc) Himp. exists a. split; [done|].
  eapply returns_mono; [done|]. intros b h'. apply Himp.
Qed.

Lemma simulates_for {X St : Type} (xs : list X) (bp : St -> X -> result St)
  (bc : X -> M unit) (R : St -> gmap loc object -> Prop) s h
  (Q : St -> unit -> gmap loc object -> Prop) :
  R s h ->
  (forall x s hc, x ∈ xs -> R s hc ->
                  simulates (bp s x) (bc x) hc (fun s' _ hc' => R s' hc')) ->
  (forall s' h', R s' h' -> Q s' tt h') ->
  simulates (for_ xs bp s) (each xs bc) h Q.
Proof.
  intros Hstart Hstep Hend. revert s h Hstart.
  induction xs as [|x xs IH]; intros s h Hstart.
  - apply simulates_ret. by apply Hend.
  - cbn [for_ each]. apply simulates_bind.
    eapply simulates_mono; [apply Hstep; [by left|done]|].
    intros s' [] h' HR. apply IH; [|done].
    intros y s0 hc Hy. apply Hstep. by right.
Qed.

(** The same loop, the store running over the places of the elements. *)
Lemma simulates_for_places {X St : Type} (xs : list X) (bp : St -> X -> result St)
  (bc : nat -> M unit) (R : St -> gmap loc object -> Prop) s h
  (Q : St -> unit -> gmap loc object -> Prop) :
  R s h ->
  (forall i x s hc, xs !! i = Some x -> R s hc ->
                    simulates (bp s x) (bc i) hc (fun s' _ hc' => R s' hc')) ->
  (forall s' h', R s' h' -> Q s' tt h') ->
  simulates (for_ xs bp s) (each (seq 0 (length xs)) bc) h Q.
Proof.
  intros Hstart Hstep Hend.
  enough (forall rest before s h,
            xs = before ++ rest -> R s h ->
            simulates (for_ rest bp s) (each (seq (length before) (length rest)) bc) h Q)
    as Hgen by by apply (Hgen xs []).
  clear s h Hstart. induction rest as [|x rest IH]; intros before s h Hsplit Hstart.
  - apply simulates_ret. by apply Hend.
  - cbn [for_ each seq length]. apply simulates_bind.
    eapply simulates_mono.
    { apply (Hstep (length before) x); [|done]. subst xs. apply list_lookup_middle.
      done. }
    intros s' [] h' HR.
    replace (S (length before)) with (length (before ++ [x]))
      by (rewrite length_app; cbn; lia).
    apply IH; [|done]. by rewrite <-app_assoc.
Qed.

(** The store goes on after the rule without a store has its result. *)
Lemma simulates_then {A B B' : Type} (p : result A) (c : M B) (fc : B -> M B') h
  (Q : A -> B' -> gmap loc object -> Prop) :
  simulates p c h (fun a b h' => returns (fc b) h' (Q a)) ->
  simulates p (c ≫= fc) h Q.
Proof.
  intros (a & Hp & b & h' & Hc & Hfc). exists a. split; [done|].
  apply returns_bind. by exists b, h'.
Qed.

Lemma simulates_returns {A B : Type} (a : A) (c : M B) h
  (Q : A -> B -> gmap loc object -> Prop) :
  returns c h (Q a) -> simulates (mret a) c h Q.
Proof. intros Hc. by exists a. Qed.

End Simulation.
(** ** [UniqueAndValidNameRule] on a store *)
Section NameRuleStore.
Import Store UniqueAndValidNameRule.
Context `{Imports, PyStr}.
Implicit Types h : gmap loc object.

Lemma check_valid_name_store name_ context h :
  returns (UniqueAndValidNameRule_store.check_valid_name name_ context) h
    (fresh_issues h (valid_name_issues name_ context)).
Proof.
  unfold UniqueAndValidNameRule_store.check_valid_name, valid_name_issues.
  apply returns_bind, returns_alloc. intros l Hl.
  apply returns_bind.
  eapply (returns_mono _ _
            (fun _ h' =>
               h ⊆ h' /\ h' !! l
               = Some (Issues (if Re.matches NAME_REGEX name_ then []
                               else [ValidationError context (syntax_message name_)])))).
  { destruct (Re.matches NAME_REGEX name_); cbn [negb].
    - apply returns_ret. split; [by apply insert_subseteq|apply lookup_insert_eq].
    - eapply returns_append_issue; [apply lookup_insert_eq|].
      split; [|apply lookup_insert_eq].
      apply subseteq_insert_new; [by apply insert_subseteq|done]. }
  intros [] h1 [Hsub1 Hl1]. apply returns_bind.
  eapply (returns_mono _ _
            (fun _ h' =>
               h ⊆ h' /\ h' !! l
               = Some (Issues
                         ((if Re.matches NAME_REGEX name_ then []
                           else [ValidationError context (syntax_message name_)])
                          ++ (if bool_decide (str_upper name_ ∈ TimeGranularity_list_names)
                              then [ValidationError context
                                      (granularity_message TimeGranularity_list_names
                                         name_)]
                              else []))))).
  { case_bool_decide.
    - eapply returns_append_issue; [done|].
      split; [by apply subseteq_insert_new|apply lookup_insert_eq].
    - apply returns_ret. by rewrite app_nil_r. }
  intros [] h2 [Hsub2 Hl2]. apply returns_bind.
  eapply (returns_mono _ _
            (fun _ h' =>
               h ⊆ h' /\ h' !! l
               = Some (Issues
                         ((if Re.matches NAME_REGEX name_ then []
                           else [ValidationError context (syntax_message name_)])
                          ++ (if bool_decide (str_upper name_ ∈ TimeGranularity_list_names)
                              then [ValidationError context
                                      (granularity_message TimeGranularity_list_names
                                         name_)]
                              else [])
                          ++ match reserved_keyword_named (str_lower name_) with
                             | Some k =>
                                 [ValidationError context
                                    (reserved_message name_ (reserved_reason k))]
                             | None => []
                             end)))).
  { destruct (decide (str_lower name_
                        ∈ map MetricFlowReservedKeywords.value
                            MetricFlowReservedKeywords.members)) as [Hr|Hr];
      [rewrite (bool_decide_eq_true_2 _ Hr)|rewrite (bool_decide_eq_false_2 _ Hr)].
    - apply reserved_keyword_named_member in Hr as [k Hk]. rewrite Hk.
      apply returns_bind. eapply returns_lift; [by rewrite of_value_named, Hk|].
      apply returns_bind. eapply returns_lift; [apply get_reserved_reason_total|].
      eapply returns_append_issue; [done|]. rewrite <-app_assoc.
      split; [by apply subseteq_insert_new|apply lookup_insert_eq].
    - rewrite (reserved_keyword_named_not_member _ Hr). apply returns_ret.
      by rewrite !app_nil_r. }
  intros [] h3 [Hsub3 Hl3]. by apply returns_ret.
Qed.

Lemma duplicate_errors_app model_name seen (l1 l2 : list element_info) :
  duplicate_errors model_name seen (l1 ++ l2)
  = duplicate_errors model_name seen l1 ++ duplicate_errors model_name (seen ++ l1) l2.
Proof.
  revert seen. induction l1 as [|e l1 IH]; intros seen; cbn [duplicate_errors app].
  - by rewrite app_nil_r.
  - by rewrite IH, <-!app_assoc.
Qed.

Lemma records_first_kinds_take (tuples : list element_info) k e
  (types : gmap ElementReference string) :
  tuples !! k = Some e ->
  records_first_kinds types (take k tuples) ->
  records_first_kinds
    (match types !! e.1.1 with Some _ => types | None => <[e.1.1 := e.1.2]> types end)
    (take (S k) tuples).
Proof.
  intros Hk Hinv r. erewrite take_S_r by done. rewrite first_kind_snoc, <-Hinv.
  destruct (types !! e.1.1) as [first|] eqn:He.
  - destruct (types !! r) eqn:Hr; [done|]. case_bool_decide; [congruence|done].
  - destruct (decide (e.1.1 = r)) as [<-|Hne].
    + by rewrite lookup_insert_eq, He, bool_decide_eq_true_2.
    + rewrite lookup_insert_ne by done.
      destruct (types !! r); [done|]. by rewrite bool_decide_eq_false_2.
Qed.

(** One of the three collecting loops. *)
Lemma collect_store {X : Type} (attribute : SemanticModel -> list X)
  (name_of : X -> string) (reference_of : X -> ElementReference) (kind : string)
  (element_type : SemanticModelElementType)
  manifest m i semantic_model (tuples : loc) before h hc :
  h !! manifest = Some (Manifest m) ->
  semantic_models m !! i = Some semantic_model ->
  h ⊆ hc -> h !! tuples = None -> hc !! tuples = Some (Elements before) ->
  returns
    (match attribute semantic_model with
     | [] => mret tt
     | _ =>
         xs ← read_model manifest i attribute;
         each xs
           (fun x =>
              context ← UniqueAndValidNameRule_store.element_context_at manifest i
                          (name_of x) element_type;
              append_element tuples (reference_of x, kind, context))
     end)
    hc
    (fun _ hc' =>
       h ⊆ hc'
       /\ hc' !! tuples
          = Some (Elements
                    (before
                       ++ map (fun x =>
                                 (reference_of x, kind,
                                  element_context semantic_model (name_of x)
                                    element_type))
                            (attribute semantic_model)))
       /\ forall l, l <> tuples -> hc' !! l = hc !! l).
Proof.
  intros Hm Hi Hsub Hnew Htuples.
  pose proof (lookup_weaken _ _ _ _ Hm Hsub) as Hm'.
  destruct (attribute semantic_model) as [|x0 xs0] eqn:Hxs.
  { apply returns_ret. by rewrite app_nil_r. }
  rewrite <-Hxs. clear x0 xs0 Hxs.
  apply returns_bind. eapply returns_read_model; [done..|].
  apply (returns_each _ _
           (fun k hc' =>
              h ⊆ hc'
              /\ hc' !! tuples
                 = Some (Elements
                           (before
                              ++ map (fun x =>
                                        (reference_of x, kind,
                                         element_context semantic_model (name_of x)
                                           element_type))
                                   (take k (attribute semantic_model))))
              /\ forall l, l <> tuples -> hc' !! l = hc !! l)).
  - by rewrite app_nil_r.
  - intros k x hk Hk (Hsubk & Htk & Hother).
    pose proof (lookup_weaken _ _ _ _ Hm Hsubk) as Hmk.
    apply returns_bind. unfold UniqueAndValidNameRule_store.element_context_at.
    apply returns_bind. eapply returns_read_model; [done..|].
    apply returns_bind. eapply returns_read_model; [done..|].
    apply returns_ret. eapply returns_append_element; [done|].
    split; [by apply subseteq_insert_new|]. split.
    + rewrite lookup_insert_eq. erewrite take_S_r by done.
      by rewrite map_app, app_assoc.
    + intros l Hl. rewrite lookup_insert_ne by done. by apply Hother.
  - intros hk (Hsubk & Htk & Hother). by rewrite firstn_all in Htk.
Qed.

Lemma validate_semantic_model_elements_store manifest m i semantic_model h :
  h !! manifest = Some (Manifest m) ->
  semantic_models m !! i = Some semantic_model ->
  returns (UniqueAndValidNameRule_store._validate_semantic_model_elements manifest i) h
    (fresh_issues h
       (duplicate_errors (name semantic_model) [] (model_elements semantic_model)
        ++ flat_map (fun e => valid_name_issues (element_name e.1.1) (Some e.2))
             (model_elements semantic_model))).
Proof.
  intros Hm Hi. unfold UniqueAndValidNameRule_store._validate_semantic_model_elements.
  apply returns_bind, returns_alloc. intros issues Hissues.
  apply returns_bind, returns_alloc.
  intros tuples [Htuples Hne]%lookup_insert_None.
  set (h2 := <[tuples := Elements []]> (<[issues := Issues []]> h)).
  assert (h ⊆ h2) as Hsub2.
  { apply subseteq_insert_new; [by apply insert_subseteq|done]. }
  pose proof (lookup_weaken _ _ _ _ Hm Hsub2) as Hm2.
  apply returns_bind. eapply returns_read_model; [done..|].
  apply returns_bind.
  eapply returns_mono.
  { apply (collect_store measures measure_name measure_reference "measure" MEASURE
             manifest m i semantic_model tuples [] h h2); try done.
    apply lookup_insert_eq. }
  intros [] h3 (Hsub3 & Htuples3 & Hother3). cbn [app] in Htuples3.
  pose proof (lookup_weaken _ _ _ _ Hm Hsub3) as Hm3.
  apply returns_bind. eapply returns_read_model; [done..|].
  apply returns_bind.
  eapply returns_mono.
  { by eapply (collect_store entities entity_name entity_reference "entity" ENTITY
                manifest m i semantic_model tuples _ h h3). }
  intros [] h4 (Hsub4 & Htuples4 & Hother4).
  pose proof (lookup_weaken _ _ _ _ Hm Hsub4) as Hm4.
  apply returns_bind. eapply returns_read_model; [done..|].
  apply returns_bind.
  eapply returns_mono.
  { by eapply (collect_store dimensions dimension_name dimension_reference "dimension"
                DIMENSION manifest m i semantic_model tuples _ h h4). }
  intros [] h5 (Hsub5 & Htuples5 & Hother5).
  rewrite <-app_assoc in Htuples5. fold (model_elements semantic_model) in Htuples5.
  assert (h5 !! issues = Some (Issues [])) as Hissues5.
  { rewrite Hother5, Hother4, Hother3 by done. unfold h2.
    rewrite lookup_insert_ne by done. apply lookup_insert_eq. }
  apply returns_bind, returns_alloc. intros types Htypes.
  assert (types <> issues /\ types <> tuples /\ h !! types = None)
    as (Hne_ti & Hne_tt & Htypes0).
  { repeat split; [by intros ->; rewrite Hissues5 in Htypes
                  |by intros ->; rewrite Htuples5 in Htypes|].
    destruct (h !! types) eqn:Hh; [|done].
    by rewrite (lookup_weaken _ _ _ _ Hh Hsub5) in Htypes. }
  apply returns_bind. eapply returns_elements_of.
  { rewrite lookup_insert_ne by done. apply Htuples5. }
  apply returns_bind.
  apply (returns_each _ _
           (fun k hc =>
              h ⊆ hc
              /\ hc !! tuples = Some (Elements (model_elements semantic_model))
              /\ hc !! issues
                 = Some (Issues (duplicate_errors (name semantic_model) []
                                   (take k (model_elements semantic_model))))
              /\ exists d, hc !! types = Some (TypesByReference d)
                           /\ records_first_kinds d
                                (take k (model_elements semantic_model)))).
  - split; [by apply subseteq_insert_new|].
    split; [by rewrite lookup_insert_ne|]. split; [by rewrite lookup_insert_ne|].
    exists ∅. split; [apply lookup_insert_eq|]. intros r. by rewrite lookup_empty.
  - intros k [[name_ _type] context] hk Hk (Hsubk & Htk & Hik & d & Hdk & Hrec).
    pose proof (lookup_weaken _ _ _ _ Hm Hsubk) as Hmk.
    pose proof (records_first_kinds_take _ _ _ _ Hk Hrec) as Hrec'.
    cbn [fst snd] in Hrec'. erewrite take_S_r in Hrec' by done.
    apply returns_bind. eapply returns_types_by_reference_of; [done|].
    erewrite take_S_r by done. rewrite duplicate_errors_app. cbn [duplicate_errors].
    rewrite app_nil_l, app_nil_r. cbn [fst snd]. rewrite <-(Hrec name_).
    destruct (d !! name_) as [first|] eqn:Hd.
    + apply returns_bind. eapply returns_read_model; [done..|].
      eapply returns_append_issue; [done|].
      split; [by apply subseteq_insert_new|]. split; [by rewrite lookup_insert_ne|].
      split; [apply lookup_insert_eq|]. exists d. split; [|done].
      by rewrite lookup_insert_ne.
    + apply returns_store.
      split; [by apply subseteq_insert_new|]. split; [by rewrite lookup_insert_ne|].
      split; [by rewrite lookup_insert_ne, app_nil_r|]. eexists. split; [|done].
      apply lookup_insert_eq.
  - intros h6 (Hsub6 & Ht6 & Hi6 & _). rewrite firstn_all in Hi6.
    apply returns_bind. eapply returns_elements_of; [done|].
    apply returns_bind.
    apply (returns_each _ _
             (fun k hc =>
                h ⊆ hc
                /\ hc !! issues
                   = Some (Issues
                             (duplicate_errors (name semantic_model) []
                                (model_elements semantic_model)
                              ++ flat_map
                                   (fun e => valid_name_issues (element_name e.1.1)
                                               (Some e.2))
                                   (take k (model_elements semantic_model)))))).
    + by rewrite app_nil_r.
    + intros k [[name_ _type] context] hk Hk (Hsubk & Hik).
      apply returns_bind. eapply returns_mono; [apply check_valid_name_store|].
      intros found hk' (Hsubk' & Hfound & Hfound').
      eapply returns_extend_issues; [by eapply lookup_weaken|done|].
      split.
      * apply subseteq_insert_new; [by etrans|done].
      * rewrite lookup_insert_eq. erewrite take_S_r by done.
        rewrite flat_map_app. cbn [flat_map fst snd].
        by rewrite app_nil_r, app_assoc.
    + intros h7 (Hsub7 & Hi7). rewrite firstn_all in Hi7. by apply returns_ret.
Qed.

Lemma check_valid_name_simulates name_ context h :
  simulates (check_valid_name name_ context)
    (UniqueAndValidNameRule_store.check_valid_name name_ context) h
    (fun found l h' => fresh_issues h found l h').
Proof.
  eexists. split; [apply check_valid_name_issues|]. apply check_valid_name_store.
Qed.

Lemma validate_semantic_model_elements_simulates manifest m i semantic_model h :
  h !! manifest = Some (Manifest m) ->
  semantic_models m !! i = Some semantic_model ->
  simulates (_validate_semantic_model_elements semantic_model)
    (UniqueAndValidNameRule_store._validate_semantic_model_elements manifest i) h
    (fun found l h' => fresh_issues h found l h').
Proof.
  intros Hm Hi. eexists. split; [apply validate_semantic_model_elements_issues|].
  by eapply validate_semantic_model_elements_store.
Qed.

Lemma validate_top_level_objects_simulates manifest m h :
  h !! manifest = Some (Manifest m) ->
  simulates (_validate_top_level_objects m)
    (UniqueAndValidNameRule_store._validate_top_level_objects manifest) h
    (fun found l h' => fresh_issues h found l h').
Proof.
  intros Hm.
  unfold _validate_top_level_objects,
    UniqueAndValidNameRule_store._validate_top_level_objects. cbv zeta.
  apply simulates_step, returns_alloc. intros tuples Htuples.
  apply simulates_step, returns_alloc.
  intros issues [Hissues Hne]%lookup_insert_None.
  set (h2 := <[issues := Issues []]> (<[tuples := Objects []]> h)).
  assert (h ⊆ h2) as Hsub2.
  { apply subseteq_insert_new; [by apply insert_subseteq|done]. }
  apply simulates_step. eapply returns_read; [apply (lookup_weaken _ _ _ _ Hm Hsub2)|].
  apply simulates_bind.
  apply (simulates_mono _ _ _
           (fun s _ hc =>
              h ⊆ hc /\ hc !! tuples = Some (Objects s.1)
              /\ hc !! issues = Some (Issues s.2))).
  { destruct (semantic_models m) as [|sm0 sms0] eqn:Hmodels.
    - apply simulates_ret. split; [done|]. unfold h2.
      split; [by rewrite lookup_insert_ne, lookup_insert_eq|apply lookup_insert_eq].
    - rewrite <-Hmodels. clear sm0 sms0 Hmodels.
      apply simulates_step.
      eapply returns_read; [apply (lookup_weaken _ _ _ _ Hm Hsub2)|].
      apply (simulates_for_places _ _ _
               (fun s hc =>
                  h ⊆ hc /\ hc !! tuples = Some (Objects s.1)
                  /\ hc !! issues = Some (Issues s.2))).
      + split; [done|]. unfold h2.
        split; [by rewrite lookup_insert_ne, lookup_insert_eq|apply lookup_insert_eq].
      + intros i sm [tuples_ issues_] hc Hi (Hsub & Ht & Hi').
        pose proof (lookup_weaken _ _ _ _ Hm Hsub) as Hmc. cbn [fst snd] in Ht, Hi'.
        apply simulates_step. eapply returns_read_model; [done..|].
        apply simulates_step. eapply returns_read_model; [done..|].
        apply simulates_step. eapply returns_read_model; [done..|].
        apply simulates_step. eapply returns_append_object; [done|].
        apply simulates_step. eapply returns_read_model.
        { rewrite lookup_insert_ne; [done|]. intros <-. by rewrite Hmc in Ht. }
        { done. }
        apply simulates_bind.
        eapply simulates_mono; [apply check_valid_name_simulates|].
        intros found l hc' (Hsub' & Hl & Hl').
        apply simulates_returns.
        eapply returns_extend_issues; [|done|].
        { eapply lookup_weaken; [|done]. by rewrite lookup_insert_ne. }
        cbn [fst snd]. split.
        * apply subseteq_insert_new; [|done]. etrans; [|done].
          by apply subseteq_insert_new.
        * split; [|apply lookup_insert_eq]. rewrite lookup_insert_ne by done.
          eapply lookup_weaken; [|done]. apply lookup_insert_eq.
      + done. }
  intros [tuples_ issues_] [] h3 (Hsub3 & Ht3 & Hi3). cbn [fst snd] in Ht3, Hi3.
  apply simulates_step, returns_alloc. intros types Htypes.
  assert (types <> issues /\ types <> tuples /\ h !! types = None)
    as (Hne_ti & Hne_tt & Htypes0).
  { repeat split; [by intros ->; rewrite Hi3 in Htypes
                  |by intros ->; rewrite Ht3 in Htypes|].
    destruct (h !! types) eqn:Hh; [|done].
    by rewrite (lookup_weaken _ _ _ _ Hh Hsub3) in Htypes. }
  apply simulates_step. eapply returns_objects_of.
  { rewrite lookup_insert_ne by done. apply Ht3. }
  apply simulates_bind.
  apply (simulates_for _ _ _
           (fun s hc =>
              h ⊆ hc /\ hc !! issues = Some (Issues s.1)
              /\ hc !! types = Some (Strings s.2))).
  { split; [by apply subseteq_insert_new|].
    split; [by rewrite lookup_insert_ne|apply lookup_insert_eq]. }
  { intros [[name_ type_] context] [issues' types'] hc _ (Hsub & Hi' & Ht').
    cbn [fst snd] in Hi', Ht'.
    apply simulates_step. eapply returns_strings_of; [done|].
    destruct (types' !! name_) as [first|].
    - apply simulates_returns. eapply returns_append_issue; [done|].
      split; [by apply subseteq_insert_new|].
      split; [apply lookup_insert_eq|by rewrite lookup_insert_ne].
    - apply simulates_returns. apply returns_store.
      split; [by apply subseteq_insert_new|].
      split; [by rewrite lookup_insert_ne|apply lookup_insert_eq]. }
  intros [issues' types'] h4 (Hsub4 & Hi4 & Ht4). cbn [fst snd] in Hi4, Ht4.
  apply simulates_step.
  eapply returns_read; [apply (lookup_weaken _ _ _ _ Hm Hsub4)|].
  destruct (metrics m) as [|metric0 metrics0] eqn:Hmetrics.
  { apply simulates_step, returns_ret. by apply simulates_ret. }
  rewrite <-Hmetrics. clear metric0 metrics0 Hmetrics.
  apply simulates_bind.
  apply simulates_step, returns_alloc. intros names Hnames.
  assert (names <> issues /\ h !! names = None) as (Hne_ni & Hnames0).
  { split; [by intros ->; rewrite Hi4 in Hnames|].
    destruct (h !! names) eqn:Hh; [|done].
    by rewrite (lookup_weaken _ _ _ _ Hh Hsub4) in Hnames. }
  apply simulates_step. eapply returns_read.
  { rewrite lookup_insert_ne; [apply (lookup_weaken _ _ _ _ Hm Hsub4)|].
    intros <-. by rewrite (lookup_weaken _ _ _ _ Hm Hsub4) in Hnames. }
  apply (simulates_for _ _ _
           (fun s hc =>
              h ⊆ hc /\ hc !! issues = Some (Issues s.1)
              /\ hc !! names = Some (Names s.2))).
  { split; [by apply subseteq_insert_new|].
    split; [by rewrite lookup_insert_ne|apply lookup_insert_eq]. }
  { intros metric [issues'' names'] hc _ (Hsub & Hi' & Hn'). cbn [fst snd] in Hi', Hn'.
    apply simulates_bind.
    eapply simulates_mono; [apply check_valid_name_simulates|].
    intros found l hc' (Hsub' & Hl & Hl').
    apply simulates_step.
    eapply returns_extend_issues; [by eapply lookup_weaken|done|].
    assert (issues <> names) as Hne_in by done.
    apply simulates_step. eapply returns_names_of.
    { rewrite lookup_insert_ne by done. by eapply lookup_weaken. }
    assert (h ⊆ <[issues := Issues (issues'' ++ found)]> hc') as Hsub''.
    { apply subseteq_insert_new; [by etrans|done]. }
    case_bool_decide.
    - apply simulates_returns. eapply returns_append_issue; [apply lookup_insert_eq|].
      split; [by apply subseteq_insert_new|].
      split; [apply lookup_insert_eq|].
      rewrite !lookup_insert_ne by done. by eapply lookup_weaken.
    - apply simulates_returns. apply returns_store.
      split; [by apply subseteq_insert_new|].
      split; [|apply lookup_insert_eq].
      rewrite lookup_insert_ne by done. apply lookup_insert_eq. }
  intros [issues'' names'] h5 (Hsub5 & Hi5 & _). by apply simulates_ret.
Qed.

Lemma validate_manifest_simulates manifest m h :
  h !! manifest = Some (Manifest m) ->
  simulates (validate_manifest m)
    (UniqueAndValidNameRule_store.validate_manifest manifest) h
    (fun found l h' => fresh_issues h found l h').
Proof.
  intros Hm. unfold validate_manifest, UniqueAndValidNameRule_store.validate_manifest.
  cbv zeta. apply simulates_step, returns_alloc. intros issues Hissues.
  assert (h ⊆ <[issues := Issues []]> h) as Hsub1 by by apply insert_subseteq.
  apply simulates_bind.
  eapply simulates_mono.
  { apply (validate_top_level_objects_simulates manifest m).
    apply (lookup_weaken _ _ _ _ Hm Hsub1). }
  intros found l h2 (Hsub2 & Hl & Hl').
  apply simulates_step.
  eapply returns_extend_issues;
    [eapply lookup_weaken; [apply lookup_insert_eq|done]|done|].
  assert (h ⊆ <[issues := Issues ([] ++ found)]> h2) as Hsub3.
  { apply subseteq_insert_new; [by etrans|done]. }
  apply simulates_step.
  eapply returns_read; [apply (lookup_weaken _ _ _ _ Hm Hsub3)|].
  apply simulates_then.
  apply (simulates_for_places _ _ _
           (fun s hc => h ⊆ hc /\ hc !! issues = Some (Issues s))).
  - split; [done|apply lookup_insert_eq].
  - intros i sm issues' hc Hi (Hsub & Hi').
    apply simulates_bind.
    eapply simulates_mono.
    { by apply (validate_semantic_model_elements_simulates manifest m i sm);
        [apply (lookup_weaken _ _ _ _ Hm Hsub)|]. }
    intros found' l' hc' (Hsub' & Hl0 & Hl0').
    apply simulates_returns.
    eapply returns_extend_issues; [by eapply lookup_weaken|done|].
    split; [|apply lookup_insert_eq]. apply subseteq_insert_new; [by etrans|done].
  - intros issues' h4 (Hsub4 & Hi4). by apply returns_ret.
Qed.

End NameRuleStore.

(** ** [PrimaryEntityDimensionPairs] on a store *)
Section PairingStore.
Import Store PrimaryEntityDimensionPairs.
Context `{Imports}.
Implicit Types h : gmap loc object.

Lemma registry_at_issues h0 known_pairings places registry hc l issues :
  registry_at h0 known_pairings places registry hc ->
  (hc !! l = None \/ exists issues', hc !! l = Some (Issues issues')) ->
  registry_at h0 known_pairings places registry (<[l := Issues issues]> hc).
Proof.
  intros (Hnew & Hkp & Hnone & Hsome & Hinj) Hl.
  split; [done|]. split; [|split; [done|split; [|done]]].
  - rewrite lookup_insert_ne; [done|]. intros ->. rewrite Hkp in Hl.
    by destruct Hl as [|[? ?]].
  - intros pe l' Hpe. destruct (Hsome pe l' Hpe) as (Hl' & entries & Hentries & Hreg).
    split; [done|]. exists entries. split; [|done].
    rewrite lookup_insert_ne; [done|]. intros ->. rewrite Hentries in Hl.
    by destruct Hl as [|[? ?]].
Qed.

Lemma registry_at_new_place h0 known_pairings places registry hc pe l :
  registry_at h0 known_pairings places registry hc ->
  h0 ⊆ hc -> places !! pe = None -> hc !! l = None ->
  registry_at h0 known_pairings (<[pe := l]> places) (<[pe := ∅]> registry)
    (<[known_pairings := Registry (<[pe := l]> places)]> (<[l := Strings ∅]> hc)).
Proof.
  intros (Hnew & Hkp & Hnone & Hsome & Hinj) Hsub Hpe Hl.
  assert (l <> known_pairings) as Hne by (intros ->; by rewrite Hkp in Hl).
  split; [done|]. split; [apply lookup_insert_eq|]. split; [|split].
  - intros pe' [Hpe' Hne']%lookup_insert_None. rewrite lookup_insert_ne by done.
    by apply Hnone.
  - intros pe' l'. rewrite lookup_insert. case_decide as Heq.
    + subst pe'. intros [= <-]. split.
      * destruct (h0 !! l) eqn:Hh; [|done].
        by rewrite (lookup_weaken _ _ _ _ Hh Hsub) in Hl.
      * exists ∅. rewrite lookup_insert_ne, !lookup_insert_eq by done. done.
    + intros Hpe'. destruct (Hsome pe' l' Hpe') as (Hl' & entries & Hentries & Hreg).
      split; [done|]. exists entries. rewrite !lookup_insert_ne; [done|done| |].
      * intros <-. by rewrite Hentries in Hl.
      * intros <-. by rewrite Hkp in Hentries.
  - intros pe1 pe2 l'. rewrite !lookup_insert.
    repeat case_decide; subst; try done.
    + intros [= <-] Hpe2. destruct (Hsome _ _ Hpe2) as (_ & entries & Hentries & _).
      by rewrite Hentries in Hl.
    + intros Hpe1 [= <-]. destruct (Hsome _ _ Hpe1) as (_ & entries & Hentries & _).
      by rewrite Hentries in Hl.
    + apply Hinj.
Qed.

Lemma registry_at_register h0 known_pairings places registry hc pe l entries d owner :
  registry_at h0 known_pairings places registry hc ->
  places !! pe = Some l ->
  registry_at h0 known_pairings places (<[pe := <[d := owner]> entries]> registry)
    (<[l := Strings (<[d := owner]> entries)]> hc).
Proof.
  intros (Hnew & Hkp & Hnone & Hsome & Hinj) Hpe.
  destruct (Hsome _ _ Hpe) as (Hl & entries0 & Hentries0 & Hreg0).
  split; [done|]. split; [|split; [|split; [|done]]].
  - rewrite lookup_insert_ne; [done|]. intros ->. by rewrite Hkp in Hentries0.
  - intros pe' Hpe'. rewrite lookup_insert_ne; [by apply Hnone|].
    intros ->. by rewrite Hpe in Hpe'.
  - intros pe' l' Hpe'. destruct (Hsome _ _ Hpe') as (Hl' & entries' & Hentries' & Hreg').
    split; [done|]. destruct (decide (pe = pe')) as [<-|Hne].
    + simplify_eq. exists (<[d := owner]> entries). by rewrite !lookup_insert_eq.
    + exists entries'. rewrite !lookup_insert_ne; [done|done|].
      intros <-. by apply Hne, (Hinj _ _ l).
Qed.

Lemma registry_at_key h0 known_pairings places registry hc pe entries :
  registry_at h0 known_pairings places registry hc ->
  registry !! pe = Some entries ->
  exists l, places !! pe = Some l /\ hc !! l = Some (Strings entries) /\ h0 !! l = None.
Proof.
  intros (Hnew & Hkp & Hnone & Hsome & Hinj) Hreg.
  destruct (places !! pe) as [l|] eqn:Hpe.
  - destruct (Hsome _ _ Hpe) as (Hl & entries' & Hentries & Hreg'). exists l.
    by simplify_eq.
  - apply Hnone in Hpe. by rewrite Hpe in Hreg.
Qed.

(** The call on the model at place [i]: it returns a new list with the
    issues of the call, leaves the registry as the rule without a store does,
    and keeps what the store [h0] held and every list of issues. *)
Lemma check_semantic_model_simulates manifest m i semantic_model known_pairings
  places registry h0 hc :
  h0 !! manifest = Some (Manifest m) ->
  semantic_models m !! i = Some semantic_model ->
  h0 ⊆ hc ->
  registry_at h0 known_pairings places registry hc ->
  simulates (_check_semantic_model semantic_model registry)
    (PrimaryEntityDimensionPairs_store._check_semantic_model manifest i known_pairings)
    hc
    (fun r l hc' =>
       h0 ⊆ hc'
       /\ (exists places', registry_at h0 known_pairings places' r.2 hc')
       /\ hc !! l = None /\ hc' !! l = Some (Issues r.1)
       /\ issues_kept hc hc').
Proof.
  intros Hm Hi Hsub Hreg.
  unfold _check_semantic_model,
    PrimaryEntityDimensionPairs_store._check_semantic_model. cbv zeta.
  apply simulates_step, returns_alloc. intros issues Hissues.
  set (h1 := <[issues := Issues []]> hc).
  assert (h0 !! issues = None) as Hissues0.
  { destruct (h0 !! issues) eqn:Hh; [|done].
    by rewrite (lookup_weaken _ _ _ _ Hh Hsub) in Hissues. }
  assert (h0 ⊆ h1) as Hsub1 by by apply subseteq_insert_new.
  assert (registry_at h0 known_pairings places registry h1) as Hreg1.
  { apply registry_at_issues; [done|by left]. }
  assert (issues_kept hc h1) as Hkept1.
  { intros l' issues' Hl'. unfold h1. rewrite lookup_insert_ne; [done|].
    intros <-. by rewrite Hissues in Hl'. }
  pose proof (lookup_weaken _ _ _ _ Hm Hsub1) as Hm1.
  assert (h1 !! issues = Some (Issues [])) as Hissues1 by apply lookup_insert_eq.
  apply simulates_step. eapply returns_read_model; [done..|].
  apply simulates_step.
  apply (returns_mono _ _
           (fun pe h' => pe = resolve_primary_entity semantic_model /\ h' = h1)).
  { unfold resolve_primary_entity.
    destruct (primary_entity semantic_model) as [declared|] eqn:Hdeclared.
    - by apply returns_ret.
    - apply returns_bind. eapply returns_read_model; [done..|]. by apply returns_ret. }
  intros pe_ h' [-> ->].
  destruct (resolve_primary_entity semantic_model) as [pe|] eqn:Hpe.
  2: { apply simulates_ret. cbn [fst snd]. split; [done|]. split; [by eexists|].
       split; [done|]. split; [apply lookup_insert_eq|done]. }
  pose proof Hreg1 as (Hnew & Hkp & Hnone & Hsome & Hinj).
  apply simulates_step. eapply returns_registry_of_object; [done|].
  (* The map of the primary entity, made when there is none. *)
  apply simulates_step.
  apply (returns_mono _ _
           (fun safe h2 =>
              h0 ⊆ h2 /\ h2 !! issues = Some (Issues []) /\ issues_kept hc h2
              /\ exists places2 registry2 entries,
                    registry_at h0 known_pairings places2 registry2 h2
                    /\ registry2 !! pe = Some entries
                    /\ match registry !! pe with
                       | None => (<[pe := ∅]> registry, true)
                       | Some _ => (registry, false)
                       end = (registry2, safe))).
  { destruct (places !! pe) as [l|] eqn:Hplace.
    - destruct (Hsome _ _ Hplace) as (_ & entries & _ & Hentries).
      apply returns_ret. split; [done|]. split; [apply lookup_insert_eq|].
      split; [done|]. exists places, registry, entries. by rewrite Hentries.
    - apply returns_bind, returns_alloc. intros l Hl.
      apply returns_bind. eapply returns_registry_of_object.
      { rewrite lookup_insert_ne; [done|]. intros ->. by rewrite Hkp in Hl. }
      apply returns_bind, returns_store, returns_ret.
      assert (h0 !! l = None) as Hl0.
      { destruct (h0 !! l) eqn:Hh; [|done].
        by rewrite (lookup_weaken _ _ _ _ Hh Hsub1) in Hl. }
      split; [apply subseteq_insert_new; [by apply subseteq_insert_new|done]|].
      assert (issues <> l /\ issues <> known_pairings) as [Hne1 Hne2]
        by (split; congruence).
      split; [by rewrite !lookup_insert_ne|]. split.
      + intros l' issues' Hl'. pose proof (Hkept1 _ _ Hl') as Hl1.
        rewrite !lookup_insert_ne; [done| |]; intros <-; by rewrite Hl1 in *.
      + exists (<[pe := l]> places), (<[pe := ∅]> registry), ∅.
        split; [by apply registry_at_new_place|].
        split; [apply lookup_insert_eq|]. by rewrite (Hnone _ Hplace). }
  intros safe h2 (Hsub2 & Hissues2 & Hkept2 & places2 & registry2 & entries2
                  & Hreg2 & Hkey2 & ->).
  pose proof (lookup_weaken _ _ _ _ Hm Hsub2) as Hm2.
  apply simulates_step. eapply returns_read_model; [done..|].
  apply simulates_then. unfold check_dimensions.
  apply (simulates_for _ _ _
           (fun s h3 =>
              h0 ⊆ h3 /\ h3 !! issues = Some (Issues s.1) /\ issues_kept hc h3
              /\ is_Some (s.2 !! pe)
              /\ exists places3, registry_at h0 known_pairings places3 s.2 h3)).
  { cbn [fst snd]. repeat split; [done..|by eexists|by eexists]. }
  { intros dimension [issues_ registry_] h3 _
      (Hsub3 & Hissues3 & Hkept3 & [entries Hkey] & places3 & Hreg3).
    cbn [fst snd] in Hissues3, Hkey, Hreg3.
    pose proof (lookup_weaken _ _ _ _ Hm Hsub3) as Hm3.
    pose proof Hreg3 as (_ & Hkp3 & _ & _ & _).
    destruct (registry_at_key _ _ _ _ _ _ _ Hreg3 Hkey) as (l & Hplace & Hl & Hl0).
    rewrite !(getitem_Some _ _ _ Hkey). cbn [mbind result_bind mret result_ret].
    assert (returns
              (registry ← registry_of_object known_pairings;
               pairings ← lift (getitem registry pe);
               entries ← strings_of pairings;
               model_name ← read_model manifest i name;
               store pairings
                 (Strings (<[dimension_name dimension := model_name]> entries)))
              h3
              (fun _ h4 =>
                 h0 ⊆ h4 /\ h4 !! issues = Some (Issues issues_) /\ issues_kept hc h4
                 /\ is_Some ((<[pe := <[dimension_name dimension := name semantic_model]>
                                        entries]> registry_) !! pe)
                 /\ exists places4,
                      registry_at h0 known_pairings places4
                        (<[pe := <[dimension_name dimension := name semantic_model]>
                                   entries]> registry_) h4)) as Hregister.
    { apply returns_bind. eapply returns_registry_of_object; [done|].
      apply returns_bind. eapply returns_lift; [by apply getitem_Some|].
      apply returns_bind. eapply returns_strings_of; [done|].
      apply returns_bind. eapply returns_read_model; [done..|].
      apply returns_store. split; [by apply subseteq_insert_new|].
      split; [rewrite lookup_insert_ne; [done|]; intros <-; by rewrite Hl in Hissues3|].
      split.
      { intros l' issues' Hl'. pose proof (Hkept3 _ _ Hl') as Hl3.
        rewrite lookup_insert_ne; [done|]. intros <-. by rewrite Hl in Hl3. }
      split; [rewrite lookup_insert_eq; by eexists|].
      exists places3. by apply registry_at_register. }
    destruct safe.
    - cbn [mbind result_bind mret result_ret].
      apply simulates_step, returns_ret. by apply simulates_returns.
    - apply simulates_step.
      apply (returns_mono _ _
               (fun unregistered h' =>
                  h' = h3
                  /\ unregistered
                     = match entries !! dimension_name dimension with
                       | None => true
                       | Some _ => false
                       end)).
      { apply returns_bind. eapply returns_registry_of_object; [done|].
        apply returns_bind. eapply returns_lift; [by apply getitem_Some|].
        apply returns_bind. eapply returns_strings_of; [done|]. by apply returns_ret. }
      intros unregistered h' [-> ->].
      destruct (entries !! dimension_name dimension) as [owner|] eqn:Hentry;
        cbn [mbind result_bind mret result_ret].
      + rewrite (getitem_Some _ _ _ Hentry). cbn [mbind result_bind mret result_ret].
        apply simulates_returns.
        apply returns_bind. eapply returns_read_model; [done..|].
        apply returns_bind. eapply returns_read_model; [done..|].
        apply returns_bind. eapply returns_read_model; [done..|].
        apply returns_bind. eapply returns_registry_of_object; [done|].
        apply returns_bind. eapply returns_lift; [by apply getitem_Some|].
        apply returns_bind. eapply returns_strings_of; [done|].
        apply returns_bind. eapply returns_lift; [by apply getitem_Some|].
        eapply returns_append_issue; [done|]. cbn [fst snd].
        split; [by apply subseteq_insert_new|]. split; [apply lookup_insert_eq|].
        split.
        { intros l' issues' Hl'. pose proof (Hkept3 _ _ Hl') as Hl3.
          rewrite lookup_insert_ne; [done|]. congruence. }
        split; [by eexists|]. exists places3. apply registry_at_issues; eauto.
      + by apply simulates_returns. }
  intros [issues_ registry_] h3 (Hsub3 & Hissues3 & Hkept3 & _ & places3 & Hreg3).
  apply returns_ret. cbn [fst snd] in *. repeat split; eauto.
Qed.

Lemma validate_manifest_pairs_simulates manifest m h :
  h !! manifest = Some (Manifest m) ->
  simulates (validate_manifest m)
    (PrimaryEntityDimensionPairs_store.validate_manifest manifest) h
    (fun found l h' => fresh_issues h found l h').
Proof.
  intros Hm. unfold validate_manifest, check_models,
    PrimaryEntityDimensionPairs_store.validate_manifest. cbv zeta.
  apply simulates_step, returns_alloc. intros issues Hissues.
  apply simulates_step, returns_alloc.
  intros known_pairings [Hkp Hne]%lookup_insert_None.
  set (h2 := <[known_pairings := Registry ∅]> (<[issues := Issues []]> h)).
  assert (h ⊆ h2) as Hsub2.
  { apply subseteq_insert_new; [by apply insert_subseteq|done]. }
  apply simulates_step. eapply returns_read; [apply (lookup_weaken _ _ _ _ Hm Hsub2)|].
  apply simulates_bind.
  apply (simulates_for_places _ _ _
           (fun s hc =>
              h ⊆ hc /\ hc !! issues = Some (Issues s.1)
              /\ exists places, registry_at h known_pairings places s.2 hc)).
  - split; [done|]. split; [by unfold h2; rewrite lookup_insert_ne, lookup_insert_eq|].
    exists ∅. split; [done|]. split; [apply lookup_insert_eq|].
    split; [done|]. split; [|done]. intros pe l. by rewrite lookup_empty.
  - intros i sm [issues_ registry_] hc Hi (Hsub & Hissues' & places & Hreg).
    cbn [fst snd] in Hissues', Hreg.
    apply simulates_bind.
    eapply simulates_mono; [by eapply check_semantic_model_simulates|].
    intros [found registry'] l hc' (Hsub' & [places' Hreg'] & Hl & Hl' & Hkept).
    cbn [fst snd] in Hreg', Hl'.
    apply simulates_returns.
    eapply returns_extend_issues; [by apply Hkept|done|]. cbn [fst snd].
    split; [by apply subseteq_insert_new|]. split; [apply lookup_insert_eq|].
    exists places'. apply registry_at_issues; [done|]. right. eexists. by apply Hkept.
  - intros [issues_ registry_] h3 (Hsub3 & Hissues3 & _). by apply simulates_ret.
Qed.

(** C10: run on a store that holds the manifest, each of the two rules
    returns the issues that it returns without a store, in a list that is
    new, and every object that the store held before the call, the manifest
    first of all, is the same after it. *)
Theorem validate_manifest_keeps_manifest `{PyStr}
  (h : gmap loc object) (manifest : loc) (m : SemanticManifest) :
  h !! manifest = Some (Manifest m) ->
  (exists issues l h',
     UniqueAndValidNameRule_store.validate_manifest manifest h = Ok (l, h')
     /\ UniqueAndValidNameRule.validate_manifest m = Ok issues
     /\ h' !! l = Some (Issues issues) /\ h !! l = None
     /\ h' !! manifest = Some (Manifest m)
     /\ forall l' o, h !! l' = Some o -> h' !! l' = Some o)
  /\ (exists issues l h',
        PrimaryEntityDimensionPairs_store.validate_manifest manifest h = Ok (l, h')
        /\ PrimaryEntityDimensionPairs.validate_manifest m = Ok issues
        /\ h' !! l = Some (Issues issues) /\ h !! l = None
        /\ h' !! manifest = Some (Manifest m)
        /\ forall l' o, h !! l' = Some o -> h' !! l' = Some o).
Proof.
  intros Hm. split.
  - destruct (validate_manifest_simulates manifest m h Hm)
      as (issues & Hpure & l & h' & Hrun & Hsub & Hl & Hl').
    exists issues, l, h'. repeat split; [done..| |].
    + by eapply lookup_weaken.
    + intros l' o Hl0. by eapply lookup_weaken.
  - destruct (validate_manifest_pairs_simulates manifest m h Hm)
      as (issues & Hpure & l & h' & Hrun & Hsub & Hl & Hl').
    exists issues, l, h'. repeat split; [done..| |].
    + by eapply lookup_weaken.
    + intros l' o Hl0. by eapply lookup_weaken.
Qed.

End PairingStore.

(** ** What [NAME_REGEX] accepts, and the issues of a name *)
Section NameShape.
Import Re UniqueAndValidNameRule.
Context `{Imports, PyStr}.

Lemma no_dunder_split (l : list ascii) :
  no_dunder l = true <->
  ~ exists before after, l = before ++ "_"%char :: "_"%char :: after.
Proof.
  induction l as [|c rest IH].
  - split; [|done]. intros _ (before & after & Heq). by destruct before.
  - cbn [no_dunder]. rewrite andb_true_iff, negb_true_iff, IH. clear IH. split.
    + intros [Hstart Hrest] (before & after & Heq).
      destruct before as [|b before]; simplify_eq/=.
      apply Hrest. by exists before, after.
    + intros Hno. split.
      * destruct (starts_dunder (c :: rest)) eqn:Hstart; [|done].
        destruct Hno. destruct rest as [|c2 rest]; [done|].
        cbn [starts_dunder] in Hstart.
        apply andb_true_iff in Hstart as [->%Ascii.eqb_eq ->%Ascii.eqb_eq].
        by exists [], rest.
      * intros (before & after & ->). apply Hno. by exists (c :: before), after.
Qed.

Lemma forallb_Forall {A : Type} (f : A -> bool) (l : list A) :
  forallb f l = true <-> Forall (fun x => f x = true) l.
Proof.
  induction l as [|x l IH]; cbn [forallb]; [by split|].
  by rewrite andb_true_iff, Forall_cons, IH.
Qed.

Lemma valid_name_shape_split (l : list ascii) :
  valid_name_shape l = true <->
  exists first middle final,
    l = first :: middle ++ [final]
    /\ is_lower first = true
    /\ Forall (fun c => is_name_char c = true) middle
    /\ is_name_end final = true
    /\ ~ exists before after, l = before ++ "_"%char :: "_"%char :: after.
Proof.
  unfold valid_name_shape. destruct l as [|c rest].
  { split; [done|]. by intros (? & ? & ? & ? & _). }
  rewrite !andb_true_iff, no_dunder_split, forallb_Forall. split.
  - intros [[[Hc Hall] Hlast] Hno].
    destruct (last rest) as [z|] eqn:Hz; [|done].
    apply last_Some in Hz as [middle ->]. exists c, middle, z.
    repeat split; [done| |done..].
    by apply Forall_app in Hall as [Hall _].
  - intros (first & middle & final & [= <- ->] & Hc & Hall & Hz & Hno).
    rewrite last_snoc. repeat split; [done| |done..].
    apply Forall_app. split; [done|].
    by apply Forall_singleton, is_name_end_char.
Qed.

Lemma length_chars (s : string) : length (chars s) = String.length s.
Proof. induction s as [|c s IH]; [done|]. cbn. by rewrite <-IH. Qed.

(** X1: [NAME_REGEX] matches exactly the names that the comments above it
    describe: a lower-case letter first, a lower-case letter or a digit
    last, lower-case letters, digits and underscores between them, and no
    two underscores in a row.  Such a name has two characters at least. *)
Theorem NAME_REGEX_matches_names (s : string) :
  (matches NAME_REGEX s = true <->
   exists first middle final,
     chars s = first :: middle ++ [final]
     /\ is_lower first = true
     /\ Forall (fun c => is_name_char c = true) middle
     /\ is_name_end final = true
     /\ ~ exists before after, chars s = before ++ "_"%char :: "_"%char :: after)
  /\ (matches NAME_REGEX s = true -> 2 <= String.length s).
Proof.
  rewrite NAME_REGEX_valid_name_shape, valid_name_shape_split. split; [done|].
  intros (first & middle & final & Heq & _). rewrite <-length_chars, Heq.
  cbn [length]. rewrite length_app. cbn [length]. lia.
Qed.

Lemma is_name_char_lower c : is_name_char c = true -> ascii_lower_char c = c.
Proof. destruct c as [[] [] [] [] [] [] [] []]; by vm_compute. Qed.

Lemma valid_name_shape_lower s :
  valid_name_shape (chars s) = true -> ascii_lower s = s.
Proof.
  unfold valid_name_shape. destruct s as [|c s]; [done|].
  cbn [chars String.list_ascii_of_string].
  intros (((Hc & Hrest)%andb_prop & _)%andb_prop & _)%andb_prop.
  cbn [ascii_lower]. f_equal.
  - apply is_name_char_lower. unfold is_name_char. by rewrite Hc.
  - clear Hc. induction s as [|x s IH]; [done|].
    cbn [String.list_ascii_of_string forallb] in Hrest.
    apply andb_prop in Hrest as [Hx Hrest]. cbn [ascii_lower].
    by rewrite (is_name_char_lower _ Hx), IH.
Qed.

Lemma value_matches k : matches NAME_REGEX (MetricFlowReservedKeywords.value k) = true.
Proof. by destruct k; vm_compute. Qed.

Lemma valid_name_issues_context name context :
  Forall (fun issue => issue_context issue = context) (valid_name_issues name context).
Proof.
  unfold valid_name_issues. repeat apply Forall_app_2.
  - destruct (matches NAME_REGEX name); by repeat constructor.
  - case_bool_decide; by repeat constructor.
  - destruct (reserved_keyword_named (str_lower name)); by repeat constructor.
Qed.

Lemma reserved_keyword_named_None v :
  reserved_keyword_named v = None <->
  v ∉ map MetricFlowReservedKeywords.value MetricFlowReservedKeywords.members.
Proof.
  split; [|apply reserved_keyword_named_not_member].
  intros Hnone [k Hk]%reserved_keyword_named_member. congruence.
Qed.

Lemma valid_name_issues_nil name context :
  valid_name_issues name context = [] <-> passes_checks name.
Proof.
  unfold valid_name_issues, passes_checks. rewrite <-reserved_keyword_named_None.
  destruct (matches NAME_REGEX name); [|by split; [|intros [? _]]].
  case_bool_decide as Hg; [by split; [|intros (_ & ? & _)]|].
  destruct (reserved_keyword_named (str_lower name)); [by split; [|intros (_ & _ & ?)]|].
  done.
Qed.

(** X2: [check_valid_name] makes three checks, one after the other; each
    adds one issue when it fails, every issue carries the context of the
    call, and there is no issue exactly when the name passes the three. *)
Theorem check_valid_name_one_issue_per_check (name : string)
  (context : option ValidationContext) :
  exists issues,
    check_valid_name name context = Ok issues
    /\ length issues
       = (if matches NAME_REGEX name then 0 else 1)
         + (if bool_decide (str_upper name ∈ TimeGranularity_list_names) then 1 else 0)
         + (if bool_decide
                 (str_lower name ∈ map MetricFlowReservedKeywords.value
                                     MetricFlowReservedKeywords.members)
            then 1 else 0)
    /\ Forall (fun issue => issue_context issue = context) issues
    /\ (issues = [] <-> passes_checks name).
Proof.
  exists (valid_name_issues name context).
  split; [apply check_valid_name_issues|].
  split; [|split; [apply valid_name_issues_context|apply valid_name_issues_nil]].
  unfold valid_name_issues. rewrite !length_app.
  destruct (matches NAME_REGEX name);
    destruct (bool_decide (str_upper name ∈ TimeGranularity_list_names));
    case_bool_decide as Hr; cbn [length].
  all: try (apply reserved_keyword_named_member in Hr as [k ->]; reflexivity).
  all: by rewrite (reserved_keyword_named_not_member _ Hr).
Qed.

(** X3: [MetricFlowReservedKeywords] by value: constructing a keyword from
    its value gives the keyword back, a string that is no value raises [ValueError], no two
    keywords share a value, and no two share a reason. *)
Theorem MetricFlowReservedKeywords_by_value :
  (forall k, MetricFlowReservedKeywords.of_value (MetricFlowReservedKeywords.value k)
             = Ok k)
  /\ (forall v k, MetricFlowReservedKeywords.of_value v = Ok k ->
                  MetricFlowReservedKeywords.value k = v)
  /\ (forall v,
        v ∉ map MetricFlowReservedKeywords.value MetricFlowReservedKeywords.members
        <-> MetricFlowReservedKeywords.of_value v = Raise ValueError)
  /\ (forall k k',
        MetricFlowReservedKeywords.value k = MetricFlowReservedKeywords.value k' ->
        k = k')
  /\ (forall k k',
        MetricFlowReservedKeywords.get_reserved_reason k
        = MetricFlowReservedKeywords.get_reserved_reason k' ->
        k = k').
Proof.
  split; [by intros []|]. split.
  { intros v k. rewrite of_value_named.
    destruct (reserved_keyword_named v) as [k'|] eqn:Hk; [|done].
    intros [= <-]. by apply reserved_keyword_named_value. }
  split.
  { intros v. rewrite of_value_named, <-reserved_keyword_named_None.
    by destruct (reserved_keyword_named v). }
  split; by intros [] [].
Qed.

(** X4: a name that is a reserved keyword up to the case of its letters: the
    keyword itself gets the reserved-keyword issue alone, any other spelling
    gets the syntax issue before it. *)
Theorem check_valid_name_keyword_spellings (k : MetricFlowReservedKeywords.t)
  (name : string) (context : option ValidationContext) :
  eq_nocase name (MetricFlowReservedKeywords.value k) ->
  ascii_upper (MetricFlowReservedKeywords.value k) ∉ TimeGranularity_list_names ->
  exists reason,
    MetricFlowReservedKeywords.get_reserved_reason k = Ok reason
    /\ check_valid_name name context
       = Ok ((if String.eqb name (MetricFlowReservedKeywords.value k) then []
              else [ValidationError context (syntax_message name)])
             ++ [ValidationError context (reserved_message name reason)]).
Proof.
  intros Hk Hgran. exists (reserved_reason k).
  split; [apply get_reserved_reason_total|].
  rewrite check_valid_name_issues. f_equal. unfold valid_name_issues.
  rewrite (eq_nocase_upper _ _ Hk (value_is_ascii k)),
    (eq_nocase_lower _ _ Hk (value_is_ascii k)), value_lower,
    reserved_keyword_named_of_value.
  rewrite bool_decide_eq_false_2 by done. cbn [app].
  destruct (String.eqb_spec name (MetricFlowReservedKeywords.value k)) as [->|Hne].
  - by rewrite value_matches.
  - destruct (matches NAME_REGEX name) eqn:Hre; [|done].
    destruct Hne. rewrite NAME_REGEX_valid_name_shape in Hre.
    apply valid_name_shape_lower in Hre. unfold eq_nocase in Hk.
    by rewrite Hre, value_lower in Hk.
Qed.

End NameShape.

(** ** A manifest without a name issue *)
Section NoNameIssue.
Import UniqueAndValidNameRule.
Context `{Imports, PyStr}.

Lemma model_elements_names semantic_model :
  map (fun e : element_info => element_name e.1.1) (model_elements semantic_model)
  = element_names semantic_model.
Proof.
  unfold model_elements, element_names. rewrite !map_app, !map_map. done.
Qed.

(** The references of the collected elements: those of the measures, of the
    entities and of the dimensions, each of its own class. *)
Lemma model_elements_references semantic_model :
  map (fun e : element_info => e.1.1) (model_elements semantic_model)
  = map MeasureReference (map measure_name (measures semantic_model))
    ++ map EntityReference (map entity_name (entities semantic_model))
    ++ map DimensionReference (map dimension_name (dimensions semantic_model)).
Proof.
  unfold model_elements. rewrite !map_app, !map_map. done.
Qed.

#[local] Instance MeasureReference_inj : Inj (=) (=) MeasureReference.
Proof. by intros ? ? [= ->]. Qed.
#[local] Instance EntityReference_inj : Inj (=) (=) EntityReference.
Proof. by intros ? ? [= ->]. Qed.
#[local] Instance DimensionReference_inj : Inj (=) (=) DimensionReference.
Proof. by intros ? ? [= ->]. Qed.

Lemma references_disjoint (ms es ds : list string) :
  (forall r, r ∈ map MeasureReference ms ->
             r ∉ map EntityReference es ++ map DimensionReference ds)
  /\ (forall r, r ∈ map EntityReference es -> r ∉ map DimensionReference ds).
Proof.
  split.
  - intros r (n & -> & _)%list_elem_of_fmap
      [(? & [=] & _)%list_elem_of_fmap|(? & [=] & _)%list_elem_of_fmap]%elem_of_app.
  - intros r (n & -> & _)%list_elem_of_fmap (? & [=] & _)%list_elem_of_fmap.
Qed.

Lemma NoDup_references (ms es ds : list string) :
  NoDup (map MeasureReference ms ++ map EntityReference es ++ map DimensionReference ds)
  <-> NoDup ms /\ NoDup es /\ NoDup ds.
Proof.
  destruct (references_disjoint ms es ds) as [Hm He].
  rewrite !NoDup_app.
  rewrite (NoDup_fmap MeasureReference), (NoDup_fmap EntityReference),
    (NoDup_fmap DimensionReference).
  tauto.
Qed.

Lemma first_kind_None (seen : list element_info) r :
  first_kind seen r = None <-> r ∉ map (fun e : element_info => e.1.1) seen.
Proof.
  unfold first_kind. induction seen as [|e seen IH]; cbn [find map].
  - split; [|done]. intros _ []%elem_of_nil.
  - rewrite not_elem_of_cons. case_bool_decide as He.
    + split; [done|]. intros [Hne _]. by destruct Hne.
    + rewrite IH. split; [|tauto]. intros Hnot. split; [|done]. congruence.
Qed.

Lemma duplicate_errors_nil model_name (seen rest : list element_info) :
  duplicate_errors model_name seen rest = [] <->
  NoDup (map (fun e : element_info => e.1.1) rest)
  /\ Forall (fun r => r ∉ map (fun e : element_info => e.1.1) seen)
       (map (fun e : element_info => e.1.1) rest).
Proof.
  revert seen. induction rest as [|e rest IH]; intros seen.
  - cbn. split; [|done]. intros _. split; constructor.
  - cbn [duplicate_errors map]. rewrite app_nil, IH, NoDup_cons, Forall_cons.
    rewrite map_app. cbn [map]. clear IH.
    assert (match first_kind seen e.1.1 with
            | Some first =>
                [ValidationError (Some e.2)
                   (element_duplicate_message model_name (element_name e.1.1) e.1.2 first)]
            | None => []
            end = []
            <-> e.1.1 ∉ map (fun e : element_info => e.1.1) seen) as ->.
    { rewrite <-first_kind_None. by destruct (first_kind seen e.1.1). }
    rewrite Forall_forall. setoid_rewrite not_elem_of_app.
    setoid_rewrite list_elem_of_singleton. rewrite Forall_forall. split.
    + intros (Hseen & Hnd & Hall). repeat split; [|done..|].
      * intros Hin. by destruct (Hall _ Hin) as [_ []].
      * intros n Hn. by apply Hall.
    + intros ((Hnotin & Hnd) & Hseen & Hall). repeat split; [done..| |].
      * by apply Hall.
      * intros ->. done.
Qed.

Lemma flat_map_nil {A B : Type} (f : A -> list B) (l : list A) :
  flat_map f l = [] <-> Forall (fun x => f x = []) l.
Proof.
  induction l as [|x l IH]; cbn [flat_map]; [by split|].
  by rewrite app_nil, Forall_cons, IH.
Qed.

Lemma Ok_inj {A : Type} (a b : A) : Ok a = Ok b <-> a = b.
Proof. split; [by intros [= ->]|by intros ->]. Qed.

Lemma Forall_valid_names {A : Type} (f : A -> string)
  (context : A -> option ValidationContext) (l : list A) :
  Forall (fun x => valid_name_issues (f x) (context x) = []) l
  <-> Forall passes_checks (map f l).
Proof.
  induction l as [|x l IH]; cbn [map]; [by split; constructor|].
  by rewrite !Forall_cons, valid_name_issues_nil, IH.
Qed.

Lemma Forall_not_elem_of_nil {A : Type} (l : list A) : Forall (fun n => n ∉ []) l.
Proof. apply Forall_forall. by intros n _ []%elem_of_nil. Qed.

Lemma element_issues_nil semantic_model :
  duplicate_errors (name semantic_model) [] (model_elements semantic_model)
  ++ flat_map (fun e : element_info => valid_name_issues (element_name e.1.1) (Some e.2))
       (model_elements semantic_model) = []
  <-> names_differ_by_kind semantic_model
      /\ Forall passes_checks (element_names semantic_model).
Proof.
  rewrite app_nil, duplicate_errors_nil, flat_map_nil.
  rewrite (Forall_valid_names (fun e : element_info => element_name e.1.1)
             (fun e : element_info => Some e.2)).
  rewrite model_elements_names, model_elements_references, NoDup_references.
  unfold names_differ_by_kind. split; [tauto|].
  intros [(? & ? & ?) ?]. repeat split; try done. apply Forall_not_elem_of_nil.
Qed.

(** X5: [_validate_semantic_model_elements] finds no issue exactly when the
    measures of the model have names that differ from one another, its
    entities too, its dimensions too, and each of these names passes the
    three checks.  Two elements of different kinds may have the same
    name. *)
Theorem validate_semantic_model_elements_no_issue (semantic_model : SemanticModel) :
  _validate_semantic_model_elements semantic_model = Ok [] <->
  (NoDup (map measure_name (measures semantic_model))
   /\ NoDup (map entity_name (entities semantic_model))
   /\ NoDup (map dimension_name (dimensions semantic_model)))
  /\ Forall passes_checks (element_names semantic_model).
Proof.
  by rewrite validate_semantic_model_elements_issues, Ok_inj, element_issues_nil.
Qed.

Lemma duplicate_errors_all model_name (seen rest : list element_info) :
  List.filter is_element_duplicate_issue (duplicate_errors model_name seen rest)
  = duplicate_errors model_name seen rest.
Proof.
  revert seen. induction rest as [|e rest IH]; intros seen; [done|].
  cbn [duplicate_errors]. rewrite List.filter_app, IH. f_equal.
  destruct (first_kind seen e.1.1); [|done]. cbn [List.filter].
  unfold is_element_duplicate_issue, element_duplicate_message. cbn [issue_message].
  by rewrite prefix_of_append.
Qed.

Lemma size_names_snoc {A : Type} `{Countable A} (l : list A) (x : A) :
  size (list_to_set (l ++ [x]) : gset A)
  = if bool_decide (x ∈ l) then size (list_to_set l : gset A)
    else S (size (list_to_set l : gset A)).
Proof.
  rewrite list_to_set_app_L. cbn [list_to_set]. rewrite union_empty_r_L.
  case_bool_decide as Hin.
  - f_equal. rewrite (comm_L (∪)). apply subseteq_union_1_L, singleton_subseteq_l.
    by apply elem_of_list_to_set.
  - rewrite size_union, size_singleton; [lia|].
    apply disjoint_singleton_r. by rewrite elem_of_list_to_set.
Qed.

Lemma size_names_app {A : Type} `{Countable A} (l1 l2 : list A) :
  (forall x, x ∈ l1 -> x ∉ l2) ->
  size (list_to_set (l1 ++ l2) : gset A)
  = size (list_to_set l1 : gset A) + size (list_to_set l2 : gset A).
Proof.
  intros Hdisjoint. rewrite list_to_set_app_L. apply size_union.
  apply elem_of_disjoint. intros x. rewrite !elem_of_list_to_set.
  intros Hx. by apply Hdisjoint.
Qed.

Lemma size_names_map {A B : Type} `{Countable A, Countable B} (f : A -> B)
  `{!Inj (=) (=) f} (l : list A) :
  size (list_to_set (map f l) : gset B) = size (list_to_set l : gset A).
Proof.
  induction l as [|x l IH] using rev_ind; [done|].
  rewrite map_app. cbn [map]. rewrite !size_names_snoc, IH.
  apply (f_equal (fun b : bool => if b then _ else _)), bool_decide_ext.
  split.
  - intros (y & Heq & Hy)%list_elem_of_fmap. by apply (inj f) in Heq as ->.
  - intros Hx. apply list_elem_of_fmap. by exists x.
Qed.

Lemma size_references (ms es ds : list string) :
  size (list_to_set (map MeasureReference ms ++ map EntityReference es
                     ++ map DimensionReference ds) : gset ElementReference)
  = size (list_to_set ms : gset string) + size (list_to_set es : gset string)
    + size (list_to_set ds : gset string).
Proof.
  destruct (references_disjoint ms es ds) as [Hm He].
  rewrite !size_names_app by done.
  rewrite (size_names_map MeasureReference), (size_names_map EntityReference),
    (size_names_map DimensionReference). lia.
Qed.

Lemma duplicate_errors_count model_name (seen rest : list element_info) :
  length (duplicate_errors model_name seen rest)
  + size (list_to_set (map (fun e : element_info => e.1.1) (seen ++ rest))
          : gset ElementReference)
  = length rest
    + size (list_to_set (map (fun e : element_info => e.1.1) seen)
            : gset ElementReference).
Proof.
  revert seen. induction rest as [|e rest IH]; intros seen.
  - by rewrite app_nil_r.
  - cbn [duplicate_errors length]. rewrite length_app.
    specialize (IH (seen ++ [e])). rewrite <-app_assoc in IH. cbn [app] in IH.
    rewrite (map_app _ seen [e]) in IH. cbn [map] in IH.
    rewrite size_names_snoc in IH.
    destruct (first_kind seen e.1.1) as [first|] eqn:Hfirst.
    + rewrite bool_decide_eq_true_2 in IH; [cbn [length]; lia|].
      destruct (decide (e.1.1 ∈ map (fun e : element_info => e.1.1) seen))
        as [|Hnot]; [done|].
      apply first_kind_None in Hnot. congruence.
    + apply first_kind_None in Hfirst.
      rewrite bool_decide_eq_false_2 in IH by done. cbn [length]. lia.
Qed.

Lemma filter_flat_map_nil {A B : Type} (p : B -> bool) (f : A -> list B) (l : list A) :
  (forall x, List.filter p (f x) = []) -> List.filter p (flat_map f l) = [].
Proof.
  intros Hf. induction l as [|x l IH]; [done|].
  cbn [flat_map]. by rewrite List.filter_app, Hf, IH.
Qed.

(** X6: the duplicate errors that [_validate_semantic_model_elements]
    reports are as many as the elements of the model, less the number of
    different names among its measures, the number among its entities and
    the number among its dimensions: one for every repetition of a name
    within a kind. *)
Theorem validate_semantic_model_elements_duplicate_count
  (semantic_model : SemanticModel) :
  exists issues,
    _validate_semantic_model_elements semantic_model = Ok issues
    /\ length (List.filter is_element_duplicate_issue issues)
       + (size (list_to_set (map measure_name (measures semantic_model)) : gset string)
          + size (list_to_set (map entity_name (entities semantic_model)) : gset string)
          + size (list_to_set (map dimension_name (dimensions semantic_model))
                  : gset string))
       = length (measures semantic_model) + length (entities semantic_model)
         + length (dimensions semantic_model).
Proof.
  eexists. split; [apply validate_semantic_model_elements_issues|].
  rewrite List.filter_app, duplicate_errors_all.
  rewrite filter_flat_map_nil by (intros; apply valid_name_issues_not_duplicates).
  rewrite app_nil_r.
  pose proof (duplicate_errors_count (name semantic_model) []
                (model_elements semantic_model)) as Hcount.
  cbn [app map list_to_set] in Hcount. rewrite size_empty in Hcount.
  rewrite model_elements_references, size_references in Hcount.
  assert (length (model_elements semantic_model)
          = length (measures semantic_model) + length (entities semantic_model)
            + length (dimensions semantic_model)) as Hlen.
  { unfold model_elements. rewrite !length_app, !length_map. lia. }
  lia.
Qed.

(** *** The three loops of [_validate_top_level_objects] *)

Lemma elem_of_snoc {A : Type} (l : list A) (x y : A) : y ∈ l ++ [x] <-> y ∈ l \/ y = x.
Proof. by rewrite elem_of_app, list_elem_of_singleton. Qed.

Lemma collect_models_loop (models : list SemanticModel)
  (tuples : list object_info) (issues : list ValidationIssue) :
  for_ models
    (fun '(object_info_tuples, issues) semantic_model =>
       let context :=
         SemanticModelContext
           (FileContext_from_metadata (metadata semantic_model))
           {| semantic_model_name := name semantic_model |} in
       let object_info_tuples :=
         object_info_tuples
           ++ [(name semantic_model, "semantic model", context)] in
       found ← check_valid_name (name semantic_model) (Some context);
       mret (object_info_tuples, issues ++ found))
    (tuples, issues)
  = Ok (tuples
          ++ map (fun sm => (name sm, "semantic model", model_context sm)) models,
        issues
          ++ flat_map (fun sm => valid_name_issues (name sm) (Some (model_context sm)))
               models).
Proof.
  revert tuples issues. induction models as [|sm models IH]; intros tuples issues.
  - cbn. by rewrite !app_nil_r.
  - cbn [for_ map flat_map]. cbv zeta. rewrite check_valid_name_issues.
    cbn [mbind result_bind mret result_ret]. rewrite IH.
    by rewrite <-!app_assoc.
Qed.

Lemma model_duplicates_loop (models : list SemanticModel) (seen : list string)
  (issues : list ValidationIssue) (name_to_type : gmap string string) :
  (forall n, name_to_type !! n
             = if bool_decide (n ∈ seen) then Some "semantic model" else None) ->
  exists name_to_type',
    for_ (map (fun sm => (name sm, "semantic model", model_context sm)) models)
      (fun '(issues, name_to_type) '(name_, type_, context) =>
         match (name_to_type : gmap string string) !! name_ with
         | Some first_type =>
             mret (issues ++
                     [ValidationError (Some context)
                        (object_duplicate_message name_ type_ first_type)],
                   name_to_type)
         | None => mret (issues, <[name_ := type_]> name_to_type)
         end)
      (issues, name_to_type)
    = Ok (issues ++ model_duplicate_errors seen models, name_to_type').
Proof.
  revert seen issues name_to_type.
  induction models as [|sm models IH]; intros seen issues name_to_type Hinv.
  - exists name_to_type. cbn. by rewrite app_nil_r.
  - cbn [map for_ model_duplicate_errors]. rewrite Hinv. case_bool_decide as Hin.
    + cbn [mbind result_bind mret result_ret].
      destruct (IH (seen ++ [name sm])
                  (issues ++ [ValidationError (Some (model_context sm))
                                (object_duplicate_message (name sm) "semantic model"
                                   "semantic model")])
                  name_to_type) as [n2t Hrun].
      { intros n. rewrite Hinv. apply (f_equal (fun b : bool => if b then _ else _)).
        apply bool_decide_ext. rewrite elem_of_snoc. split; [tauto|].
        by intros [?| ->]. }
      exists n2t. rewrite Hrun. by rewrite <-app_assoc.
    + cbn [mbind result_bind mret result_ret app].
      destruct (IH (seen ++ [name sm]) issues
                  (<[name sm := "semantic model"]> name_to_type)) as [n2t Hrun].
      { intros n. rewrite lookup_insert, Hinv. case_decide as Hn.
        - subst n. rewrite bool_decide_eq_true_2; [done|].
          apply elem_of_app. right. by apply list_elem_of_singleton.
        - apply (f_equal (fun b : bool => if b then _ else _)).
          apply bool_decide_ext. rewrite elem_of_snoc. split; [tauto|].
          intros [?|?]; [done|congruence]. }
      exists n2t. by rewrite Hrun.
Qed.

Lemma metrics_loop (metrics_ : list Metric) (seen : list string)
  (issues : list ValidationIssue) (metric_names : gset string) :
  (forall n, n ∈ metric_names <-> n ∈ seen) ->
  exists metric_names',
    for_ metrics_
      (fun '(issues, metric_names) metric =>
         let metric_context :=
           MetricContext
             (FileContext_from_metadata (metric_metadata metric))
             {| metric_name := metric_name_of metric |} in
         found ← check_valid_name (metric_name_of metric) (Some metric_context);
         let issues := issues ++ found in
         if bool_decide (metric_name_of metric ∈ (metric_names : gset string))
         then
           mret (issues ++
                   [ValidationError (Some metric_context)
                      (metric_duplicate_message (metric_name_of metric))],
                 metric_names)
         else mret (issues, {[metric_name_of metric]} ∪ metric_names))
      (issues, metric_names)
    = Ok (issues ++ metric_issues seen metrics_, metric_names').
Proof.
  revert seen issues metric_names.
  induction metrics_ as [|metric metrics_ IH]; intros seen issues metric_names Hinv.
  - exists metric_names. cbn. by rewrite app_nil_r.
  - cbn [for_ metric_issues]. cbv zeta. rewrite check_valid_name_issues.
    cbn [mbind result_bind mret result_ret].
    rewrite (bool_decide_ext _ _ (Hinv (metric_name_of metric))).
    case_bool_decide as Hin.
    + destruct (IH (seen ++ [metric_name_of metric])
                  ((issues ++ valid_name_issues (metric_name_of metric)
                                (Some (metric_context metric)))
                     ++ [ValidationError (Some (metric_context metric))
                           (metric_duplicate_message (metric_name_of metric))])
                  metric_names) as [names' Hrun].
      { intros n. rewrite Hinv, elem_of_snoc. split; [tauto|]. by intros [?| ->]. }
      exists names'. unfold metric_context in Hrun |- *.
      cbn [mbind result_bind mret result_ret]. rewrite Hrun.
      by rewrite <-!app_assoc.
    + destruct (IH (seen ++ [metric_name_of metric])
                  (issues ++ valid_name_issues (metric_name_of metric)
                               (Some (metric_context metric)))
                  ({[metric_name_of metric]} ∪ metric_names)) as [names' Hrun].
      { intros n. rewrite elem_of_union, elem_of_singleton, Hinv, elem_of_snoc. tauto. }
      exists names'. unfold metric_context in Hrun |- *.
      cbn [mbind result_bind mret result_ret]. rewrite Hrun.
      by rewrite <-!app_assoc.
Qed.

(** What [_validate_top_level_objects] returns. *)
Lemma validate_top_level_objects_issues semantic_manifest :
  _validate_top_level_objects semantic_manifest
  = Ok (flat_map (fun sm => valid_name_issues (name sm) (Some (model_context sm)))
          (semantic_models semantic_manifest)
        ++ model_duplicate_errors [] (semantic_models semantic_manifest)
        ++ metric_issues [] (metrics semantic_manifest)).
Proof.
  unfold _validate_top_level_objects. cbv zeta.
  match goal with
  | |- (?m ≫= _) = _ =>
      assert (m = Ok (map (fun sm => (name sm, "semantic model", model_context sm))
                        (semantic_models semantic_manifest),
                      flat_map
                        (fun sm => valid_name_issues (name sm) (Some (model_context sm)))
                        (semantic_models semantic_manifest))) as ->
  end.
  { destruct (semantic_models semantic_manifest) as [|sm models]; [done|].
    exact (collect_models_loop (sm :: models) [] []). }
  cbn [mbind result_bind].
  destruct (model_duplicates_loop (semantic_models semantic_manifest) []
              (flat_map (fun sm => valid_name_issues (name sm) (Some (model_context sm)))
                 (semantic_models semantic_manifest)) ∅) as [n2t Hrun].
  { intros n. rewrite lookup_empty, bool_decide_eq_false_2; [done|].
    by intros ?%elem_of_nil. }
  unfold object_info in *. rewrite Hrun. cbn [mbind result_bind].
  destruct (metrics semantic_manifest) as [|metric metrics_] eqn:Hmetrics.
  { cbn [metric_issues]. by rewrite app_nil_r. }
  destruct (metrics_loop (metric :: metrics_) []
              (flat_map (fun sm => valid_name_issues (name sm) (Some (model_context sm)))
                 (semantic_models semantic_manifest)
               ++ model_duplicate_errors [] (semantic_models semantic_manifest)) ∅)
    as [names' Hrun'].
  { intros n. rewrite elem_of_empty. split; [done|]. by intros ?%elem_of_nil. }
  cbv zeta in Hrun'. rewrite Hrun'. cbn [mbind result_bind mret result_ret].
  by rewrite <-app_assoc.
Qed.

Lemma model_duplicate_errors_nil (seen : list string) (models : list SemanticModel) :
  model_duplicate_errors seen models = [] <->
  NoDup (map name models) /\ Forall (fun n => n ∉ seen) (map name models).
Proof.
  revert seen. induction models as [|sm models IH]; intros seen.
  - cbn. split; [|done]. intros _. split; constructor.
  - cbn [model_duplicate_errors map]. rewrite app_nil, IH, NoDup_cons, Forall_cons.
    clear IH. rewrite !Forall_forall. setoid_rewrite not_elem_of_app.
    setoid_rewrite list_elem_of_singleton. case_bool_decide as Hin.
    + split; [by intros [? _]|]. by intros (_ & ? & _).
    + split.
      * intros (_ & Hnd & Hall). repeat split; [|done..|].
        -- intros Hm. by destruct (Hall _ Hm) as [_ []].
        -- intros n Hn. by apply Hall.
      * intros ((Hnotin & Hnd) & _ & Hall). repeat split; [done..| |].
        -- by apply Hall.
        -- by intros ->.
Qed.

Lemma metric_issues_nil (seen : list string) (metrics_ : list Metric) :
  metric_issues seen metrics_ = [] <->
  NoDup (map metric_name_of metrics_)
  /\ Forall (fun n => n ∉ seen) (map metric_name_of metrics_)
  /\ Forall passes_checks (map metric_name_of metrics_).
Proof.
  revert seen. induction metrics_ as [|metric metrics_ IH]; intros seen.
  - cbn. split; [|done]. intros _. repeat split; constructor.
  - cbn [metric_issues map]. rewrite !app_nil, IH, NoDup_cons, !Forall_cons.
    rewrite valid_name_issues_nil. clear IH.
    rewrite (Forall_forall (fun n => n ∉ seen ++ _)), (Forall_forall (fun n => n ∉ seen)).
    setoid_rewrite elem_of_snoc. case_bool_decide as Hin.
    + split; [by intros (_ & ? & _)|]. by intros (_ & [? _] & _).
    + split.
      * intros (Hvalid & _ & Hnd & Hall & Hrest).
        assert (metric_name_of metric ∉ map metric_name_of metrics_).
        { intros Hm. apply (Hall _ Hm). by right. }
        assert (forall x, x ∈ map metric_name_of metrics_ -> x ∉ seen).
        { intros x Hx Hs. apply (Hall _ Hx). by left. }
        done.
      * intros ((Hnotin & Hnd) & (_ & Hall) & Hvalid & Hrest).
        assert (forall x, x ∈ map metric_name_of metrics_ ->
                          ~ (x ∈ seen \/ x = metric_name_of metric)).
        { intros x Hx [Hs| ->]; [by apply (Hall _ Hx)|done]. }
        done.
Qed.

Lemma top_level_issues_nil semantic_manifest :
  flat_map (fun sm => valid_name_issues (name sm) (Some (model_context sm)))
    (semantic_models semantic_manifest)
  ++ model_duplicate_errors [] (semantic_models semantic_manifest)
  ++ metric_issues [] (metrics semantic_manifest) = []
  <-> NoDup (map name (semantic_models semantic_manifest))
      /\ NoDup (map metric_name_of (metrics semantic_manifest))
      /\ Forall passes_checks
           (map name (semantic_models semantic_manifest)
            ++ map metric_name_of (metrics semantic_manifest)).
Proof.
  rewrite !app_nil, flat_map_nil, model_duplicate_errors_nil, metric_issues_nil.
  rewrite Forall_app, (Forall_valid_names name (fun sm => Some (model_context sm))).
  split; [tauto|]. intros (? & ? & ? & ?).
  repeat split; try done; apply Forall_not_elem_of_nil.
Qed.

(** X7: [_validate_top_level_objects] finds no issue exactly when the
    semantic models have names that differ from one another, the metrics have names
    that differ from one another, and each of these names passes the three
    checks.  A metric may have the name of a semantic model. *)
Theorem validate_top_level_objects_no_issue (semantic_manifest : SemanticManifest) :
  _validate_top_level_objects semantic_manifest = Ok [] <->
  NoDup (map name (semantic_models semantic_manifest))
  /\ NoDup (map metric_name_of (metrics semantic_manifest))
  /\ Forall passes_checks
       (map name (semantic_models semantic_manifest)
        ++ map metric_name_of (metrics semantic_manifest)).
Proof.
  by rewrite validate_top_level_objects_issues, Ok_inj, top_level_issues_nil.
Qed.

Lemma elements_loop (models : list SemanticModel) (issues : list ValidationIssue) :
  for_ models
    (fun issues semantic_model =>
       found ← _validate_semantic_model_elements semantic_model;
       mret (issues ++ found))
    issues
  = Ok (issues
          ++ flat_map
               (fun sm =>
                  duplicate_errors (name sm) [] (model_elements sm)
                  ++ flat_map
                       (fun e : element_info =>
                          valid_name_issues (element_name e.1.1) (Some e.2))
                       (model_elements sm))
               models).
Proof.
  revert issues. induction models as [|sm models IH]; intros issues.
  - cbn. by rewrite app_nil_r.
  - cbn [for_ flat_map]. rewrite validate_semantic_model_elements_issues.
    cbn [mbind result_bind mret result_ret]. by rewrite IH, <-app_assoc.
Qed.

(** What [validate_manifest] returns: the issues of the top-level names, then
    the issues of each semantic model in turn. *)
Lemma name_rule_issues (semantic_manifest : SemanticManifest) :
  validate_manifest semantic_manifest
  = Ok ((flat_map (fun sm => valid_name_issues (name sm) (Some (model_context sm)))
           (semantic_models semantic_manifest)
         ++ model_duplicate_errors [] (semantic_models semantic_manifest)
         ++ metric_issues [] (metrics semantic_manifest))
        ++ flat_map
             (fun sm =>
                duplicate_errors (name sm) [] (model_elements sm)
                ++ flat_map
                     (fun e : element_info =>
                        valid_name_issues (element_name e.1.1) (Some e.2))
                     (model_elements sm))
             (semantic_models semantic_manifest)).
Proof.
  unfold validate_manifest. cbv zeta. rewrite validate_top_level_objects_issues.
  cbn [mbind result_bind app]. apply elements_loop.
Qed.

(** X8: [UniqueAndValidNameRule.validate_manifest] passes a manifest exactly
    when the names of its semantic models differ from one another, the names
    of its metrics too, within each semantic model the names of the
    measures, those of the entities and those of the dimensions too, and
    every one of these names passes the three checks of [check_valid_name].
    Two semantic models may have elements of the same name, and so may two
    kinds of element of one semantic model. *)
Theorem validate_manifest_no_issue (semantic_manifest : SemanticManifest) :
  validate_manifest semantic_manifest = Ok [] <->
  NoDup (map name (semantic_models semantic_manifest))
  /\ NoDup (map metric_name_of (metrics semantic_manifest))
  /\ Forall passes_checks
       (map name (semantic_models semantic_manifest)
        ++ map metric_name_of (metrics semantic_manifest))
  /\ Forall (fun sm =>
               (NoDup (map measure_name (measures sm))
                /\ NoDup (map entity_name (entities sm))
                /\ NoDup (map dimension_name (dimensions sm)))
               /\ Forall passes_checks (element_names sm))
       (semantic_models semantic_manifest).
Proof.
  rewrite name_rule_issues, Ok_inj, app_nil.
  rewrite top_level_issues_nil, flat_map_nil.
  setoid_rewrite element_issues_nil. unfold names_differ_by_kind. tauto.
Qed.

End NoNameIssue.

(** ** Who owns a pairing, and when the rule finds nothing *)
Section Owners.
Import PrimaryEntityDimensionPairs.
Context `{Imports}.

Lemma pair_dimensions_keeps semantic_model primary_entity dims
  (pairings : gmap string string) d owner :
  pairings !! d = Some owner ->
  (pair_dimensions false semantic_model primary_entity dims pairings).2 !! d
  = Some owner.
Proof.
  revert pairings. induction dims as [|dimension rest IH]; intros pairings Hd; [done|].
  cbn [pair_dimensions].
  destruct (pairings !! dimension_name dimension) as [o|] eqn:Hdim; cbn [snd].
  - by apply IH.
  - apply IH. rewrite lookup_insert_ne; [done|]. intros Heq. congruence.
Qed.

Lemma pair_dimensions_owner safe semantic_model primary_entity dims
  (pairings : gmap string string) d owner :
  (pair_dimensions safe semantic_model primary_entity dims pairings).2 !! d
  = Some owner ->
  pairings !! d = Some owner
  \/ (d ∈ map dimension_name dims /\ owner = name semantic_model
      /\ (safe = true \/ pairings !! d = None)).
Proof.
  revert pairings. induction dims as [|dimension rest IH]; intros pairings; [by left|].
  cbn [pair_dimensions map].
  destruct (if safe then None else pairings !! dimension_name dimension)
    as [o|] eqn:Hdim; cbn [snd].
  - intros [?|(? & ? & ?)]%IH; [by left|]. right. split; [by right|done].
  - intros [Hd|(Hin & -> & Hsafe)]%IH.
    + rewrite lookup_insert in Hd. case_decide as Heq.
      * subst d. injection Hd as <-. right. split; [by left|]. split; [done|].
        destruct safe; [by left|by right].
      * by left.
    + right. split; [by right|]. split; [done|].
      destruct Hsafe as [?|Hnone]; [by left|]. right.
      by apply lookup_insert_None in Hnone as [? _].
Qed.

Lemma pair_dimensions_issues semantic_model primary_entity dims
  (pairings : gmap string string) :
  Forall
    (fun issue =>
       exists dimension owner,
         dimension ∈ dims
         /\ issue = pairing_error semantic_model primary_entity dimension owner
         /\ (pairings !! dimension_name dimension = Some owner
             \/ (pairings !! dimension_name dimension = None
                 /\ owner = name semantic_model)))
    (pair_dimensions false semantic_model primary_entity dims pairings).1.
Proof.
  revert pairings. induction dims as [|dimension rest IH]; intros pairings;
    [constructor|].
  cbn [pair_dimensions].
  destruct (pairings !! dimension_name dimension) as [o|] eqn:Hdim; cbn [fst].
  - constructor.
    + exists dimension, o. split; [by left|]. split; [done|by left].
    + eapply Forall_impl; [apply IH|]. cbn beta.
      intros issue (dimension' & owner & Hin & Hissue & Howner).
      exists dimension', owner. split; [by right|done].
  - eapply Forall_impl; [apply IH|]. cbn beta.
    intros issue (dimension' & owner & Hin & Hissue & Howner).
    exists dimension', owner. split; [by right|]. split; [done|].
    rewrite lookup_insert in Howner. case_decide as Heq.
    + right. rewrite <-Heq, Hdim. destruct Howner as [[= <-]|[[=] _]]. done.
    + done.
Qed.

Lemma first_to_pair_app (models more : list SemanticModel) pe d i first :
  first_to_pair models pe d i first -> first_to_pair (models ++ more) pe d i first.
Proof.
  intros (Hi & Hpe & Hd & Hfirst). pose proof (lookup_lt_Some _ _ _ Hi) as Hlt.
  split; [by rewrite lookup_app_l|]. split; [done|]. split; [done|].
  intros i' sm' Hlt'. rewrite lookup_app_l by lia. by apply Hfirst.
Qed.

Lemma first_to_pair_here (before : list SemanticModel) semantic_model pe d :
  resolve_primary_entity semantic_model = Some pe ->
  d ∈ dimension_names semantic_model ->
  ~ Exists (fun sm => resolve_primary_entity sm = Some pe /\ d ∈ dimension_names sm)
      before ->
  first_to_pair (before ++ [semantic_model]) pe d (length before) semantic_model.
Proof.
  intros Hpe Hd Hnone. split; [by rewrite list_lookup_middle|].
  split; [done|]. split; [done|].
  intros i' sm' Hlt. rewrite lookup_app_l by done. intros Hi Hsm'.
  apply Hnone, Exists_exists. exists sm'. split; [|done].
  by eapply list_elem_of_lookup_2.
Qed.

Lemma registry_owners_app known_pairings (before more : list SemanticModel) :
  registry_owners known_pairings before ->
  registry_owners known_pairings (before ++ more).
Proof.
  intros Hown pe pairings d owner Hpe Hd.
  destruct (Hown _ _ _ _ Hpe Hd) as (i & first & Hfirst & ->).
  exists i, first. split; [by apply first_to_pair_app|done].
Qed.

(** One call of [_check_semantic_model]: the registry stays owned by the
    first users, and every issue cites the first user of its pairing. *)
Lemma check_semantic_model_owners semantic_model before known_pairings found
  known_pairings' :
  registry_of known_pairings before ->
  registry_owners known_pairings before ->
  _check_semantic_model semantic_model known_pairings = Ok (found, known_pairings') ->
  registry_owners known_pairings' (before ++ [semantic_model])
  /\ Forall
       (fun issue =>
          exists pe dimension i first,
            resolve_primary_entity semantic_model = Some pe
            /\ dimension ∈ dimensions semantic_model
            /\ first_to_pair (before ++ [semantic_model]) pe
                 (dimension_name dimension) i first
            /\ issue = pairing_error semantic_model pe dimension (name first))
       found.
Proof.
  intros [Hkeys Hdims] Hown Hrun.
  destruct (resolve_primary_entity semantic_model) as [pe|] eqn:Hpe.
  - destruct (known_pairings !! pe) as [pairings|] eqn:Hkey.
    + rewrite (check_semantic_model_known _ _ _ _ Hpe Hkey) in Hrun.
      injection Hrun as <- <-.
      assert (forall d owner,
                pairings !! d = Some owner
                \/ (d ∈ dimension_names semantic_model
                    /\ owner = name semantic_model /\ pairings !! d = None) ->
                exists i first,
                  first_to_pair (before ++ [semantic_model]) pe d i first
                  /\ owner = name first) as Hcases.
      { intros d owner [Hd|(Hin & -> & Hnone)].
        - destruct (Hown _ _ _ _ Hkey Hd) as (i & first & Hfirst & ->).
          exists i, first. split; [by apply first_to_pair_app|done].
        - exists (length before), semantic_model. split; [|done].
          apply first_to_pair_here; [done..|].
          intros Hex. apply (Hdims _ _ _ Hkey) in Hex as [o Ho]. congruence. }
      split.
      * intros pe' pairings' d owner. rewrite lookup_insert. case_decide as Heq.
        -- subst pe'. intros [= <-] Hd. apply Hcases.
           apply pair_dimensions_owner in Hd as [?|(? & ? & [[=]|?])]; [by left|].
           by right.
        -- intros Hpe' Hd. by eapply registry_owners_app.
      * eapply Forall_impl; [apply pair_dimensions_issues|]. cbn beta.
        intros issue (dimension & owner & Hin & -> & Howner).
        destruct (Hcases (dimension_name dimension) owner) as (i & first & Hfirst & ->).
        { destruct Howner as [?|[? ?]]; [by left|]. right.
          split; [|done]. apply list_elem_of_fmap. by exists dimension. }
        by exists pe, dimension, i, first.
    + rewrite (check_semantic_model_new _ _ _ Hpe Hkey) in Hrun.
      injection Hrun as <- <-. rewrite pair_dimensions_safe_issues.
      split; [|constructor].
      intros pe' pairings' d owner. rewrite lookup_insert. case_decide as Heq.
      * subst pe'. intros [= <-] Hd.
        apply pair_dimensions_owner in Hd as [Hd|(Hin & -> & _)];
          [by rewrite lookup_empty in Hd|].
        exists (length before), semantic_model. split; [|done].
        apply first_to_pair_here; [done..|].
        intros Hex. apply Hkeys in Hkey.
        apply Exists_exists in Hex as (sm & Hin' & Hsm & _).
        by eapply Forall_forall in Hkey.
      * intros Hpe' Hd. by eapply registry_owners_app.
  - rewrite (check_semantic_model_unresolved _ _ Hpe) in Hrun.
    injection Hrun as <- <-. split; [by apply registry_owners_app|constructor].
Qed.

Lemma check_models_owners models before issues known_pairings :
  registry_of known_pairings before ->
  registry_owners known_pairings before ->
  exists found known_pairings',
    check_models _check_semantic_model models issues known_pairings
    = Ok (issues ++ found, known_pairings')
    /\ Forall
         (fun issue =>
            exists j semantic_model pe dimension i first,
              (before ++ models) !! j = Some semantic_model
              /\ resolve_primary_entity semantic_model = Some pe
              /\ dimension ∈ dimensions semantic_model
              /\ i <= j
              /\ first_to_pair (before ++ models) pe (dimension_name dimension) i first
              /\ issue = pairing_error semantic_model pe dimension (name first))
         found.
Proof.
  revert before issues known_pairings.
  induction models as [|sm rest IH]; intros before issues known_pairings Hreg Hown.
  - exists [], known_pairings. rewrite app_nil_r. split; [done|constructor].
  - destruct (check_semantic_model_total sm known_pairings) as (f1 & kp1 & Hrun).
    destruct (check_semantic_model_owners _ _ _ _ _ Hreg Hown Hrun) as [Hown1 Hf1].
    assert (registry_of kp1 (before ++ [sm])) as Hreg1.
    { eapply registry_of_step; [by left|done..]. }
    destruct (IH (before ++ [sm]) (issues ++ f1) kp1 Hreg1 Hown1)
      as (f2 & kp2 & Hrest & Hf2).
    exists (f1 ++ f2), kp2.
    rewrite check_models_cons, Hrun. cbn [mbind result_bind fst snd].
    rewrite Hrest, app_assoc. split; [done|].
    rewrite <-app_assoc in Hf2. cbn [app] in Hf2.
    apply Forall_app. split; [|done].
    eapply Forall_impl; [apply Hf1|]. cbn beta.
    intros issue (pe & dimension & i & first & Hpe & Hin & Hfirst & ->).
    exists (length before), sm, pe, dimension, i, first.
    split; [by rewrite list_lookup_middle|]. split; [done|]. split; [done|].
    split.
    + destruct Hfirst as [Hi _]. apply lookup_lt_Some in Hi.
      rewrite length_app in Hi. cbn [length] in Hi. lia.
    + split; [|done]. apply (first_to_pair_app _ rest) in Hfirst.
      by rewrite <-app_assoc in Hfirst.
Qed.

(** X9: every issue of [PrimaryEntityDimensionPairs.validate_manifest] is
    about a dimension of a semantic model of the manifest, and the model that its message gives as already using the
    pairing is the first model of the manifest to resolve to that primary
    entity and to declare a dimension of that name. *)
Theorem validate_manifest_cites_first_model (semantic_manifest : SemanticManifest) :
  exists issues,
    validate_manifest semantic_manifest = Ok issues
    /\ Forall
         (fun issue =>
            exists j semantic_model pe dimension i first,
              semantic_models semantic_manifest !! j = Some semantic_model
              /\ resolve_primary_entity semantic_model = Some pe
              /\ dimension ∈ dimensions semantic_model
              /\ i <= j
              /\ first_to_pair (semantic_models semantic_manifest) pe
                   (dimension_name dimension) i first
              /\ issue = pairing_error semantic_model pe dimension (name first))
         issues.
Proof.
  unfold validate_manifest. cbv zeta.
  destruct (check_models_owners (semantic_models semantic_manifest) [] [] ∅
              registry_of_empty) as (found & kp & -> & Hfound).
  { intros pe pairings d owner. by rewrite lookup_empty. }
  exists found. split; [done|]. exact Hfound.
Qed.

(** X10: [_check_semantic_model] returns for every model and registry, and
    a pairing that is registered keeps its owner through the call. *)
Theorem check_semantic_model_keeps_owners (semantic_model : SemanticModel)
  (known_pairings : gmap string (gmap string string)) :
  exists found known_pairings',
    _check_semantic_model semantic_model known_pairings = Ok (found, known_pairings')
    /\ forall pe pairings d owner,
         known_pairings !! pe = Some pairings -> pairings !! d = Some owner ->
         exists pairings',
           known_pairings' !! pe = Some pairings' /\ pairings' !! d = Some owner.
Proof.
  destruct (resolve_primary_entity semantic_model) as [pe|] eqn:Hpe.
  - destruct (known_pairings !! pe) as [pairings|] eqn:Hkey.
    + rewrite (check_semantic_model_known _ _ _ _ Hpe Hkey).
      eexists _, _. split; [done|]. intros pe' pairings' d owner Hpe' Hd.
      rewrite lookup_insert. case_decide as Heq.
      * subst pe'. eexists. split; [done|]. apply pair_dimensions_keeps. congruence.
      * by exists pairings'.
    + rewrite (check_semantic_model_new _ _ _ Hpe Hkey).
      eexists _, _. split; [done|]. intros pe' pairings' d owner Hpe' Hd.
      rewrite lookup_insert_ne by congruence. by exists pairings'.
  - rewrite (check_semantic_model_unresolved _ _ Hpe).
    eexists _, _. split; [done|]. intros pe' pairings' d owner Hpe' Hd.
    by exists pairings'.
Qed.

(** One call finds nothing exactly when the model is the first to resolve
    to its primary entity, or repeats no dimension name and uses no pairing
    of an earlier model. *)
Lemma check_semantic_model_no_issue semantic_model before known_pairings found
  known_pairings' :
  registry_of known_pairings before ->
  _check_semantic_model semantic_model known_pairings = Ok (found, known_pairings') ->
  found = [] <->
  forall pe,
    resolve_primary_entity semantic_model = Some pe ->
    Exists (fun sm' => resolve_primary_entity sm' = Some pe) before ->
    NoDup (dimension_names semantic_model)
    /\ unpaired_before before pe semantic_model.
Proof.
  intros [Hkeys Hdims] Hrun.
  destruct (resolve_primary_entity semantic_model) as [pe|] eqn:Hpe.
  - destruct (known_pairings !! pe) as [pairings|] eqn:Hkey.
    + rewrite (check_semantic_model_known _ _ _ _ Hpe Hkey) in Hrun.
      injection Hrun as <- _. rewrite pair_dimensions_lookup_no_issue.
      fold (dimension_names semantic_model).
      assert (Exists (fun sm' => resolve_primary_entity sm' = Some pe) before) as Hex.
      { destruct (decide (Forall (fun sm => resolve_primary_entity sm <> Some pe)
                            before)) as [Hall|Hnot].
        - apply Hkeys in Hall. congruence.
        - apply not_Forall_Exists in Hnot; [|apply _].
          eapply Exists_impl; [done|]. cbn beta. intros sm Hsm.
          by destruct (decide (resolve_primary_entity sm = Some pe)). }
      assert ((forall d, d ∈ dimension_names semantic_model -> pairings !! d = None)
              <-> unpaired_before before pe semantic_model) as ->.
      { unfold unpaired_before. split.
        - intros Hnone sm' d Hin Hsm' Hd Hd'. specialize (Hnone _ Hd).
          assert (is_Some (pairings !! d)) as [o Ho]; [|congruence].
          apply (Hdims _ _ _ Hkey), Exists_exists. by exists sm'.
        - intros Hun d Hd. destruct (pairings !! d) as [o|] eqn:Ho; [|done].
          assert (is_Some (pairings !! d)) as Hsome by by rewrite Ho.
          apply (Hdims _ _ _ Hkey), Exists_exists in Hsome as (sm' & Hin & Hsm' & Hd').
          by destruct (Hun sm' d). }
      split; [by intros ? pe' [= <-] _|]. intros Hall. by apply Hall.
    + rewrite (check_semantic_model_new _ _ _ Hpe Hkey) in Hrun.
      injection Hrun as <- _. rewrite pair_dimensions_safe_issues.
      split; [|done]. intros _ pe' [= <-] Hex. apply Hkeys in Hkey.
      apply Exists_exists in Hex as (sm & Hin & Hsm).
      by eapply Forall_forall in Hkey.
  - rewrite (check_semantic_model_unresolved _ _ Hpe) in Hrun.
    injection Hrun as <- _. split; [|done]. by intros _ pe [=].
Qed.

Lemma check_models_no_issue models before issues known_pairings :
  registry_of known_pairings before ->
  exists found known_pairings',
    check_models _check_semantic_model models issues known_pairings
    = Ok (issues ++ found, known_pairings')
    /\ (found = [] <->
        forall b semantic_model a pe,
          models = b ++ semantic_model :: a ->
          resolve_primary_entity semantic_model = Some pe ->
          Exists (fun sm' => resolve_primary_entity sm' = Some pe) (before ++ b) ->
          NoDup (dimension_names semantic_model)
          /\ unpaired_before (before ++ b) pe semantic_model).
Proof.
  revert before issues known_pairings.
  induction models as [|sm rest IH]; intros before issues known_pairings Hreg.
  - exists [], known_pairings. rewrite app_nil_r. split; [done|].
    split; [|done]. intros _ b sm a pe Heq. by destruct b.
  - destruct (check_semantic_model_total sm known_pairings) as (f1 & kp1 & Hrun).
    pose proof (check_semantic_model_no_issue _ _ _ _ _ Hreg Hrun) as Hiff1.
    assert (registry_of kp1 (before ++ [sm])) as Hreg1.
    { eapply registry_of_step; [by left|done..]. }
    destruct (IH (before ++ [sm]) (issues ++ f1) kp1 Hreg1)
      as (f2 & kp2 & Hrest & Hiff2).
    exists (f1 ++ f2), kp2.
    rewrite check_models_cons, Hrun. cbn [mbind result_bind fst snd].
    rewrite Hrest, app_assoc. split; [done|].
    rewrite app_nil, Hiff1, Hiff2. split.
    + intros [H1 H2] b sm' a pe Heq. destruct b as [|sm0 b]; simplify_eq/=.
      * rewrite app_nil_r. apply H1.
      * specialize (H2 b sm' a pe eq_refl). by rewrite <-app_assoc in H2.
    + intros Hall. split.
      * intros pe. specialize (Hall [] sm rest pe eq_refl).
        by rewrite app_nil_r in Hall.
      * intros b sm' a pe ->. specialize (Hall (sm :: b) sm' a pe eq_refl).
        by rewrite <-app_assoc.
Qed.

(** X11: [PrimaryEntityDimensionPairs.validate_manifest] finds nothing
    exactly when every semantic model that is not the first to resolve to its primary entity declares dimensions of
    pairwise different names, none of which an earlier model with that
    primary entity declares. *)
Theorem validate_manifest_pairs_no_issue (semantic_manifest : SemanticManifest) :
  validate_manifest semantic_manifest = Ok [] <->
  forall before semantic_model after pe,
    semantic_models semantic_manifest = before ++ semantic_model :: after ->
    resolve_primary_entity semantic_model = Some pe ->
    Exists (fun sm' => resolve_primary_entity sm' = Some pe) before ->
    NoDup (dimension_names semantic_model)
    /\ unpaired_before before pe semantic_model.
Proof.
  unfold validate_manifest. cbv zeta.
  destruct (check_models_no_issue (semantic_models semantic_manifest) [] [] ∅
              registry_of_empty) as (found & kp & -> & Hiff).
  cbn [mbind result_bind mret result_ret app]. rewrite Ok_inj. exact Hiff.
Qed.

(** X12: semantic models that resolve to pairwise different primary
    entities get no issue from
    [PrimaryEntityDimensionPairs.validate_manifest], whatever their
    dimensions are named. *)
Theorem validate_manifest_different_primary_entities
  (semantic_manifest : SemanticManifest) :
  (forall i j sm sm' pe,
     i < j ->
     semantic_models semantic_manifest !! i = Some sm ->
     semantic_models semantic_manifest !! j = Some sm' ->
     resolve_primary_entity sm = Some pe ->
     resolve_primary_entity sm' <> Some pe) ->
  validate_manifest semantic_manifest = Ok [].
Proof.
  intros Hdiff. unfold validate_manifest. cbv zeta.
  destruct (check_models_no_issue (semantic_models semantic_manifest) [] [] ∅
              registry_of_empty) as (found & kp & -> & Hiff).
  cbn [mbind result_bind mret result_ret app]. f_equal. apply Hiff.
  intros b sm a pe Heq Hpe Hex. exfalso.
  apply Exists_exists in Hex as (sm' & Hin & Hsm').
  apply list_elem_of_lookup in Hin as [i Hi].
  apply (Hdiff i (length b) sm' sm pe).
  - by eapply lookup_lt_Some.
  - rewrite Heq. rewrite lookup_app_l; [done|]. by eapply lookup_lt_Some.
  - rewrite Heq. by rewrite list_lookup_middle.
  - done.
  - done.
Qed.

Lemma check_models_total models issues known_pairings :
  exists found known_pairings',
    check_models _check_semantic_model models issues known_pairings
    = Ok (issues ++ found, known_pairings').
Proof.
  revert issues known_pairings.
  induction models as [|sm rest IH]; intros issues known_pairings.
  - exists [], known_pairings. by rewrite app_nil_r.
  - destruct (check_semantic_model_total sm known_pairings) as (f1 & kp1 & Hrun).
    destruct (IH (issues ++ f1) kp1) as (f2 & kp2 & Hrest).
    exists (f1 ++ f2), kp2. rewrite check_models_cons, Hrun.
    cbn [mbind result_bind fst snd]. by rewrite Hrest, app_assoc.
Qed.

(** X13: the issues that [PrimaryEntityDimensionPairs.validate_manifest]
    finds in a manifest stay, in their order, at the head of the issues of
    any manifest that adds semantic models after its own. *)
Theorem validate_manifest_more_models (models more : list SemanticModel)
  (metrics_ metrics_' : list Metric) :
  exists issues later,
    validate_manifest {| semantic_models := models; metrics := metrics_ |}
    = Ok issues
    /\ validate_manifest
         {| semantic_models := models ++ more; metrics := metrics_' |}
       = Ok (issues ++ later).
Proof.
  unfold validate_manifest. cbv zeta. cbn [semantic_models].
  rewrite check_models_app.
  destruct (check_models_total models [] ∅) as (found & kp & ->).
  cbn [mbind result_bind mret result_ret fst snd app].
  destruct (check_models_total more found kp) as (later & kp' & ->).
  by exists found, later.
Qed.

End Owners.

(** ** Slices of a string *)
Section Slices.

Lemma str_len_slice_to (n : nat) (s : string) :
  str_len (str_slice_to n s) = n `min` str_len s.
Proof.
  revert n. induction s as [|c s IH]; intros n; [by destruct n|].
  cbn [str_slice_to str_len]. destruct (is_continuation c) eqn:Hc.
  - cbn [str_len]. by rewrite Hc, IH.
  - destruct n as [|n]; [done|]. cbn [str_len]. rewrite Hc, IH. lia.
Qed.

Lemma str_slice_to_twice (n : nat) (s : string) :
  str_slice_to n (str_slice_to n s) = str_slice_to n s.
Proof.
  revert n. induction s as [|c s IH]; intros n; [done|].
  cbn [str_slice_to]. destruct (is_continuation c) eqn:Hc.
  - cbn [str_slice_to]. by rewrite Hc, IH.
  - destruct n as [|n]; [done|]. cbn [str_slice_to]. by rewrite Hc, IH.
Qed.

End Slices.

(** ** [SliceNamesRule.transform_model] *)
Section SliceNames.
Import Store SliceNamesRule.
Context `{Imports}.

Lemma slice_names_loop manifest (sliced rest : list SemanticModel)
  (metrics_ : list Metric) (h : gmap loc object) :
  each (seq (length sliced) (length rest))
    (fun i =>
       name_ ← read_model manifest i name;
       write_model_name manifest i (str_slice_to 3 name_))
    (<[manifest := Manifest {| semantic_models := sliced ++ rest; metrics := metrics_ |}]> h)
  = Ok (tt,
        <[manifest :=
            Manifest
              {| semantic_models :=
                   sliced ++ map (fun sm => with_name sm (str_slice_to 3 (name sm))) rest;
                 metrics := metrics_ |}]> h).
Proof.
  revert sliced. induction rest as [|sm rest IH]; intros sliced; [done|].
  cbn [length seq each map].
  unfold mbind at 1, M_bind at 1.
  unfold read_model, write_model_name, manifest_of, load.
  unfold mbind, M_bind, mret, M_ret, store. cbn beta.
  rewrite !lookup_insert_eq. cbn [semantic_models metrics].
  rewrite !list_lookup_middle by done. cbn beta iota.
  rewrite lookup_insert_eq. cbn [semantic_models metrics].
  rewrite !list_lookup_middle by done. cbn beta iota.
  rewrite insert_insert_eq.
  replace (<[length sliced := with_name sm (str_slice_to 3 (name sm))]> (sliced ++ sm :: rest))
    with ((sliced ++ [with_name sm (str_slice_to 3 (name sm))]) ++ rest).
  2:{ rewrite <-(Nat.add_0_r (length sliced)), insert_app_r. cbn.
      by rewrite <-app_assoc. }
  specialize (IH (sliced ++ [with_name sm (str_slice_to 3 (name sm))])).
  rewrite length_app in IH. cbn [length] in IH. rewrite Nat.add_1_r in IH.
  fold (@mbind M _ unit unit) in *.
  etrans; [apply IH|]. by rewrite <-app_assoc.
Qed.

(** X14: [SliceNamesRule.transform_model] changes the manifest in place and
    returns it: the call returns the place it was given, the manifest there has the name of every
    semantic model cut to its first three characters and is otherwise the
    same, and no other object of the store is touched. *)
Theorem transform_model_in_place (h : gmap loc object) (manifest : loc)
  (m : SemanticManifest) :
  h !! manifest = Some (Manifest m) ->
  transform_model manifest h
  = Ok (manifest, <[manifest := Manifest (with_sliced_names m)]> h).
Proof.
  intros Hm. unfold transform_model, read, manifest_of, load.
  unfold mbind, M_bind, mret, M_ret. cbn beta. rewrite Hm. cbn beta iota.
  pose proof (slice_names_loop manifest [] (semantic_models m) (metrics m) h) as Hloop.
  cbn [length app] in Hloop.
  replace (<[manifest := Manifest {| semantic_models := semantic_models m;
                                     metrics := metrics m |}]> h) with h in Hloop.
  2:{ symmetry. apply insert_id. rewrite Hm. by destruct m. }
  unfold mbind, M_bind, mret, M_ret in Hloop. by rewrite Hloop.
Qed.

Lemma with_sliced_names_twice (m : SemanticManifest) :
  with_sliced_names (with_sliced_names m) = with_sliced_names m.
Proof.
  unfold with_sliced_names. cbn [semantic_models metrics]. f_equal.
  rewrite map_map. apply map_ext. intros sm. unfold with_name.
  cbn [name primary_entity measures entities dimensions metadata].
  by rewrite str_slice_to_twice.
Qed.

(** X15: after [SliceNamesRule.transform_model] every semantic model has a
    name of at most three
    characters, the shorter names being kept; so all the names have three
    characters exactly when all had three or more.  A second call changes
    nothing. *)
Theorem transform_model_names (h : gmap loc object) (manifest : loc)
  (m : SemanticManifest) :
  h !! manifest = Some (Manifest m) ->
  exists m' h',
    transform_model manifest h = Ok (manifest, h')
    /\ h' !! manifest = Some (Manifest m')
    /\ map (fun sm => str_len (name sm)) (semantic_models m')
       = map (fun sm => 3 `min` str_len (name sm)) (semantic_models m)
    /\ (Forall (fun sm => str_len (name sm) = 3) (semantic_models m')
        <-> Forall (fun sm => 3 <= str_len (name sm)) (semantic_models m))
    /\ transform_model manifest h' = Ok (manifest, h').
Proof.
  intros Hm. exists (with_sliced_names m), (<[manifest := Manifest (with_sliced_names m)]> h).
  split; [by apply transform_model_in_place|].
  split; [apply lookup_insert_eq|]. split; [|split].
  - cbn [with_sliced_names semantic_models]. rewrite map_map. apply map_ext.
    intros sm. cbn [with_name name]. apply str_len_slice_to.
  - cbn [with_sliced_names semantic_models]. rewrite Forall_map.
    apply Forall_iff. intros sm. cbn [with_name name compose].
    rewrite str_len_slice_to. lia.
  - rewrite (transform_model_in_place _ _ (with_sliced_names m))
      by apply lookup_insert_eq.
    by rewrite with_sliced_names_twice, insert_insert_eq.
Qed.

End SliceNames.

(** ** A rule called twice *)
Section CalledTwice.
Import Store.
Context `{Imports, PyStr}.

Lemma fresh_issues_twice (h h1 h2 : gmap loc object) issues issues' l1 l2 :
  fresh_issues h issues l1 h1 -> fresh_issues h1 issues' l2 h2 ->
  l1 <> l2 /\ h2 !! l1 = Some (Issues issues) /\ h2 !! l2 = Some (Issues issues').
Proof.
  intros (Hsub1 & Hnew1 & Hl1) (Hsub2 & Hnew2 & Hl2). split; [congruence|].
  split; [by eapply lookup_weaken|done].
Qed.

(** X16: each of the two rules keeps nothing from one call of
    [validate_manifest] to the next: a second call on the same manifest returns the same issues as the first, in a
    list of its own, and the list of the first call still holds them. *)
Theorem validate_manifest_called_twice (h : gmap loc object) (manifest : loc)
  (m : SemanticManifest) :
  h !! manifest = Some (Manifest m) ->
  (exists issues l1 h1 l2 h2,
     UniqueAndValidNameRule_store.validate_manifest manifest h = Ok (l1, h1)
     /\ UniqueAndValidNameRule_store.validate_manifest manifest h1 = Ok (l2, h2)
     /\ l1 <> l2
     /\ h2 !! l1 = Some (Issues issues) /\ h2 !! l2 = Some (Issues issues))
  /\ (exists issues l1 h1 l2 h2,
        PrimaryEntityDimensionPairs_store.validate_manifest manifest h = Ok (l1, h1)
        /\ PrimaryEntityDimensionPairs_store.validate_manifest manifest h1 = Ok (l2, h2)
        /\ l1 <> l2
        /\ h2 !! l1 = Some (Issues issues) /\ h2 !! l2 = Some (Issues issues)).
Proof.
  intros Hm. split.
  - destruct (validate_manifest_simulates manifest m h Hm)
      as (issues & Hpure & l1 & h1 & Hrun1 & Hfresh1).
    assert (h1 !! manifest = Some (Manifest m)) as Hm1.
    { destruct Hfresh1 as [Hsub _]. by eapply lookup_weaken. }
    destruct (validate_manifest_simulates manifest m h1 Hm1)
      as (issues' & Hpure' & l2 & h2 & Hrun2 & Hfresh2).
    assert (issues' = issues) as -> by congruence.
    exists issues, l1, h1, l2, h2. split; [done|]. split; [done|].
    by eapply fresh_issues_twice.
  - destruct (validate_manifest_pairs_simulates manifest m h Hm)
      as (issues & Hpure & l1 & h1 & Hrun1 & Hfresh1).
    assert (h1 !! manifest = Some (Manifest m)) as Hm1.
    { destruct Hfresh1 as [Hsub _]. by eapply lookup_weaken. }
    destruct (validate_manifest_pairs_simulates manifest m h1 Hm1)
      as (issues' & Hpure' & l2 & h2 & Hrun2 & Hfresh2).
    assert (issues' = issues) as -> by congruence.
    exists issues, l1, h1, l2, h2. split; [done|]. split; [done|].
    by eapply fresh_issues_twice.
Qed.

End CalledTwice.

(** ** The two rules on one manifest *)
Section BothRules.
Context `{Imports, PyStr}.

(** X17: on a manifest that [UniqueAndValidNameRule] passes, the pairing rule
    reports an error exactly when two semantic models use the same pair of a
    primary entity and a dimension name, and the short-circuit of the lookup
    makes no difference. *)
Theorem validate_manifest_after_name_rule (semantic_manifest : SemanticManifest) :
  UniqueAndValidNameRule.validate_manifest semantic_manifest = Ok [] ->
  (exists issues,
     PrimaryEntityDimensionPairs.validate_manifest semantic_manifest = Ok issues
     /\ (issues <> [] <-> shared_pairing (semantic_models semantic_manifest)))
  /\ PrimaryEntityDimensionPairs.validate_manifest semantic_manifest
     = PrimaryEntityDimensionPairs.validate_manifest_unconditional_lookup
         semantic_manifest.
Proof.
  rewrite name_rule_issues, Ok_inj, app_nil, flat_map_nil. intros [_ Helements].
  assert (Forall (fun sm => NoDup (dimension_names sm))
            (semantic_models semantic_manifest)) as Hnd.
  { eapply Forall_impl; [done|]. cbn beta.
    by intros sm [(_ & _ & Hsm) _]%element_issues_nil. }
  split.
  - unfold PrimaryEntityDimensionPairs.validate_manifest. cbv zeta.
    destruct (check_models_issues (semantic_models semantic_manifest) [] [] ∅
                registry_of_empty Hnd) as (found & kp & -> & Hiff).
    cbn [mbind result_bind mret result_ret app]. exists found. split; [done|].
    by rewrite Hiff, <-pairing_taken_shared_pairing.
  - unfold PrimaryEntityDimensionPairs.validate_manifest,
      PrimaryEntityDimensionPairs.validate_manifest_unconditional_lookup. cbv zeta.
    destruct (check_models_compare (semantic_models semantic_manifest) [] [] [] ∅
                registry_of_empty)
      as (found & found' & kp & -> & -> & _ & Hiff).
    cbn [mbind result_bind mret result_ret app]. do 2 f_equal. apply Hiff.
    intros b sm a Heq _. eapply Forall_forall in Hnd; [done|].
    rewrite Heq. apply elem_of_app. right. by left.
Qed.

End BothRules.

(** ** The report on the top-level names, and calls that leave the store alone *)
Section Reports.
Import Store UniqueAndValidNameRule.
Context `{Imports, PyStr}.

Lemma model_duplicate_errors_count (seen : list string) (models : list SemanticModel) :
  length (model_duplicate_errors seen models)
  + size (list_to_set (seen ++ map name models) : gset string)
  = length models + size (list_to_set seen : gset string).
Proof.
  revert seen. induction models as [|sm models IH]; intros seen.
  - cbn [map]. by rewrite app_nil_r.
  - cbn [model_duplicate_errors map length]. rewrite length_app.
    specialize (IH (seen ++ [name sm])). rewrite <-app_assoc in IH. cbn [app] in IH.
    rewrite size_names_snoc in IH. case_bool_decide; cbn [length]; lia.
Qed.

(** X18: [_validate_top_level_objects] reports, in this order, the issues of
    the name of every semantic model, then one duplicate error for every
    semantic model whose name an earlier one has, then for every metric the
    issues of its name followed by a duplicate error when an earlier metric
    has that name.  The duplicate errors for semantic models are as many as
    the models, less the number of different names among them. *)
Theorem validate_top_level_objects_report (semantic_manifest : SemanticManifest) :
  _validate_top_level_objects semantic_manifest
  = Ok (flat_map (fun sm => valid_name_issues (name sm) (Some (model_context sm)))
          (semantic_models semantic_manifest)
        ++ model_duplicate_errors [] (semantic_models semantic_manifest)
        ++ metric_issues [] (metrics semantic_manifest))
  /\ length (model_duplicate_errors [] (semantic_models semantic_manifest))
     + size (list_to_set (map name (semantic_models semantic_manifest)) : gset string)
     = length (semantic_models semantic_manifest).
Proof.
  split; [apply validate_top_level_objects_issues|].
  pose proof (model_duplicate_errors_count [] (semantic_models semantic_manifest))
    as Hcount.
  cbn [app list_to_set] in Hcount. rewrite size_empty in Hcount. lia.
Qed.

Lemma fresh_issues_frame (h h' : gmap loc object) issues l :
  fresh_issues h issues l h' ->
  h' !! l = Some (Issues issues) /\ h !! l = None
  /\ forall l' o, h !! l' = Some o -> h' !! l' = Some o.
Proof.
  intros (Hsub & Hnew & Hl). split; [done|]. split; [done|].
  intros l' o Hl'. by eapply lookup_weaken.
Qed.

(** X19: [check_valid_name] has no side effect: on every store the call
    returns, at a place that was not in use, a list that holds the issues of
    the name, and every object that the store held is the same after the
    call. *)
Theorem check_valid_name_no_side_effect (name_ : string)
  (context : option ValidationContext) (h : gmap loc object) :
  exists issues l h',
    UniqueAndValidNameRule_store.check_valid_name name_ context h = Ok (l, h')
    /\ check_valid_name name_ context = Ok issues
    /\ h' !! l = Some (Issues issues) /\ h !! l = None
    /\ forall l' o, h !! l' = Some o -> h' !! l' = Some o.
Proof.
  destruct (check_valid_name_simulates name_ context h)
    as (issues & Hpure & l & h' & Hrun & Hfresh).
  exists issues, l, h'. split; [done|]. split; [done|].
  by apply fresh_issues_frame.
Qed.

(** X20: the two helpers of [UniqueAndValidNameRule.validate_manifest] read
    the manifest and change nothing: each returns a new list that holds its
    issues, and every object that the store held, the manifest first of all,
    is the same after the call. *)
Theorem validate_helpers_no_side_effect (h : gmap loc object) (manifest : loc)
  (m : SemanticManifest) :
  h !! manifest = Some (Manifest m) ->
  (exists issues l h',
     UniqueAndValidNameRule_store._validate_top_level_objects manifest h = Ok (l, h')
     /\ _validate_top_level_objects m = Ok issues
     /\ h' !! l = Some (Issues issues) /\ h !! l = None
     /\ forall l' o, h !! l' = Some o -> h' !! l' = Some o)
  /\ (forall i semantic_model,
        semantic_models m !! i = Some semantic_model ->
        exists issues l h',
          UniqueAndValidNameRule_store._validate_semantic_model_elements manifest i h
          = Ok (l, h')
          /\ _validate_semantic_model_elements semantic_model = Ok issues
          /\ h' !! l = Some (Issues issues) /\ h !! l = None
          /\ forall l' o, h !! l' = Some o -> h' !! l' = Some o).
Proof.
  intros Hm. split.
  - destruct (validate_top_level_objects_simulates manifest m h Hm)
      as (issues & Hpure & l & h' & Hrun & Hfresh).
    exists issues, l, h'. split; [done|]. split; [done|].
    by apply fresh_issues_frame.
  - intros i semantic_model Hi.
    destruct (validate_semantic_model_elements_simulates manifest m i semantic_model
                h Hm Hi) as (issues & Hpure & l & h' & Hrun & Hfresh).
    exists issues, l, h'. split; [done|]. split; [done|].
    by apply fresh_issues_frame.
Qed.

End Reports.

(** * The properties on concrete inputs *)

Lemma check_valid_name_flags_reserved_Day :
  (exists issues,
     @UniqueAndValidNameRule.check_valid_name calendar_Imports ascii_PyStr "Day" None
     = Ok issues
     /\ ValidationError None
          (UniqueAndValidNameRule.granularity_message
             (@TimeGranularity_list_names calendar_Imports) "Day") ∈ issues)
  /\ (exists issues reason,
        @UniqueAndValidNameRule.check_valid_name calendar_Imports ascii_PyStr
          "Metric_Time" None = Ok issues
        /\ MetricFlowReservedKeywords.get_reserved_reason
             MetricFlowReservedKeywords.METRIC_TIME = Ok reason
        /\ List.filter (is_reserved_issue "Metric_Time") issues
           = [ValidationError None
                (UniqueAndValidNameRule.reserved_message "Metric_Time" reason)]
        /\ contains (UniqueAndValidNameRule.reserved_message "Metric_Time" reason)
             reason).
Proof.
  split.
  - apply (@check_valid_name_flags_reserved calendar_Imports ascii_PyStr "Day" None).
    + reflexivity.
    + apply list_elem_of_In. simpl. auto.
  - apply (@check_valid_name_flags_reserved calendar_Imports ascii_PyStr
             "Metric_Time" None).
    reflexivity.
Defined.

Lemma check_valid_name_accepts_orders :
  @UniqueAndValidNameRule.check_valid_name calendar_Imports ascii_PyStr "orders" None
  = Ok [].
Proof.
  apply (@check_valid_name_accepts calendar_Imports ascii_PyStr "orders" None).
  - vm_compute. reflexivity.
  - intros g Hg. apply list_elem_of_In in Hg. simpl in Hg.
    unfold eq_nocase. vm_compute.
    destruct Hg as [<-|[<-|[<-|[<-|[<-|[]]]]]]; discriminate.
  - intros k. unfold eq_nocase. destruct k; vm_compute; discriminate.
Defined.

Lemma check_valid_name_syntax_examples_calendar :
  Forall
    (fun name =>
       @UniqueAndValidNameRule.check_valid_name calendar_Imports ascii_PyStr name None
       = Ok [ValidationError None (UniqueAndValidNameRule.syntax_message name)])
    ["A_bad"; "bad_"; "ba__d"; "b"].
Proof.
  apply (@check_valid_name_syntax_examples calendar_Imports ascii_PyStr None).
  repeat apply Forall_cons_2; [..|apply Forall_nil_2];
    intros Hin; apply list_elem_of_In in Hin; vm_compute in Hin;
    repeat (destruct Hin as [Hin|Hin]; [discriminate Hin|]); exact Hin.
Defined.

Lemma validate_semantic_model_elements_measure_and_dimension_x :
  exists issues,
    @UniqueAndValidNameRule._validate_semantic_model_elements
      calendar_Imports ascii_PyStr measure_and_dimension_x = Ok issues
    /\ List.filter is_element_duplicate_issue issues = [].
Proof.
  apply (proj1 (proj2 (proj2 (@validate_semantic_model_elements_first_seen_wins
                                calendar_Imports ascii_PyStr measure_and_dimension_x)))
           {| measure_name := "x" |} {| dimension_name := "x" |});
    reflexivity.
Defined.

Lemma validate_manifest_two_orders :
  @UniqueAndValidNameRule.validate_manifest calendar_Imports ascii_PyStr two_orders
  = Ok [ValidationError
          (Some (@SemanticModelContext calendar_Imports (Some "orders_again.yaml")
                   {| semantic_model_name := "orders" |}))
          "Can't use name `orders` for a semantic model when it was already used for a semantic model"].
Proof.
  apply (@validate_manifest_two_models_named_orders calendar_Imports ascii_PyStr
           two_orders
           (@Build_SemanticModel calendar_Imports "orders" None [] [] []
              (Some "orders.yaml"))
           (@Build_SemanticModel calendar_Imports "orders" None [] [] []
              (Some "orders_again.yaml")));
    try reflexivity.
  intros Hin. apply list_elem_of_In in Hin. vm_compute in Hin.
  repeat (destruct Hin as [Hin|Hin]; [discriminate Hin|]). exact Hin.
Defined.

(** The short-circuit is seen: the model is the first to claim [host] and
    repeats [created_at]. *)
Lemma validate_manifest_unconditional_lookup_differs :
  @PrimaryEntityDimensionPairs.validate_manifest calendar_Imports repeated_dimension
  <> @PrimaryEntityDimensionPairs.validate_manifest_unconditional_lookup
       calendar_Imports repeated_dimension.
Proof. vm_compute. discriminate. Qed.

Lemma validate_manifest_unconditional_lookup_same_on_same_host :
  @PrimaryEntityDimensionPairs.validate_manifest calendar_Imports same_host
  = @PrimaryEntityDimensionPairs.validate_manifest_unconditional_lookup
      calendar_Imports same_host.
Proof.
  apply (@validate_manifest_unconditional_lookup_same_issues calendar_Imports same_host).
  intros before sm after Hsplit _.
  destruct before as [|? [|? [|? ?]]]; simplify_eq/=;
    repeat constructor; by intros ?%elem_of_nil.
Defined.

(** An error with no pair used by two models: the second model repeats a
    dimension name of its own. *)
Lemma validate_manifest_error_without_shared_pairing :
  exists issues,
    @PrimaryEntityDimensionPairs.validate_manifest calendar_Imports
      repeated_dimension_after_claim = Ok issues
    /\ issues <> []
    /\ ~ shared_pairing (@semantic_models calendar_Imports repeated_dimension_after_claim).
Proof.
  eexists. split; [vm_compute; reflexivity|]. split; [discriminate|].
  intros (i & j & sm & sm' & pe & d & Hlt & Hi & Hj & _ & _ & Hd & Hd').
  destruct i as [|[|i]], j as [|[|j]]; simplify_eq/=; try lia.
  apply list_elem_of_In in Hd, Hd'. cbn in Hd, Hd'.
  destruct Hd as [<-|[]]. destruct Hd' as [[=]|[[=]|[]]].
Qed.

Lemma validate_manifest_errors_on_same_host :
  (exists issue,
     @PrimaryEntityDimensionPairs.validate_manifest calendar_Imports same_host
     = Ok [issue]
     /\ issue
        = PrimaryEntityDimensionPairs.pairing_error (model_of "b" "host" ["created_at"])
            "host" {| dimension_name := "created_at" |} "a"
     /\ contains (issue_message issue) "a"
     /\ contains (issue_message issue) "b")
  /\ @PrimaryEntityDimensionPairs.validate_manifest calendar_Imports
       repeated_dimension_after_claim
     = Ok [PrimaryEntityDimensionPairs.pairing_error
             (model_of "listings" "host" ["created_at"; "created_at"])
             "host" {| dimension_name := "created_at" |} "listings"]
  /\ ~ shared_pairing (@semantic_models calendar_Imports repeated_dimension_after_claim).
Proof.
  split.
  - apply (proj1 (proj2 (@validate_manifest_errors_for_shared_pairings
                           calendar_Imports same_host))
             (model_of "a" "host" ["created_at"]) (model_of "b" "host" ["created_at"])
             {| dimension_name := "created_at" |} {| dimension_name := "created_at" |});
      reflexivity.
  - apply (proj2 (proj2 (proj2 (@validate_manifest_errors_for_shared_pairings
                                  calendar_Imports repeated_dimension_after_claim)))
             (model_of "hosts" "host" ["country"])
             (model_of "listings" "host" ["created_at"; "created_at"])
             {| dimension_name := "created_at" |} {| dimension_name := "created_at" |}
             "host"); try reflexivity.
    intros Hin. apply list_elem_of_In in Hin. simpl in Hin.
    destruct Hin as [Hin|[]]. discriminate Hin.
Defined.

Lemma check_semantic_model_no_primary_entity :
  @PrimaryEntityDimensionPairs._check_semantic_model calendar_Imports
    measure_and_dimension_x ∅ = Ok ([], ∅).
Proof.
  apply (@check_semantic_model_primary_entity calendar_Imports
           measure_and_dimension_x ∅).
  reflexivity.
Defined.

Lemma validate_manifest_keeps_same_host :
  (exists issues l h',
     @UniqueAndValidNameRule_store.validate_manifest calendar_Imports ascii_PyStr
       1%positive same_host_store = Ok (l, h')
     /\ @UniqueAndValidNameRule.validate_manifest calendar_Imports ascii_PyStr
          same_host = Ok issues
     /\ h' !! l = Some (Store.Issues issues) /\ same_host_store !! l = None
     /\ h' !! 1%positive = Some (Store.Manifest same_host)
     /\ forall l' o, same_host_store !! l' = Some o -> h' !! l' = Some o)
  /\ (exists issues l h',
        @PrimaryEntityDimensionPairs_store.validate_manifest calendar_Imports
          1%positive same_host_store = Ok (l, h')
        /\ @PrimaryEntityDimensionPairs.validate_manifest calendar_Imports same_host
           = Ok issues
        /\ h' !! l = Some (Store.Issues issues) /\ same_host_store !! l = None
        /\ h' !! 1%positive = Some (Store.Manifest same_host)
        /\ forall l' o, same_host_store !! l' = Some o -> h' !! l' = Some o).
Proof.
  apply (@validate_manifest_keeps_manifest calendar_Imports ascii_PyStr
           same_host_store 1%positive same_host).
  reflexivity.
Defined.

(** The pattern with [$] accepts a name that ends with a newline;
    [check_valid_name] reports it. *)
Lemma check_valid_name_rejects_trailing_newline :
  Re.matches NAME_REGEX_as_specified ab_newline = true
  /\ (forall g, g ∈ @TimeGranularity_list_names calendar_Imports ->
                ~ eq_nocase ab_newline g)
  /\ (forall k, ~ eq_nocase ab_newline (MetricFlowReservedKeywords.value k))
  /\ @UniqueAndValidNameRule.check_valid_name calendar_Imports ascii_PyStr
       ab_newline None
     = Ok [ValidationError None (UniqueAndValidNameRule.syntax_message ab_newline)].
Proof.
  split; [reflexivity|]. split; [|split; [|reflexivity]].
  - intros g Hg. apply list_elem_of_In in Hg. simpl in Hg.
    unfold eq_nocase. vm_compute.
    destruct Hg as [<-|[<-|[<-|[<-|[<-|[]]]]]]; discriminate.
  - intros k. unfold eq_nocase. destruct k; vm_compute; discriminate.
Qed.

Lemma check_valid_name_keyword_spellings_Metric_Time :
  exists reason,
    MetricFlowReservedKeywords.get_reserved_reason MetricFlowReservedKeywords.METRIC_TIME
    = Ok reason
    /\ @UniqueAndValidNameRule.check_valid_name calendar_Imports ascii_PyStr
         Metric_Time None
       = Ok ((if String.eqb Metric_Time
                   (MetricFlowReservedKeywords.value MetricFlowReservedKeywords.METRIC_TIME)
              then []
              else [ValidationError None (UniqueAndValidNameRule.syntax_message Metric_Time)])
             ++ [ValidationError None
                   (UniqueAndValidNameRule.reserved_message Metric_Time reason)]).
Proof.
  apply (@check_valid_name_keyword_spellings calendar_Imports ascii_PyStr
           MetricFlowReservedKeywords.METRIC_TIME Metric_Time None).
  - reflexivity.
  - intros Hin. apply list_elem_of_In in Hin. vm_compute in Hin.
    repeat destruct Hin as [Hin|Hin]; try discriminate Hin. exact Hin.
Defined.

Lemma validate_manifest_different_primary_entities_repeated_dimension :
  @PrimaryEntityDimensionPairs.validate_manifest calendar_Imports
    (@Build_SemanticManifest calendar_Imports
       [model_of "listings" "host" ["created_at"; "created_at"];
        model_of "bookings" "guest" ["created_at"]] [])
  = Ok [].
Proof.
  apply (@validate_manifest_different_primary_entities calendar_Imports).
  intros i j sm sm' pe Hlt Hi Hj Hpe.
  destruct i as [|[|i]], j as [|[|j]]; simpl in Hi, Hj; try lia; try discriminate.
  injection Hi as <-. injection Hj as <-. simpl in Hpe. injection Hpe as <-.
  simpl. discriminate.
Defined.

Lemma transform_model_in_place_bookings_and_id :
  @SliceNamesRule.transform_model calendar_Imports 1%positive bookings_and_id_store
  = Ok (1%positive,
        <[1%positive := Store.Manifest (with_sliced_names bookings_and_id)]>
          bookings_and_id_store).
Proof.
  apply (@transform_model_in_place calendar_Imports bookings_and_id_store 1%positive
           bookings_and_id).
  reflexivity.
Defined.

Lemma transform_model_names_bookings_and_id :
  exists m' h',
    @SliceNamesRule.transform_model calendar_Imports 1%positive bookings_and_id_store
    = Ok (1%positive, h')
    /\ h' !! 1%positive = Some (Store.Manifest m')
    /\ map (fun sm => str_len (name sm)) (semantic_models m')
       = map (fun sm => 3 `min` str_len (name sm)) (semantic_models bookings_and_id)
    /\ (Forall (fun sm => str_len (name sm) = 3) (semantic_models m')
        <-> Forall (fun sm => 3 <= str_len (name sm)) (semantic_models bookings_and_id))
    /\ @SliceNamesRule.transform_model calendar_Imports 1%positive h'
       = Ok (1%positive, h').
Proof.
  apply (@transform_model_names calendar_Imports bookings_and_id_store 1%positive
           bookings_and_id).
  reflexivity.
Defined.

Lemma validate_manifest_called_twice_same_host :
  (exists issues l1 h1 l2 h2,
     @UniqueAndValidNameRule_store.validate_manifest calendar_Imports ascii_PyStr
       1%positive same_host_store = Ok (l1, h1)
     /\ @UniqueAndValidNameRule_store.validate_manifest calendar_Imports ascii_PyStr
          1%positive h1 = Ok (l2, h2)
     /\ l1 <> l2
     /\ h2 !! l1 = Some (Store.Issues issues) /\ h2 !! l2 = Some (Store.Issues issues))
  /\ (exists issues l1 h1 l2 h2,
        @PrimaryEntityDimensionPairs_store.validate_manifest calendar_Imports
          1%positive same_host_store = Ok (l1, h1)
        /\ @PrimaryEntityDimensionPairs_store.validate_manifest calendar_Imports
             1%positive h1 = Ok (l2, h2)
        /\ l1 <> l2
        /\ h2 !! l1 = Some (Store.Issues issues) /\ h2 !! l2 = Some (Store.Issues issues)).
Proof.
  apply (@validate_manifest_called_twice calendar_Imports ascii_PyStr
           same_host_store 1%positive same_host).
  reflexivity.
Defined.

Lemma validate_manifest_after_name_rule_hosts_and_listings :
  (exists issues,
     @PrimaryEntityDimensionPairs.validate_manifest calendar_Imports hosts_and_listings
     = Ok issues
     /\ (issues <> [] <-> shared_pairing (semantic_models hosts_and_listings)))
  /\ @PrimaryEntityDimensionPairs.validate_manifest calendar_Imports hosts_and_listings
     = @PrimaryEntityDimensionPairs.validate_manifest_unconditional_lookup
         calendar_Imports hosts_and_listings.
Proof.
  apply (@validate_manifest_after_name_rule calendar_Imports ascii_PyStr
           hosts_and_listings).
  vm_compute. reflexivity.
Defined.

Lemma validate_helpers_no_side_effect_bookings :
  (exists issues l h',
     @UniqueAndValidNameRule_store._validate_top_level_objects calendar_Imports
       ascii_PyStr 1%positive bookings_manifest_store = Ok (l, h')
     /\ @UniqueAndValidNameRule._validate_top_level_objects calendar_Imports
          ascii_PyStr bookings_manifest = Ok issues
     /\ h' !! l = Some (Store.Issues issues) /\ bookings_manifest_store !! l = None
     /\ forall l' o, bookings_manifest_store !! l' = Some o -> h' !! l' = Some o)
  /\ (forall i semantic_model,
        semantic_models bookings_manifest !! i = Some semantic_model ->
        exists issues l h',
          @UniqueAndValidNameRule_store._validate_semantic_model_elements
            calendar_Imports ascii_PyStr 1%positive i bookings_manifest_store
          = Ok (l, h')
          /\ @UniqueAndValidNameRule._validate_semantic_model_elements
               calendar_Imports ascii_PyStr semantic_model = Ok issues
          /\ h' !! l = Some (Store.Issues issues)
          /\ bookings_manifest_store !! l = None
          /\ forall l' o, bookings_manifest_store !! l' = Some o -> h' !! l' = Some o).
Proof.
  apply (@validate_helpers_no_side_effect calendar_Imports ascii_PyStr
           bookings_manifest_store 1%positive bookings_manifest).
  reflexivity.
Defined.
